(** * Scheme execution engine ([src/runtime/schemes/runScheme.js])

    A shallow embedding of the incentive-scheme runtime and the properties
    its specification states about it.

    Conventions of the embedding.
    - [Decimal] models decimal.js values under the library's default
      configuration (the source never calls [Decimal.set]): precision 20,
      rounding mode ROUND_HALF_UP.  A finite value is a rational; every
      arithmetic method rounds its exact result to 20 significant digits,
      the constructor does not round.  The sign of zero is not represented:
      the program divides by the literal 100 only and formats with
      [toFixed]/[toString], which ignore it.  The exponent limits of the
      library (1e±9000000000000000) are not represented.
    - JS numbers of the scheme (tier bounds, rates, percentages, quota) are
      finite; each is represented by the rational that [new Decimal(number)]
      yields.
    - JS strings are [string]s; [trim] strips the ASCII white space.
    - Objects used as maps are association lists in insertion order;
      property enumeration follows the JS rule (array-index keys first, in
      ascending order, then the other keys in insertion order).
    - An exception that leaves [runScheme] is an error value: the three
      [throw] statements of [runScheme], the TypeError of [startsWith] on a
      numeric agent key, and the DecimalError that [Decimal.min] throws in
      [calculateTieredPayout] on a tier without [to] (the function returns
      [None], the run [DecimalInvalidArgument]).
    - [console.warn] output and the [timestamp] of log entries (wall-clock
      time) are not represented. *)

From Stdlib Require Import ZArith QArith Qround Qabs Qpower Qreduction.
From Stdlib Require Import List String Ascii Bool DecimalString Lia Lqa.
From Stdlib Require Import Permutation.
Import ListNotations.

Local Open Scope Z_scope.

(** ** Rounding to significant digits (decimal.js [finalise]) *)

Module Rounding.

Fixpoint ilog10_aux (fuel : nat) (n : Z) : Z :=
  match fuel with
  | O => 0
  | S f => if n <? 10 then 0 else 1 + ilog10_aux f (n / 10)
  end.

(** [ilog10 n] is the number of decimal digits of [n >= 1], minus one. *)
Definition ilog10 (n : Z) : Z := ilog10_aux (S (Z.to_nat (Z.log2 n))) n.

Definition pow10 (k : Z) : Q := (10 # 1) ^ k.

(** Decimal exponent of a non-zero rational: [10^mag q <= |q| < 10^(mag q + 1)]. *)
Definition mag (q : Q) : Z :=
  let e0 := ilog10 (Z.abs (Qnum q)) - ilog10 (Zpos (Qden q)) in
  if Qle_bool (pow10 e0) (Qabs q) then e0 else e0 - 1.

(** Nearest integer, ties away from zero (ROUND_HALF_UP). *)
Definition half_up (x : Q) : Z :=
  if Qle_bool 0 x then Qfloor (x + (1 # 2)) else - Qfloor (- x + (1 # 2)).

(** Round to [sd] significant digits. *)
Definition to_sd (sd : Z) (q : Q) : Q :=
  if Qeq_bool q 0 then 0%Q
  else let k := sd - 1 - mag q in
       Qred (inject_Z (half_up (q * pow10 k)) * pow10 (- k)).

Definition precision : Z := 20.

Definition finalise (q : Q) : Q := to_sd precision q.

End Rounding.

(** ** Decimal values and the decimal.js methods the engine calls *)

Inductive Decimal : Type :=
| DNaN
| DInf (negative : bool)
| DFin (q : Q).

Module Dec.
Import Rounding.

Definition zero : Decimal := DFin 0.
Definition one : Decimal := DFin 1.

(** [new Decimal(n)] for a finite JS number whose decimal value is [q]. *)
Definition of_number (q : Q) : Decimal := DFin (Qred q).
Definition of_Z (z : Z) : Decimal := DFin (inject_Z z).

Definition isZero (x : Decimal) : bool :=
  match x with DFin q => Qeq_bool q 0 | _ => false end.

Definition isNeg (x : Decimal) : bool :=
  match x with
  | DFin q => negb (Qle_bool 0 q)
  | DInf s => s
  | DNaN => false
  end.

Definition neg (x : Decimal) : Decimal :=
  match x with
  | DNaN => DNaN
  | DInf s => DInf (negb s)
  | DFin q => DFin (Qred (- q))
  end.

Definition add (x y : Decimal) : Decimal :=
  match x, y with
  | DNaN, _ | _, DNaN => DNaN
  | DInf s, DInf t => if Bool.eqb s t then DInf s else DNaN
  | DInf s, DFin _ => DInf s
  | DFin _, DInf t => DInf t
  | DFin a, DFin b => DFin (finalise (a + b))
  end.

Definition minus (x y : Decimal) : Decimal :=
  match x, y with
  | DNaN, _ | _, DNaN => DNaN
  | DInf s, DInf t => if Bool.eqb s t then DNaN else DInf s
  | DInf s, DFin _ => DInf s
  | DFin _, DInf t => DInf (negb t)
  | DFin a, DFin b => DFin (finalise (a - b))
  end.

Definition times (x y : Decimal) : Decimal :=
  match x, y with
  | DNaN, _ | _, DNaN => DNaN
  | DInf s, DInf t => DInf (xorb s t)
  | DInf s, DFin b => if Qeq_bool b 0 then DNaN else DInf (xorb s (negb (Qle_bool 0 b)))
  | DFin a, DInf t => if Qeq_bool a 0 then DNaN else DInf (xorb (negb (Qle_bool 0 a)) t)
  | DFin a, DFin b => DFin (finalise (a * b))
  end.

(** Division; a zero divisor is taken as [+0] (the engine divides by the
    literal 100 only). *)
Definition div (x y : Decimal) : Decimal :=
  match x, y with
  | DNaN, _ | _, DNaN => DNaN
  | DInf _, DInf _ => DNaN
  | DInf s, DFin b => DInf (xorb s (negb (Qle_bool 0 b)))
  | DFin _, DInf _ => DFin 0
  | DFin a, DFin b =>
      if Qeq_bool b 0
      then (if Qeq_bool a 0 then DNaN else DInf (negb (Qle_bool 0 a)))
      else DFin (finalise (a / b))
  end.

(** [x.cmp(y)]: [None] when either side is NaN. *)
Definition cmp (x y : Decimal) : option comparison :=
  match x, y with
  | DNaN, _ | _, DNaN => None
  | DInf s, DInf t =>
      Some (if Bool.eqb s t then Eq else if s then Lt else Gt)
  | DInf s, DFin _ => Some (if s then Lt else Gt)
  | DFin _, DInf t => Some (if t then Gt else Lt)
  | DFin a, DFin b => Some (a ?= b)%Q
  end.

Definition equals (x y : Decimal) : bool :=
  match cmp x y with Some Eq => true | _ => false end.
Definition gt (x y : Decimal) : bool :=
  match cmp x y with Some Gt => true | _ => false end.
Definition lt (x y : Decimal) : bool :=
  match cmp x y with Some Lt => true | _ => false end.
Definition gte (x y : Decimal) : bool :=
  match cmp x y with Some Gt | Some Eq => true | _ => false end.
Definition lte (x y : Decimal) : bool :=
  match cmp x y with Some Lt | Some Eq => true | _ => false end.

(** [Decimal.max(x, y)] and [Decimal.min(x, y)]. *)
Definition max (x y : Decimal) : Decimal :=
  match cmp x y with
  | None => DNaN
  | Some Lt => y
  | Some _ => x
  end.

Definition min (x y : Decimal) : Decimal :=
  match cmp x y with
  | None => DNaN
  | Some Gt => y
  | Some _ => x
  end.

End Dec.

Module DecFormat.
Import Rounding.

(** Decimal digits of a natural number, most significant first. *)
Definition digits_of_Z (n : Z) : string :=
  NilZero.string_of_uint (N.to_uint (Z.to_N n)).

Definition two_digits (n : Z) : string :=
  ((if (n <? 10)%Z then "0" else "") ++ digits_of_Z n)%string.

(** [x.toFixed(2)]: round half-up at two decimal places; the minus sign
    is taken from the value before rounding. *)
Definition toFixed2 (x : Decimal) : string :=
  match x with
  | DNaN => "NaN"%string
  | DInf s => ((if s then "-" else "") ++ "Infinity")%string
  | DFin q =>
      let n := Qfloor (Qabs q * (100 # 1) + (1 # 2)) in
      ((if Qle_bool 0 q then "" else "-") ++
       digits_of_Z (n / 100)%Z ++ "." ++ two_digits (n mod 100)%Z)%string
  end.

End DecFormat.

(** ** JavaScript strings, values and objects *)

Module Js.

Local Open Scope string_scope.

Definition is_ws (c : ascii) : bool :=
  let n := nat_of_ascii c in
  ((9 <=? n) && (n <=? 13) || (n =? 32))%nat.

Fixpoint trimStart (s : string) : string :=
  match s with
  | String c r => if is_ws c then trimStart r else s
  | EmptyString => EmptyString
  end.

Fixpoint rev_string_aux (s acc : string) : string :=
  match s with
  | EmptyString => acc
  | String c r => rev_string_aux r (String c acc)
  end.

Definition rev_string (s : string) : string := rev_string_aux s EmptyString.

(** [s.trim()] *)
Definition trim (s : string) : string :=
  rev_string (trimStart (rev_string (trimStart s))).

(** [s.split(sep)] for a one-character separator: never an empty list. *)
Fixpoint split_aux (sep : ascii) (s : string) (cur : string) : list string :=
  match s with
  | EmptyString => [rev_string cur]
  | String c r =>
      if Ascii.eqb c sep then rev_string cur :: split_aux sep r EmptyString
      else split_aux sep r (String c cur)
  end.

Definition split (sep : ascii) (s : string) : list string :=
  split_aux sep s EmptyString.

(** [s.includes(sub)] *)
Fixpoint includes (s sub : string) : bool :=
  String.prefix sub s ||
  match s with
  | EmptyString => false
  | String _ r => includes r sub
  end.

(** [s.substring(1)] *)
Definition substring1 (s : string) : string :=
  match s with
  | EmptyString => EmptyString
  | String _ r => r
  end.

Definition digit_value (c : ascii) : option Z :=
  let n := Z.of_nat (nat_of_ascii c) in
  if ((48 <=? n) && (n <=? 57))%Z then Some (n - 48)%Z else None.

Definition hex_value (c : ascii) : option Z :=
  let n := Z.of_nat (nat_of_ascii c) in
  if ((48 <=? n) && (n <=? 57))%Z then Some (n - 48)%Z
  else if ((97 <=? n) && (n <=? 102))%Z then Some (n - 87)%Z
  else if ((65 <=? n) && (n <=? 70))%Z then Some (n - 55)%Z
  else None.

(** Longest prefix of digits in the given radix, as a number. *)
Fixpoint leading_digits (value : ascii -> option Z) (radix : Z) (s : string)
    (acc : option Z) : option Z :=
  match s with
  | EmptyString => acc
  | String c r =>
      match value c with
      | Some d =>
          leading_digits value radix r
            (Some (match acc with Some a => a * radix + d | None => d end)%Z)
      | None => acc
      end
  end.

(** [parseInt(s)] without radix argument; [None] is NaN.  The result is an
    exact integer (no loss of precision above 2^53). *)
Definition parseInt (s : string) : option Z :=
  let s := trimStart s in
  let '(sign, s) :=
    match s with
    | String "-" r => ((-1)%Z, r)
    | String "+" r => (1%Z, r)
    | _ => (1%Z, s)
    end in
  let digits :=
    match s with
    | String "0" (String "x" r) | String "0" (String "X" r) =>
        leading_digits hex_value 16 r None
    | _ => leading_digits digit_value 10 s None
    end in
  option_map (Z.mul sign) digits.

(** The values that flow through the engine: CSV fields are strings, an
    absent property is [undefined], adjusted amounts and aggregates are
    Decimal objects, the per-record qualification check yields a boolean. *)
Inductive JsVal : Type :=
| VUndef
| VNull
| VBool (b : bool)
| VStr (s : string)
| VDec (d : Decimal).

(** ToBoolean *)
Definition truthy (v : JsVal) : bool :=
  match v with
  | VUndef | VNull => false
  | VBool b => b
  | VStr s => negb (String.eqb s "")
  | VDec _ => true
  end.

(** Plain objects read by key: own properties in insertion order. *)
Definition Obj (A : Type) : Type := list (string * A).

Fixpoint get {A : Type} (o : Obj A) (k : string) : option A :=
  match o with
  | [] => None
  | (k', v) :: r => if String.eqb k' k then Some v else get r k
  end.

(** [o[k] = v]: an existing key keeps its position. *)
Fixpoint set {A : Type} (o : Obj A) (k : string) (v : A) : Obj A :=
  match o with
  | [] => [(k, v)]
  | (k', v') :: r =>
      if String.eqb k' k then (k', v) :: r else (k', v') :: set r k v
  end.

(** Property names every plain object inherits from [Object.prototype];
    reading one of them on an object without such an own key yields a
    truthy built-in. *)
Definition Object_prototype_keys : list string :=
  [ "constructor"; "__defineGetter__"; "__defineSetter__"; "hasOwnProperty";
    "__lookupGetter__"; "__lookupSetter__"; "isPrototypeOf";
    "propertyIsEnumerable"; "toString"; "valueOf"; "__proto__";
    "toLocaleString" ].

Definition inherited (k : string) : bool :=
  existsb (String.eqb k) Object_prototype_keys.

(** A key is an array index when it is the canonical decimal form of an
    integer in [0, 2^32 - 2]. *)
Definition all_digits (s : string) : bool :=
  forallb (fun c => match digit_value c with Some _ => true | None => false end)
          (list_ascii_of_string s).

Definition array_index (k : string) : option Z :=
  match k with
  | EmptyString => None
  | String "0" EmptyString => Some 0%Z
  | String "0" _ => None
  | _ =>
      if all_digits k && (String.length k <=? 10)%nat then
        match leading_digits digit_value 10 k None with
        | Some n => if (n <=? 4294967294)%Z then Some n else None
        | None => None
        end
      else None
  end.

Fixpoint insert_index {A : Type} (n : Z) (e : string * A)
    (l : list (Z * (string * A))) : list (Z * (string * A)) :=
  match l with
  | [] => [(n, e)]
  | (m, e') :: r =>
      if (n <? m)%Z then (n, e) :: l else (m, e') :: insert_index n e r
  end.

(** Order in which [for (k in o)] visits the own keys of [o]. *)
Definition enumerate {A : Type} (o : Obj A) : Obj A :=
  let indexed :=
    fold_left (fun acc e =>
                 match array_index (fst e) with
                 | Some n => insert_index n e acc
                 | None => acc
                 end) o [] in
  let named :=
    filter (fun e => match array_index (fst e) with
                     | Some _ => false | None => true end) o in
  (List.map snd indexed ++ named)%list.

End Js.

(** ** Calendar arithmetic for [Date] *)

Module JsDate.

Definition msPerDay : Z := 86400000.

(** Day number (days since 1970-01-01) of a proleptic Gregorian date,
    month in 1..12. *)
Definition days_from_civil (y m d : Z) : Z :=
  let y := if m <=? 2 then y - 1 else y in
  let era := y / 400 in
  let yoe := y - era * 400 in
  let doy := (153 * (if 2 <? m then m - 3 else m + 9) + 2) / 5 + d - 1 in
  let doe := yoe * 365 + yoe / 4 - yoe / 100 + doy in
  era * 146097 + doe - 719468.

(** Year, month (1..12) and day of month of a day number. *)
Definition civil_from_days (z : Z) : Z * Z * Z :=
  let z := z + 719468 in
  let era := z / 146097 in
  let doe := z - era * 146097 in
  let yoe := (doe - doe / 1460 + doe / 36524 - doe / 146096) / 365 in
  let doy := doe - (365 * yoe + yoe / 4 - yoe / 100) in
  let mp := (5 * doy + 2) / 153 in
  let d := doy - (153 * mp + 2) / 5 + 1 in
  let m := if mp <? 10 then mp + 3 else mp - 9 in
  ((if m <=? 2 then yoe + era * 400 + 1 else yoe + era * 400), m, d).

(** [date.setUTCHours(0, 0, 0, 0)] on a valid time value. *)
Definition setUTCHours0 (t : Z) : Z := (t / msPerDay) * msPerDay.

(** [Date.UTC(d.getUTCFullYear(), d.getUTCMonth(), d.getUTCDate())]:
    [Date.UTC] reads a year between 0 and 99 as 1900 + year. *)
Definition utcMidnight (t : Z) : Z :=
  let '(y, m, d) := civil_from_days (t / msPerDay) in
  let y' := if (0 <=? y) && (y <=? 99) then 1900 + y else y in
  (days_from_civil y' m 1 + (d - 1)) * msPerDay.

End JsDate.

(** ** What the engine takes from its host

    [new Date(string)] is implementation-defined outside the ISO format,
    the grammar accepted by [new Decimal(string)] depends on the library
    version, and [Math.random] is not a function of the input: the engine
    is parameterised over them. *)

Class Host : Type := {
  (** [new Date(s).getTime()]; [None] for an invalid date. *)
  Date_parse : string -> option Z;
  (** [new Decimal(s)]; [None] when the constructor throws. *)
  Decimal_parse : string -> option Decimal;
  (** [d.toString()] *)
  Decimal_toString : Decimal -> string;
  (** The n-th value of [`rec_${Math.random().toString(36).substring(2, 15)}`]
      drawn during a run. *)
  random_id : nat -> string
}.

(** ** The scheme, its input files and its logs *)

Module Engine.
Import Js.

Local Open Scope string_scope.

(** A row of a parsed CSV file and a record of an agent (a copy of a row,
    later extended with [recordInternalId] and [adjustedAmount]). *)
Definition CsvRow : Type := Obj string.
Definition RecordObj : Type := Obj JsVal.

Record Rule : Type := {
  rule_id : string;
  rule_field : string;
  rule_operator : string;
  rule_value : JsVal
}.

Record AdjustmentCondition : Type := {
  cond_field : string;
  cond_operator : string;
  cond_value : JsVal
}.

Record AdjustmentAction : Type := {
  adj_target : string;
  adj_type : string;
  adj_value : Q
}.

Record AdjustmentRule : Type := {
  adj_id : string;
  condition : AdjustmentCondition;
  adjustment : AdjustmentAction
}.

Record BaseMapping : Type := {
  sourceFile : string;
  agentField : string;
  amountField : string;
  transactionDateField : string;
  txnID : string
}.

Record CreditSplit : Type := {
  split_id : string;
  role : string;
  percentage : Q
}.

Record PayoutTier : Type := {
  tier_id : string;
  tier_from : Q;
  tier_to : option Q;          (* [None]: null or undefined *)
  tier_rate : Q;
  isPercentage : bool
}.

Record CustomRule : Type := { custom_id : string }.

(** A field of [kpiConfig]; a property absent from the JSON is the string
    ["undefined"], which is what [===] and template literals observe. *)
Record KpiField : Type := {
  kpi_name : string;
  kpi_sourceField : string;
  dataType : string;
  evaluationLevel : string;
  aggregation : string
}.

Record KpiConfig : Type := {
  qualificationFields : list KpiField;
  adjustmentFields : list KpiField;
  exclusionFields : list KpiField
}.

Record Scheme : Type := {
  effectiveFrom : string;
  quotaAmount : Q;
  baseMapping : BaseMapping;
  qualificationRules : list Rule;
  adjustmentRules : list AdjustmentRule;
  exclusionRules : list Rule;
  creditSplits : list CreditSplit;
  creditHierarchyFile : string;
  payoutTiers : list PayoutTier;
  customRules : list CustomRule;
  kpiConfig : KpiConfig
}.

(** [record.id || JSON.stringify(record).substring(0, 50)] and
    [record.id || 'N/A']: the JSON text is kept as the row it prints. *)
Inductive RecordIdent : Type :=
| RidField (id : string)
| RidJson (row : CsvRow)
| RidNA.

(** [managerDetails] of [findManager]. *)
Record ManagerDetails : Type := {
  managerId : JsVal;
  validFrom : JsVal;
  validTo : JsVal
}.

(** Effect of a matching adjustment rule, as its log text describes it. *)
Inductive AdjustEffect : Type :=
| AmountPercent (value : Decimal) (newAmount : Decimal)
| AmountFixed (value : Decimal) (newAmount : Decimal)
| RatePercent (value : Decimal) (newMultiplier : Decimal)
| RateFactor (value : Decimal) (newMultiplier : Decimal)
| NoEffect.

(** One constructor per [logEvent] call of [runScheme]; each carries the
    values its object literal is built from. *)
Inductive LogEntry : Type :=
| LogUnparseableDate (recordId : RecordIdent) (txDateStr : option string)
    (agentId : string)
| LogMissingAgent (recordId : RecordIdent) (fieldName : string)
| LogDataError (recordId : JsVal) (agentId : string) (value : JsVal)
| LogExclusion (ruleId : string) (recordId : JsVal) (agentId : string)
    (field : string) (recordValue : JsVal) (operator : string) (value : JsVal)
| LogAdjustment (ruleId : string) (recordId : JsVal) (agentId : string)
    (field : string) (recordValue : JsVal) (operator : string) (value : JsVal)
    (effect : AdjustEffect)
| LogCustom (recordId : JsVal) (agentId : string)
| LogSumWarning (ruleId : string) (value : JsVal) (recordId : JsVal)
| LogUnsupportedAggregation (ruleId : string) (aggregation : string)
| LogQualification (ruleId : string) (agentId : string) (matched : bool)
    (field : string) (operator : string) (value : JsVal)
    (evaluatedValue : JsVal)
| LogDisqualified (agentId : string) (ruleId : string)
| LogQuota (agentId : string) (matched : bool) (total quota : Decimal)
| LogPayoutCalculation (agentId : string) (baseAmount payoutAmount : string)
    (tiersUsed : list PayoutTier)
| LogSplitWarning (fromAgent : string) (targetRole : string)
    (lookupAgent : JsVal) (level : Z) (resolvedUsing : string)
| LogDistribution (fromAgent : string) (toAgent : JsVal) (level : string)
    (percentage : Q) (amount : string) (resolvedUsing : string)
    (validDuring : option (JsVal * JsVal))
| LogSplitSkipped (fromAgent : string) (targetRole : string)
    (resolvedUsing : string).

(** What [runScheme] throws: its own three errors, the TypeError of the
    grouping stage for an agent id that names an inherited property, and
    the DecimalError (invalid argument) of [calculateTieredPayout] for a
    tier without [to]. *)
Inductive RunError : Type :=
| InvalidRunAsOfDate (runAsOfDateString : string)
| BaseFileNotFound (baseDataFile : string)
| BaseFileParseFailure (baseDataFile : string)
| AgentKeyTypeError (agentId : string)
| DecimalInvalidArgument.

Record RunResult : Type := {
  agentPayouts : Obj string;
  ruleHitLogs : Obj (list LogEntry);
  creditDistributions : Obj (list LogEntry);
  rawRecordLevelData : list LogEntry
}.

(** Per-agent accumulator [agentData[agentId]]. *)
Record AgentInfo : Type := {
  records : list RecordObj;
  logs : list LogEntry;
  totalBaseAmount : Decimal;
  totalAdjustedAmount : Decimal;
  qualified : bool;
  payout : Decimal
}.

End Engine.

(** ** Helper functions of [runScheme.js] *)

Module Helpers.
Import Js Engine JsDate.

Local Open Scope string_scope.

Definition comma : ascii := ascii_of_nat 44.
Definition newline : ascii := ascii_of_nat 10.

(** [parseCSV(csvString)] *)
Definition parseCSV (csvString : string) : list CsvRow :=
  if String.eqb csvString "" then []
  else
    let lines := split newline (trim csvString) in
    if (List.length lines <? 2)%nat then []
    else
      match lines with
      | [] => []
      | headerLine :: dataLines =>
          let headers := List.map trim (split comma headerLine) in
          flat_map
            (fun line =>
               let values := List.map trim (split comma line) in
               if (List.length values <? List.length headers)%nat then []
               else [fold_left (fun rowObject hv => set rowObject (fst hv) (snd hv))
                               (combine headers values) []])
            dataLines
      end.

(** [record[key]] on a row: [undefined] when the column is absent. *)
Definition field (record : CsvRow) (key : string) : JsVal :=
  match get record key with
  | Some s => VStr s
  | None => VUndef
  end.

Definition prop (record : RecordObj) (key : string) : JsVal :=
  match get record key with
  | Some v => v
  | None => VUndef
  end.

(** [a === b]; two Decimal objects are never the same object here. *)
Definition strict_eq (a b : JsVal) : bool :=
  match a, b with
  | VUndef, VUndef | VNull, VNull => true
  | VBool x, VBool y => Bool.eqb x y
  | VStr x, VStr y => String.eqb x y
  | _, _ => false
  end.

(** [a || b] *)
Definition or_else (a b : JsVal) : JsVal := if truthy a then a else b.

Section WithHost.
Context {host : Host}.

(** [String(v)] *)
Definition toStr (v : JsVal) : string :=
  match v with
  | VUndef => "undefined"
  | VNull => "null"
  | VBool true => "true"
  | VBool false => "false"
  | VStr s => s
  | VDec d => Decimal_toString d
  end.

(** [new Decimal(v)]; [None] when the constructor throws. *)
Definition toDecimal (v : JsVal) : option Decimal :=
  match v with
  | VStr s => Decimal_parse s
  | VDec d => Some d
  | VUndef | VNull | VBool _ => None
  end.

(** [parseDate(dateString)]: the time value at UTC midnight, or null. *)
Definition parseDate (dateString : JsVal) : option Z :=
  match dateString with
  | VStr s =>
      if String.eqb s "" then None
      else match Date_parse s with
           | None => None
           | Some t => Some (setUTCHours0 t)
           end
  | _ => None
  end.

(** [evaluateRule(recordValue, operator, ruleValue, dataType)].  No value
    that reaches it is a [Date] object, so the ['Date'] branch returns
    false. *)
Definition evaluateRule (recordValue : JsVal) (operator : string)
    (ruleValue : JsVal) (dataType : string) : bool :=
  if String.eqb dataType "Number" then
    match toDecimal recordValue with
    | None => false
    | Some rv =>
        match toDecimal ruleValue with
        | None => false
        | Some v =>
            if String.eqb operator "=" then Dec.equals rv v
            else if String.eqb operator ">=" then Dec.gte rv v
            else if String.eqb operator "<=" then Dec.lte rv v
            else if String.eqb operator ">" then Dec.gt rv v
            else if String.eqb operator "<" then Dec.lt rv v
            else if String.eqb operator "CONTAINS"
                 then includes (Decimal_toString rv) (Decimal_toString v)
            else if String.eqb operator "!=" then negb (Dec.equals rv v)
            else false
        end
    end
  else if String.eqb dataType "Date" then false
  else
    let rv := toStr recordValue in
    let v := toStr ruleValue in
    if String.eqb operator "=" then String.eqb rv v
    else if String.eqb operator ">=" then String.leb v rv
    else if String.eqb operator "<=" then String.leb rv v
    else if String.eqb operator ">" then String.ltb v rv
    else if String.eqb operator "<" then String.ltb rv v
    else if String.eqb operator "CONTAINS" then includes rv v
    else if String.eqb operator "!=" then negb (String.eqb rv v)
    else false.

(** [findManager(hierarchyData, agentId, transactionDate)] *)
Fixpoint findManager_loop (hierarchyData : list CsvRow) (agentId : JsVal)
    (targetDate : Z) : option ManagerDetails :=
  match hierarchyData with
  | [] => None
  | record :: rest =>
      if strict_eq (field record "Sales Employee") agentId then
        let fromDate := parseDate (field record "Reports From") in
        let toDate := parseDate (field record "Reports To") in
        let isAfterFrom :=
          match fromDate with Some f => (f <=? targetDate)%Z | None => false end in
        let isBeforeTo :=
          match toDate with Some t => (targetDate <=? t)%Z | None => true end in
        if isAfterFrom && isBeforeTo then
          Some {| managerId := field record "Reports To Person";
                  validFrom := field record "Reports From";
                  validTo := or_else (field record "Reports To") (VStr "Indefinite") |}
        else findManager_loop rest agentId targetDate
      else findManager_loop rest agentId targetDate
  end.

Definition findManager (hierarchyData : list CsvRow) (agentId : JsVal)
    (transactionDate : Z) : option ManagerDetails :=
  if negb (truthy agentId) then None
  else findManager_loop hierarchyData agentId (utcMidnight transactionDate).

End WithHost.

(** [[...tiers].sort((a, b) => a.from - b.from)]: the sort is stable. *)
Fixpoint insert_tier (t : PayoutTier) (sorted : list PayoutTier) : list PayoutTier :=
  match sorted with
  | [] => [t]
  | h :: r =>
      if Qle_bool (tier_from t) (tier_from h) then t :: sorted
      else h :: insert_tier t r
  end.

Definition sort_tiers (tiers : list PayoutTier) : list PayoutTier :=
  fold_right insert_tier [] tiers.

(** [tierTo]: [new Decimal(tier.to)] when the tier has a [to].  For a
    tier without one the source reads [Decimal.Infinity]; the decimal.js
    constructor has no such property, so [tierTo] is [undefined]: [None]. *)
Definition tierTo (tier : PayoutTier) : option Decimal :=
  match tier_to tier with
  | Some t => Some (Dec.of_number t)
  | None => None
  end.

(** [amountInTier] of a tier for an amount, [tierRangeEnd] being a
    Decimal. *)
Definition amountInTier (amount : Decimal) (tier : PayoutTier)
    (tierRangeEnd : Decimal) : Decimal :=
  Dec.max Dec.zero
    (Dec.minus (Dec.min amount tierRangeEnd) (Dec.of_number (tier_from tier))).

(** [payoutForTier] *)
Definition payoutForTier (inTier : Decimal) (tier : PayoutTier) : Decimal :=
  if isPercentage tier
  then Dec.div (Dec.times inTier (Dec.of_number (tier_rate tier))) (Dec.of_Z 100)
  else Dec.times inTier (Dec.of_number (tier_rate tier)).

(** The [for] loop of [calculateTieredPayout] over the sorted tiers.
    [None]: the loop reaches a tier without [to], and
    [Decimal.min(amount, undefined)] throws a DecimalError (invalid
    argument); tiers that the loop does not reach are not looked at. *)
Fixpoint tier_loop (amount : Decimal) (sortedTiers : list PayoutTier)
    (totalPayout : Decimal) : option Decimal :=
  match sortedTiers with
  | [] => Some totalPayout
  | tier :: rest =>
      match tierTo tier with
      | None => None
      | Some tierRangeEnd =>
          let inTier := amountInTier amount tier tierRangeEnd in
          if Dec.isZero inTier && Dec.gt amount tierRangeEnd then
            tier_loop amount rest totalPayout
          else if Dec.isZero inTier
                  && Dec.lte amount (Dec.of_number (tier_from tier)) then
            Some totalPayout
          else
            let totalPayout := Dec.add totalPayout (payoutForTier inTier tier) in
            if Dec.lte amount tierRangeEnd then Some totalPayout
            else tier_loop amount rest totalPayout
      end
  end.

(** [calculateTieredPayout(amount, tiers)]; [None] when it throws. *)
Definition calculateTieredPayout (amount : Decimal) (tiers : list PayoutTier)
    : option Decimal :=
  tier_loop amount (sort_tiers tiers) Dec.zero.

End Helpers.

(** ** [runScheme], stage by stage *)

Module Run.
Import Js Engine JsDate Helpers.

Local Open Scope string_scope.

Section WithHost.
Context {host : Host}.

(** *** 1. Base data selection *)

Definition recordIdOrJson (record : CsvRow) : RecordIdent :=
  match get record "id" with
  | Some id => if String.eqb id "" then RidJson record else RidField id
  | None => RidJson record
  end.

Definition recordIdOrNA (record : CsvRow) : RecordIdent :=
  match get record "id" with
  | Some id => if String.eqb id "" then RidNA else RidField id
  | None => RidNA
  end.

Definition agentOrUnknown (record : CsvRow) (agentField : string) : string :=
  match get record agentField with
  | Some a => if String.eqb a "" then "Unknown" else a
  | None => "Unknown"
  end.

(** The callback of [baseData.filter]: the verdict and the entries it logs. *)
Definition keepRecord (scheme : Scheme) (effectiveFromDate : option Z)
    (runAsOfDate : Z) (record : CsvRow) : bool * list LogEntry :=
  let txDateStr := get record (transactionDateField (baseMapping scheme)) in
  match parseDate (field record (transactionDateField (baseMapping scheme))) with
  | None =>
      (false,
       [LogUnparseableDate (recordIdOrJson record) txDateStr
          (agentOrUnknown record (agentField (baseMapping scheme)))])
  | Some txDate =>
      let txDate := setUTCHours0 txDate in
      let isAfterFrom :=
        match effectiveFromDate with
        | Some eff => (eff <=? txDate)%Z
        | None => true
        end in
      let isBeforeRunDate := (txDate <=? runAsOfDate)%Z in
      (isAfterFrom && isBeforeRunDate, [])
  end.

Fixpoint filterRecords (scheme : Scheme) (effectiveFromDate : option Z)
    (runAsOfDate : Z) (baseData : list CsvRow) : list CsvRow * list LogEntry :=
  match baseData with
  | [] => ([], [])
  | record :: rest =>
      let '(keep, entries) := keepRecord scheme effectiveFromDate runAsOfDate record in
      let '(kept, later) := filterRecords scheme effectiveFromDate runAsOfDate rest in
      ((if keep then record :: kept else kept), (entries ++ later)%list)
  end.

(** *** 2. Group by agent *)

Definition copyRecord (record : CsvRow) : RecordObj :=
  List.map (fun kv => (fst kv, VStr (snd kv))) record.

(** State of the grouping loop: [agentData] (only [records] differs from
    the initial accumulator at this stage), the number of [Math.random]
    draws so far, and the entries logged. *)
Fixpoint groupByAgent (agentField : string) (filteredRecords : list CsvRow)
    (agentData : Obj (list RecordObj)) (draws : nat) (entries : list LogEntry)
    : RunError + (Obj (list RecordObj) * list LogEntry) :=
  match filteredRecords with
  | [] => inr (agentData, entries)
  | record :: rest =>
      match get record agentField with
      | None =>
          groupByAgent agentField rest agentData draws
            (entries ++ [LogMissingAgent (recordIdOrNA record) agentField])%list
      | Some agentId =>
          if String.eqb agentId "" then
            groupByAgent agentField rest agentData draws
              (entries ++ [LogMissingAgent (recordIdOrNA record) agentField])%list
          else
            match get agentData agentId with
            | None =>
                if inherited agentId then
                  (* [agentData[agentId]] is an inherited built-in: it has no
                     [records], and [.push] throws a TypeError *)
                  inl (AgentKeyTypeError agentId)
                else
                  let '(record, draws) :=
                    if truthy (field record "recordInternalId") then (record, draws)
                    else (set record "recordInternalId" (random_id draws), S draws) in
                  groupByAgent agentField rest
                    (set agentData agentId [copyRecord record]) draws entries
            | Some recs =>
                let '(record, draws) :=
                  if truthy (field record "recordInternalId") then (record, draws)
                  else (set record "recordInternalId" (random_id draws), S draws) in
                groupByAgent agentField rest
                  (set agentData agentId (recs ++ [copyRecord record])%list) draws entries
            end
      end
  end.

(** *** 3. Record-level rules *)

Definition findField (fields : list KpiField) (name : string) : option KpiField :=
  find (fun f => String.eqb (kpi_name f) name) fields.

(** 3.A The exclusion loop: the entry of the rule that excludes the record. *)
Fixpoint exclusionLoop (exclusionFields : list KpiField) (agentId : string)
    (record : RecordObj) (rules : list Rule) : option LogEntry :=
  match rules with
  | [] => None
  | rule :: rest =>
      match findField exclusionFields (rule_field rule) with
      | None => exclusionLoop exclusionFields agentId record rest
      | Some fieldDef =>
          let recordValue := prop record (kpi_sourceField fieldDef) in
          if evaluateRule recordValue (rule_operator rule) (rule_value rule)
               (dataType fieldDef)
          then Some (LogExclusion (rule_id rule) (prop record "recordInternalId")
                       agentId (rule_field rule) recordValue (rule_operator rule)
                       (rule_value rule))
          else exclusionLoop exclusionFields agentId record rest
      end
  end.

(** The body of the [if] of a matching adjustment rule. *)
Definition applyAdjustment (adj : AdjustmentAction)
    (currentAmount rateMultiplier : Decimal) : Decimal * Decimal * AdjustEffect :=
  if String.eqb (adj_target adj) "Amount" then
    let adjValue := Dec.of_number (adj_value adj) in
    if String.eqb (adj_type adj) "percentage" then
      let change := Dec.div (Dec.times currentAmount adjValue) (Dec.of_Z 100) in
      let currentAmount := Dec.add currentAmount change in
      (currentAmount, rateMultiplier, AmountPercent adjValue currentAmount)
    else if String.eqb (adj_type adj) "fixed" then
      let currentAmount := Dec.add currentAmount adjValue in
      (currentAmount, rateMultiplier, AmountFixed adjValue currentAmount)
    else (currentAmount, rateMultiplier, NoEffect)
  else if String.eqb (adj_target adj) "Rate" then
    let adjValue := Dec.of_number (adj_value adj) in
    if String.eqb (adj_type adj) "percentage" then
      let rateMultiplier := Dec.times rateMultiplier (Dec.div adjValue (Dec.of_Z 100)) in
      (currentAmount, rateMultiplier, RatePercent adjValue rateMultiplier)
    else if String.eqb (adj_type adj) "fixed" then
      let rateMultiplier := Dec.times rateMultiplier adjValue in
      (currentAmount, rateMultiplier, RateFactor adjValue rateMultiplier)
    else (currentAmount, rateMultiplier, NoEffect)
  else (currentAmount, rateMultiplier, NoEffect).

(** 3.B The adjustment loop. *)
Fixpoint adjustmentLoop (adjustmentFields : list KpiField) (agentId : string)
    (record : RecordObj) (rules : list AdjustmentRule)
    (currentAmount rateMultiplier : Decimal) (entries : list LogEntry)
    : Decimal * Decimal * list LogEntry :=
  match rules with
  | [] => (currentAmount, rateMultiplier, entries)
  | rule :: rest =>
      match findField adjustmentFields (cond_field (condition rule)) with
      | None =>
          adjustmentLoop adjustmentFields agentId record rest
            currentAmount rateMultiplier entries
      | Some fieldDef =>
          let recordValue := prop record (kpi_sourceField fieldDef) in
          if evaluateRule recordValue (cond_operator (condition rule))
               (cond_value (condition rule)) (dataType fieldDef)
          then
            let '(currentAmount, rateMultiplier, effect) :=
              applyAdjustment (adjustment rule) currentAmount rateMultiplier in
            adjustmentLoop adjustmentFields agentId record rest
              currentAmount rateMultiplier
              (entries ++
               [LogAdjustment (adj_id rule) (prop record "recordInternalId") agentId
                  (cond_field (condition rule)) recordValue
                  (cond_operator (condition rule)) (cond_value (condition rule))
                  effect])%list
          else
            adjustmentLoop adjustmentFields agentId record rest
              currentAmount rateMultiplier entries
      end
  end.

(** State of the record loop of one agent. *)
Record RecordLoop : Type := {
  processedRecords : list RecordObj;
  baseTotal : Decimal;
  adjustedTotal : Decimal;
  recordEntries : list LogEntry     (* appended to [rawRecordLevelData] *)
}.

(** [new Decimal(baseAmountValue || 0)]; [None] when it throws. *)
Definition initialAmount (scheme : Scheme) (record : RecordObj) : option Decimal :=
  let baseAmountValue := prop record (amountField (baseMapping scheme)) in
  if truthy baseAmountValue then toDecimal baseAmountValue else Some Dec.zero.

(** One iteration of [for (const record of agentInfo.records)]. *)
Definition processRecord (scheme : Scheme) (agentId : string)
    (st : RecordLoop) (record : RecordObj) : RecordLoop :=
  let baseAmountValue := prop record (amountField (baseMapping scheme)) in
  match initialAmount scheme record with
  | None =>
      {| processedRecords := processedRecords st;
         baseTotal := baseTotal st;
         adjustedTotal := adjustedTotal st;
         recordEntries :=
           (recordEntries st ++
            [LogDataError (prop record "recordInternalId") agentId baseAmountValue])%list |}
  | Some currentAmount =>
      let baseTotal' := Dec.add (baseTotal st) currentAmount in
      match exclusionLoop (exclusionFields (kpiConfig scheme)) agentId record
              (exclusionRules scheme) with
      | Some entry =>
          {| processedRecords := processedRecords st;
             baseTotal := baseTotal';
             adjustedTotal := adjustedTotal st;
             recordEntries := (recordEntries st ++ [entry])%list |}
      | None =>
          let '(currentAmount, rateMultiplier, entries) :=
            adjustmentLoop (adjustmentFields (kpiConfig scheme)) agentId record
              (adjustmentRules scheme) currentAmount Dec.one (recordEntries st) in
          let entries :=
            match customRules scheme with
            | [] => entries
            | _ :: _ =>
                (entries ++ [LogCustom (prop record "recordInternalId") agentId])%list
            end in
          let finalRecordAmount := Dec.times currentAmount rateMultiplier in
          let record := set record "adjustedAmount" (VDec finalRecordAmount) in
          {| processedRecords := (processedRecords st ++ [record])%list;
             baseTotal := baseTotal';
             adjustedTotal := Dec.add (adjustedTotal st) finalRecordAmount;
             recordEntries := entries |}
      end
  end.

Definition recordLoop (scheme : Scheme) (agentId : string)
    (agentRecords : list RecordObj) : RecordLoop :=
  fold_left (processRecord scheme agentId) agentRecords
    {| processedRecords := []; baseTotal := Dec.zero; adjustedTotal := Dec.zero;
       recordEntries := [] |}.

(** *** 4. Agent-level qualification *)

(** One step of the [reduce] of the ['Sum'] aggregation. *)
Definition sumStep (scheme : Scheme) (rule : Rule) (fieldDef : KpiField)
    (acc : Decimal * list LogEntry) (rec : RecordObj) : Decimal * list LogEntry :=
  let source := prop rec (kpi_sourceField fieldDef) in
  let val :=
    if String.eqb (kpi_sourceField fieldDef) (amountField (baseMapping scheme))
       && negb (strict_eq (prop rec "adjustedAmount") VUndef)
    then toDecimal (prop rec "adjustedAmount")
    else if truthy source then toDecimal source else Some Dec.zero in
  match val with
  | Some v => (Dec.add (fst acc) v, snd acc)
  | None =>
      (fst acc,
       (snd acc ++
        [LogSumWarning (rule_id rule) source (prop rec "recordInternalId")])%list)
  end.

(** [fieldDef.dataType = 'Boolean'] on the object [find] returned: the
    first field of that name. *)
Fixpoint setBooleanDataType (fields : list KpiField) (name : string) : list KpiField :=
  match fields with
  | [] => []
  | f :: r =>
      if String.eqb (kpi_name f) name then
        {| kpi_name := kpi_name f; kpi_sourceField := kpi_sourceField f;
           dataType := "Boolean"; evaluationLevel := evaluationLevel f;
           aggregation := aggregation f |} :: r
      else f :: setBooleanDataType r name
  end.

(** What one iteration of the qualification loop leaves behind: whether
    the loop goes on, the rule and the field list as the iteration left
    them (the per-record branch assigns to [rule.value], [rule.operator]
    and [fieldDef.dataType] of the scheme itself), and the agent's log. *)
Record QualStep : Type := {
  goOn : bool;
  ruleAfter : Rule;
  fieldsAfter : list KpiField;
  entriesAfter : list LogEntry
}.

(** Evaluation, logging and the disqualifying [break] at the end of an
    iteration. *)
Definition concludeRule (agentId : string) (rule : Rule) (fields : list KpiField)
    (fieldDataType : string) (valueToEvaluate : JsVal) (entries : list LogEntry)
    : QualStep :=
  let ruleMet :=
    evaluateRule valueToEvaluate (rule_operator rule) (rule_value rule)
      fieldDataType in
  let entries :=
    (entries ++
     [LogQualification (rule_id rule) agentId ruleMet (rule_field rule)
        (rule_operator rule) (rule_value rule) valueToEvaluate])%list in
  if ruleMet then
    {| goOn := true; ruleAfter := rule; fieldsAfter := fields;
       entriesAfter := entries |}
  else
    {| goOn := false; ruleAfter := rule; fieldsAfter := fields;
       entriesAfter := (entries ++ [LogDisqualified agentId (rule_id rule)])%list |}.

Definition qualificationStep (scheme : Scheme) (agentId : string)
    (agentRecords : list RecordObj) (rule : Rule) (fields : list KpiField)
    (entries : list LogEntry) : QualStep :=
  match findField fields (rule_field rule) with
  | None =>
      {| goOn := true; ruleAfter := rule; fieldsAfter := fields;
         entriesAfter := entries |}
  | Some fieldDef =>
      if String.eqb (evaluationLevel fieldDef) "Agent" then
        if String.eqb (aggregation fieldDef) "Sum" then
          let '(sum, entries) :=
            fold_left (sumStep scheme rule fieldDef) agentRecords
              (Dec.zero, entries) in
          concludeRule agentId rule fields (dataType fieldDef) (VDec sum) entries
        else if String.eqb (aggregation fieldDef) "Count" then
          concludeRule agentId rule fields (dataType fieldDef)
            (VDec (Dec.of_Z (Z.of_nat (List.length agentRecords)))) entries
        else
          {| goOn := true; ruleAfter := rule; fieldsAfter := fields;
             entriesAfter :=
               (entries ++
                [LogUnsupportedAggregation (rule_id rule) (aggregation fieldDef)])%list |}
      else
        let foundMatch :=
          existsb (fun rec =>
                     evaluateRule (prop rec (kpi_sourceField fieldDef))
                       (rule_operator rule) (rule_value rule) (dataType fieldDef))
                  agentRecords in
        let rule :=
          {| rule_id := rule_id rule; rule_field := rule_field rule;
             rule_operator := "="; rule_value := VBool true |} in
        let fields := setBooleanDataType fields (rule_field rule) in
        concludeRule agentId rule fields "Boolean" (VBool foundMatch) entries
  end.

(** [for (const rule of scheme.qualificationRules)]: returns [qualified],
    the rules and fields of the scheme after the loop, and the agent's log. *)
Fixpoint qualificationLoop (scheme : Scheme) (agentId : string)
    (agentRecords : list RecordObj) (rules : list Rule) (fields : list KpiField)
    (entries : list LogEntry)
    : bool * list Rule * list KpiField * list LogEntry :=
  match rules with
  | [] => (true, [], fields, entries)
  | rule :: rest =>
      let step := qualificationStep scheme agentId agentRecords rule fields entries in
      if goOn step then
        let '(q, rest', fields', entries') :=
          qualificationLoop scheme agentId agentRecords rest
            (fieldsAfter step) (entriesAfter step) in
        (q, ruleAfter step :: rest', fields', entries')
      else (false, ruleAfter step :: rest, fieldsAfter step, entriesAfter step)
  end.

(** *** 5. Payout tier calculation *)

Definition quotaOf (scheme : Scheme) : Decimal :=
  if Qeq_bool (quotaAmount scheme) 0 then Dec.of_Z 0
  else Dec.of_number (quotaAmount scheme).

(** [None]: [calculateTieredPayout] throws; nothing catches the error
    inside [runScheme]. *)
Definition payoutStage (scheme : Scheme) (agentId : string) (isQualified : bool)
    (total : Decimal) (entries : list LogEntry)
    : option (Decimal * list LogEntry) :=
  if isQualified then
    let quota := quotaOf scheme in
    let amountForTierCalc := total in
    let '(meetsQuota, entries) :=
      if Dec.gt quota (Dec.of_Z 0) then
        if Dec.lt total quota
        then (false, (entries ++ [LogQuota agentId false amountForTierCalc quota])%list)
        else (true, (entries ++ [LogQuota agentId true amountForTierCalc quota])%list)
      else (true, entries) in
    if meetsQuota then
      match calculateTieredPayout amountForTierCalc (payoutTiers scheme) with
      | None => None
      | Some agentPayout =>
          Some (agentPayout,
                (entries ++
                 [LogPayoutCalculation agentId (DecFormat.toFixed2 amountForTierCalc)
                    (DecFormat.toFixed2 agentPayout) (payoutTiers scheme)])%list)
      end
    else Some (Dec.of_Z 0, entries)
  else Some (Dec.of_Z 0, entries).

(** *** 6. Credit split through the hierarchy *)

(** Variables of the split loop that outlive an iteration:
    [currentAgentForLookup], [level], and the agent's entries in
    [creditDistributions]. *)
Record SplitLoop : Type := {
  currentAgentForLookup : JsVal;
  level : Z;
  splitEntries : list LogEntry
}.

(** [for (let i = level; i < targetLevel; i++)]: one manager lookup per
    step; returns the loop variables and [managerDetails] as the loop
    leaves them. *)
Fixpoint climb (scheme : Scheme) (hierarchyData : list CsvRow) (runAsOfDate : Z)
    (agentId : string) (splitRole : string) (steps : nat) (st : SplitLoop)
    (managerDetails : option ManagerDetails)
    : SplitLoop * option ManagerDetails :=
  match steps with
  | O => (st, managerDetails)
  | S steps' =>
      match findManager hierarchyData (currentAgentForLookup st) runAsOfDate with
      | Some details =>
          climb scheme hierarchyData runAsOfDate agentId splitRole steps'
            {| currentAgentForLookup := managerId details;
               level := (level st + 1)%Z;
               splitEntries := splitEntries st |}
            (Some details)
      | None =>
          ({| currentAgentForLookup := VNull;
              level := level st;
              splitEntries :=
                (splitEntries st ++
                 [LogSplitWarning agentId splitRole (currentAgentForLookup st)
                    (level st) (creditHierarchyFile scheme)])%list |},
           None)
      end
  end.

(** What the first half of an iteration of the split loop computes:
    [targetAgentId], [managerDetails], [resolvedUsing], and the loop
    variables after the lookups. *)
Record Resolution : Type := {
  targetAgentId : JsVal;
  managerDetails : option ManagerDetails;
  resolvedUsing : string;
  afterLookup : SplitLoop
}.

Definition resolveTarget (scheme : Scheme) (hierarchyData : list CsvRow)
    (runAsOfDate : Z) (agentId : string) (st : SplitLoop)
    (splitRule : CreditSplit) : Resolution :=
  let unresolved st details :=
    {| targetAgentId := VNull; managerDetails := details;
       resolvedUsing := "Direct Assignment"; afterLookup := st |} in
  if String.eqb (role splitRule) "L1" then
    {| targetAgentId := VStr agentId; managerDetails := None;
       resolvedUsing := "Direct Assignment"; afterLookup := st |}
  else
    match parseInt (substring1 (role splitRule)) with
    | Some targetLevel =>
        if (level st <? targetLevel)%Z then
          let '(st', details) :=
            climb scheme hierarchyData runAsOfDate agentId (role splitRule)
              (Z.to_nat (targetLevel - level st)) st None in
          if truthy (currentAgentForLookup st') && (level st' =? targetLevel)%Z
          then {| targetAgentId := currentAgentForLookup st';
                  managerDetails := details;
                  resolvedUsing := creditHierarchyFile scheme;
                  afterLookup := st' |}
          else unresolved st' details
        else if (targetLevel =? level st)%Z then
          {| targetAgentId := currentAgentForLookup st; managerDetails := None;
             resolvedUsing := "Direct Assignment"; afterLookup := st |}
        else unresolved st None
    | None => unresolved st None
    end.

(** [basePayoutForSplit.times(percentage).div(100)] *)
Definition creditAmount (basePayoutForSplit : Decimal) (splitRule : CreditSplit)
    : Decimal :=
  Dec.div (Dec.times basePayoutForSplit (Dec.of_number (percentage splitRule)))
          (Dec.of_Z 100).

(** The record a resolved split logs. *)
Definition distributionRecord (agentId : string) (basePayoutForSplit : Decimal)
    (splitRule : CreditSplit) (res : Resolution) : LogEntry :=
  LogDistribution agentId (targetAgentId res) (role splitRule)
    (percentage splitRule)
    (DecFormat.toFixed2 (creditAmount basePayoutForSplit splitRule))
    (resolvedUsing res)
    (option_map (fun d => (validFrom d, validTo d)) (managerDetails res)).

Definition appendEntry (st : SplitLoop) (entry : LogEntry) : SplitLoop :=
  {| currentAgentForLookup := currentAgentForLookup st;
     level := level st;
     splitEntries := (splitEntries st ++ [entry])%list |}.

(** One iteration of [for (const splitRule of scheme.creditSplits)]. *)
Definition splitStep (scheme : Scheme) (hierarchyData : list CsvRow)
    (runAsOfDate : Z) (agentId : string) (basePayoutForSplit : Decimal)
    (st : SplitLoop) (splitRule : CreditSplit) : SplitLoop :=
  let res := resolveTarget scheme hierarchyData runAsOfDate agentId st splitRule in
  if truthy (targetAgentId res) then
    if Dec.gt (creditAmount basePayoutForSplit splitRule) (Dec.of_Z 0) then
      appendEntry (afterLookup res)
        (distributionRecord agentId basePayoutForSplit splitRule res)
    else afterLookup res
  else if negb (String.eqb (role splitRule) "L1") then
    appendEntry (afterLookup res)
      (LogSplitSkipped agentId (role splitRule) (creditHierarchyFile scheme))
  else afterLookup res.

(** The entries the split loop leaves in [creditDistributions[agentId]],
    starting from the entries already there. *)
Definition creditSplitLoop (scheme : Scheme) (hierarchyData : list CsvRow)
    (runAsOfDate : Z) (agentId : string) (basePayoutForSplit : Decimal)
    (existing : list LogEntry) : list LogEntry :=
  splitEntries
    (fold_left (splitStep scheme hierarchyData runAsOfDate agentId basePayoutForSplit)
       (creditSplits scheme)
       {| currentAgentForLookup := VStr agentId; level := 1;
          splitEntries := existing |}).

(** *** The agent loop *)

(** What the agent loop carries from one agent to the next: the result
    maps, [rawRecordLevelData], and the parts of the scheme object that
    the qualification stage assigns to. *)
Record RunState : Type := {
  st_rules : list Rule;
  st_fields : list KpiField;
  st_payouts : Obj string;
  st_ruleHitLogs : Obj (list LogEntry);
  st_credit : Obj (list LogEntry);
  st_raw : list LogEntry
}.

(** What stages 3 to 5 of the body of the agent loop leave behind:
    [agentData[agentId]], the qualification rules and fields of the scheme
    object, and the entries added to [rawRecordLevelData]. *)
Record AgentOutcome : Type := {
  info : AgentInfo;
  rulesLeft : list Rule;
  fieldsLeft : list KpiField;
  rawEntries : list LogEntry
}.

(** [agentInfo.totalAdjustedAmount] after the record loop, and
    [agentInfo.qualified] after the qualification loop. *)
Definition totalOf (scheme : Scheme) (agentId : string)
    (agentRecords : list RecordObj) : Decimal :=
  adjustedTotal (recordLoop scheme agentId agentRecords).

Definition qualifiedByRules (scheme : Scheme) (rules : list Rule)
    (fields : list KpiField) (agentId : string) (agentRecords : list RecordObj)
    : bool :=
  fst (fst (fst
    (qualificationLoop scheme agentId
       (processedRecords (recordLoop scheme agentId agentRecords))
       rules fields []))).

(** Stages 3 to 5 for one agent, given the qualification rules and fields
    as the previous agents left them; [None] when the payout stage
    throws. *)
Definition agentOutcome (scheme : Scheme) (rules : list Rule)
    (fields : list KpiField) (agentId : string) (agentRecords : list RecordObj)
    : option AgentOutcome :=
  let rl := recordLoop scheme agentId agentRecords in
  let '(isQualified, rules', fields', entries) :=
    qualificationLoop scheme agentId (processedRecords rl) rules fields [] in
  match payoutStage scheme agentId isQualified (adjustedTotal rl) entries with
  | None => None
  | Some (agentPayout, entries) =>
      Some {| info :=
                {| records := processedRecords rl;
                   logs := entries;
                   totalBaseAmount := baseTotal rl;
                   totalAdjustedAmount := adjustedTotal rl;
                   qualified := isQualified;
                   payout := agentPayout |};
              rulesLeft := rules';
              fieldsLeft := fields';
              rawEntries := recordEntries rl |}
  end.

(** Stage 6 and the bookkeeping at the end of the body of the agent
    loop. *)
Definition concludeAgent (scheme : Scheme) (hierarchyData : list CsvRow)
    (runAsOfDate : Z) (st : RunState) (agentId : string)
    (outcome : AgentOutcome) : RunState :=
  let agentInfo := info outcome in
  let credit :=
    if qualified agentInfo
       && Dec.gt (payout agentInfo) (Dec.of_Z 0)
       && negb (Nat.eqb (List.length hierarchyData) 0)
       && negb (Nat.eqb (List.length (creditSplits scheme)) 0)
    then
      set (st_credit st) agentId
        (creditSplitLoop scheme hierarchyData runAsOfDate agentId (payout agentInfo)
           (match get (st_credit st) agentId with
            | Some existing => existing
            | None => []
            end))
    else st_credit st in
  {| st_rules := rulesLeft outcome;
     st_fields := fieldsLeft outcome;
     st_payouts := set (st_payouts st) agentId (DecFormat.toFixed2 (payout agentInfo));
     st_ruleHitLogs :=
       match logs agentInfo with
       | [] => st_ruleHitLogs st
       | _ :: _ => set (st_ruleHitLogs st) agentId (logs agentInfo)
       end;
     st_credit := credit;
     st_raw := (st_raw st ++ rawEntries outcome)%list |}.

(** The body of [for (const agentId in agentData)]; [None] when it
    throws. *)
Definition processAgent (scheme : Scheme) (hierarchyData : list CsvRow)
    (runAsOfDate : Z) (st : RunState) (agent : string * list RecordObj)
    : option RunState :=
  match agentOutcome scheme (st_rules st) (st_fields st) (fst agent) (snd agent) with
  | None => None
  | Some outcome =>
      Some (concludeAgent scheme hierarchyData runAsOfDate st (fst agent) outcome)
  end.

(** The agent loop: the first agent whose body throws ends it. *)
Fixpoint agentLoop (scheme : Scheme) (hierarchyData : list CsvRow)
    (runAsOfDate : Z) (agents : list (string * list RecordObj)) (st : RunState)
    : option RunState :=
  match agents with
  | [] => Some st
  | agent :: rest =>
      match processAgent scheme hierarchyData runAsOfDate st agent with
      | None => None
      | Some st' => agentLoop scheme hierarchyData runAsOfDate rest st'
      end
  end.

(** *** [runScheme(scheme, uploadedFiles, runAsOfDateString)] *)

(** [uploadedFiles[name]] as the initialisation uses it: the content of an
    own key, a truthy built-in for an inherited name, or [undefined]. *)
Inductive FileLookup : Type :=
| FileContent (csvString : string)
| FileInherited
| FileAbsent.

Definition lookupFile (uploadedFiles : Obj string) (name : string) : FileLookup :=
  match get uploadedFiles name with
  | Some content => FileContent content
  | None => if inherited name then FileInherited else FileAbsent
  end.

Definition loadHierarchy (scheme : Scheme) (uploadedFiles : Obj string) : list CsvRow :=
  if String.eqb (creditHierarchyFile scheme) "" then []
  else match lookupFile uploadedFiles (creditHierarchyFile scheme) with
       | FileContent content =>
           if String.eqb content "" then [] else parseCSV content
       | FileInherited => []   (* [parseCSV] throws, the [catch] clears it *)
       | FileAbsent => []
       end.

Definition runScheme (scheme : Scheme) (uploadedFiles : Obj string)
    (runAsOfDateString : string) : RunError + RunResult :=
  match parseDate (VStr runAsOfDateString) with
  | None => inl (InvalidRunAsOfDate runAsOfDateString)
  | Some runAsOfDate =>
      let effectiveFromDate := parseDate (VStr (effectiveFrom scheme)) in
      let runAsOfDate := setUTCHours0 runAsOfDate in
      let effectiveFromDate := option_map setUTCHours0 effectiveFromDate in
      let baseDataFile := sourceFile (baseMapping scheme) in
      if String.eqb baseDataFile "" then inl (BaseFileNotFound baseDataFile)
      else
        match lookupFile uploadedFiles baseDataFile with
        | FileAbsent => inl (BaseFileNotFound baseDataFile)
        | FileInherited => inl (BaseFileParseFailure baseDataFile)
        | FileContent content =>
            if String.eqb content "" then inl (BaseFileNotFound baseDataFile)
            else
              let baseData := parseCSV content in
              let hierarchyData := loadHierarchy scheme uploadedFiles in
              let '(filteredRecords, dateEntries) :=
                filterRecords scheme effectiveFromDate runAsOfDate baseData in
              match groupByAgent (agentField (baseMapping scheme)) filteredRecords
                      [] O dateEntries with
              | inl e => inl e
              | inr (agentData, entries) =>
                  match
                    agentLoop scheme hierarchyData runAsOfDate
                      (enumerate agentData)
                      {| st_rules := qualificationRules scheme;
                         st_fields := qualificationFields (kpiConfig scheme);
                         st_payouts := []; st_ruleHitLogs := []; st_credit := [];
                         st_raw := entries |}
                  with
                  | None => inl DecimalInvalidArgument
                  | Some final =>
                      inr {| agentPayouts := st_payouts final;
                             ruleHitLogs := st_ruleHitLogs final;
                             creditDistributions := st_credit final;
                             rawRecordLevelData := st_raw final |}
                  end
              end
        end
  end.

End WithHost.
End Run.

(** ** A concrete host

    Used to run the engine on concrete inputs.  Its [Date_parse] accepts
    exactly the valid calendar dates written [YYYY-MM-DD] (on which every
    JS engine agrees) and rejects every other string; its [Decimal_parse]
    accepts plain decimal literals with optional sign, fraction and
    exponent, [Infinity] and [NaN]. *)

Module IsoHost.
Import Js JsDate.

Local Open Scope string_scope.

Definition isLeap (y : Z) : bool :=
  ((y mod 4 =? 0) && negb (y mod 100 =? 0) || (y mod 400 =? 0))%Z.

Definition daysInMonth (y m : Z) : Z :=
  if (m =? 2)%Z then (if isLeap y then 29 else 28)%Z
  else if ((m =? 4) || (m =? 6) || (m =? 9) || (m =? 11))%Z then 30%Z
  else 31%Z.

Definition number_of (s : string) : option Z :=
  if all_digits s then leading_digits digit_value 10 s None else None.

Definition iso_date (s : string) : option Z :=
  match split (ascii_of_nat 45) s with
  | [ys; ms; ds] =>
      if ((String.length ys =? 4) && (String.length ms =? 2)
          && (String.length ds =? 2))%nat then
        match number_of ys, number_of ms, number_of ds with
        | Some y, Some m, Some d =>
            if ((1 <=? m) && (m <=? 12) && (1 <=? d) && (d <=? daysInMonth y m))%Z
            then Some (days_from_civil y m d * msPerDay)%Z
            else None
        | _, _, _ => None
        end
      else None
  | _ => None
  end.

(** Splits a string at the first character satisfying [p]. *)
Fixpoint break_at (p : ascii -> bool) (s : string) : string * option string :=
  match s with
  | EmptyString => (EmptyString, None)
  | String c r =>
      if p c then (EmptyString, Some r)
      else let '(a, b) := break_at p r in (String c a, b)
  end.

Definition is_e (c : ascii) : bool :=
  (Ascii.eqb c "e" || Ascii.eqb c "E")%char.

Definition is_dot (c : ascii) : bool := Ascii.eqb c ".".

Definition signed_number (s : string) : option Z :=
  match s with
  | String "-" r => option_map Z.opp (number_of r)
  | String "+" r => number_of r
  | _ => number_of s
  end.

Definition unsigned_literal (s : string) : option Q :=
  let '(mantissa, exponent) := break_at is_e s in
  let '(intPart, fracPart) := break_at is_dot mantissa in
  let frac := match fracPart with Some f => f | None => EmptyString end in
  let wellFormed :=
    all_digits intPart && all_digits frac
    && negb (String.eqb intPart "" && String.eqb frac "") in
  let e :=
    match exponent with
    | None => Some 0%Z
    | Some x => signed_number x
    end in
  match wellFormed, e with
  | true, Some e =>
      let digits :=
        match leading_digits digit_value 10 (intPart ++ frac) None with
        | Some n => n
        | None => 0%Z
        end in
      Some (Qred (inject_Z digits
                  * Rounding.pow10 (e - Z.of_nat (String.length frac))))
  | _, _ => None
  end.

Definition decimal_literal (s : string) : option Decimal :=
  let '(negative, body) :=
    match s with
    | String "-" r => (true, r)
    | String "+" r => (false, r)
    | _ => (false, s)
    end in
  if String.eqb body "Infinity" then Some (DInf negative)
  else if String.eqb body "NaN" then Some DNaN
  else match unsigned_literal body with
       | Some q => Some (DFin (if negative then Qred (- q) else q))
       | None => None
       end.

Fixpoint zeros (n : nat) : string :=
  match n with
  | O => EmptyString
  | S k => String "0" (zeros k)
  end.

(** Smallest [s] such that [q * 10^s] is an integer, searched from [s]
    upwards for [fuel] steps. *)
Fixpoint scale_of (fuel : nat) (q : Q) (s : Z) : option Z :=
  if (Zpos (Qden (Qred (q * Rounding.pow10 s))) =? 1)%Z then Some s
  else match fuel with
       | O => None
       | S f => scale_of f q (s + 1)%Z
       end.

(** [toString] of decimal.js with its default [toExpNeg = -7] and
    [toExpPos = 21]. *)
Definition decimal_toString (x : Decimal) : string :=
  match x with
  | DNaN => "NaN"
  | DInf s => (if s then "-" else "") ++ "Infinity"
  | DFin q =>
      if Qeq_bool q 0 then "0"
      else
        let a := Qabs q in
        let e := Rounding.mag a in
        match scale_of (Z.to_nat (Z.log2 (Qnum a) + Z.log2 (Zpos (Qden a)) + 2))
                (a * Rounding.pow10 (- e)) 0 with
        | None => "NaN"
        | Some s =>
            (* the coefficient has [s + 1] digits *)
            let digits := DecFormat.digits_of_Z
                            (Qfloor (a * Rounding.pow10 (s - e))) in
            let body :=
              if ((e <=? -7) || (21 <=? e))%Z then
                String.substring 0 1 digits
                ++ (if (s =? 0)%Z then "" else "." ++ String.substring 1 (Z.to_nat s) digits)
                ++ "e" ++ (if (e <? 0)%Z then "-" else "+")
                ++ DecFormat.digits_of_Z (Z.abs e)
              else if (e <? 0)%Z then
                "0." ++ zeros (Z.to_nat (- e - 1)) ++ digits
              else if (s <=? e)%Z then
                digits ++ zeros (Z.to_nat (e - s))
              else
                String.substring 0 (Z.to_nat (e + 1)) digits ++ "."
                ++ String.substring (Z.to_nat (e + 1)) (Z.to_nat (s - e)) digits in
            (if Qle_bool 0 q then "" else "-") ++ body
        end
  end.

#[export] Instance host : Host := {|
  Date_parse := iso_date;
  Decimal_parse := decimal_literal;
  Decimal_toString := decimal_toString;
  random_id := fun n => "rec_" ++ DecFormat.digits_of_Z (Z.of_nat n)
|}.

End IsoHost.

(** ** The statements of the specification, in its own words

    Definitions that the properties below compare the engine with. *)

Module Spec.
Import Js Engine JsDate Helpers Run.

Local Open Scope string_scope.

Section WithHost.
Context {host : Host}.

(** A hierarchy record serves an agent on a date: its [Sales Employee] is
    the agent id itself, its [Reports From] parses and is not after the
    date, and its [Reports To], when it parses, is not before it. *)
Definition coversDate (agentId : JsVal) (targetDate : Z) (record : CsvRow) : bool :=
  strict_eq (field record "Sales Employee") agentId
  && match parseDate (field record "Reports From") with
     | Some reportsFrom => (reportsFrom <=? targetDate)%Z
     | None => false
     end
  && match parseDate (field record "Reports To") with
     | Some reportsTo => (targetDate <=? reportsTo)%Z
     | None => true
     end.

Definition detailsOf (record : CsvRow) : ManagerDetails :=
  {| managerId := field record "Reports To Person";
     validFrom := field record "Reports From";
     validTo := or_else (field record "Reports To") (VStr "Indefinite") |}.

(** An exclusion rule matches a record: its field is declared and its
    condition holds of the record's value. *)
Definition exclusionRuleMatches (scheme : Scheme) (record : RecordObj)
    (rule : Rule) : bool :=
  match findField (exclusionFields (kpiConfig scheme)) (rule_field rule) with
  | None => false
  | Some fieldDef =>
      evaluateRule (prop record (kpi_sourceField fieldDef)) (rule_operator rule)
        (rule_value rule) (dataType fieldDef)
  end.

(** The condition of an adjustment rule, on the fields of the record. *)
Definition conditionHolds (scheme : Scheme) (record : RecordObj)
    (rule : AdjustmentRule) : bool :=
  match findField (adjustmentFields (kpiConfig scheme))
          (cond_field (condition rule)) with
  | None => false
  | Some fieldDef =>
      evaluateRule (prop record (kpi_sourceField fieldDef))
        (cond_operator (condition rule)) (cond_value (condition rule))
        (dataType fieldDef)
  end.

(** The running state [(currentAmount, rateMultiplier)] after a matching
    rule. *)
Definition adjustOnce (adj : AdjustmentAction) (running : Decimal * Decimal)
    : Decimal * Decimal :=
  let currentAmount := fst running in
  let rateMultiplier := snd running in
  let value := Dec.of_number (adj_value adj) in
  let hundred := Dec.of_Z 100 in
  if String.eqb (adj_target adj) "Amount" && String.eqb (adj_type adj) "percentage"
  then (Dec.add currentAmount (Dec.div (Dec.times currentAmount value) hundred),
        rateMultiplier)
  else if String.eqb (adj_target adj) "Amount" && String.eqb (adj_type adj) "fixed"
  then (Dec.add currentAmount value, rateMultiplier)
  else if String.eqb (adj_target adj) "Rate" && String.eqb (adj_type adj) "percentage"
  then (currentAmount, Dec.times rateMultiplier (Dec.div value hundred))
  else if String.eqb (adj_target adj) "Rate" && String.eqb (adj_type adj) "fixed"
  then (currentAmount, Dec.times rateMultiplier value)
  else running.

(** Rules applied in declared order; each condition is read off the
    record, each update off the running state. *)
Fixpoint adjustInOrder (scheme : Scheme) (record : RecordObj)
    (rules : list AdjustmentRule) (running : Decimal * Decimal)
    : Decimal * Decimal :=
  match rules with
  | [] => running
  | rule :: rest =>
      adjustInOrder scheme record rest
        (if conditionHolds scheme record rule
         then adjustOnce (adjustment rule) running
         else running)
  end.

(** Final adjusted amount of a record with base amount [baseAmount]. *)
Definition adjustedAmountSpec (scheme : Scheme) (record : RecordObj)
    (baseAmount : Decimal) : Decimal :=
  let running := adjustInOrder scheme record (adjustmentRules scheme)
                   (baseAmount, Dec.one) in
  Dec.times (fst running) (snd running).

End WithHost.

(** The log entry of a tier calculation. *)
Definition isPayoutCalculation (entry : LogEntry) : bool :=
  match entry with
  | LogPayoutCalculation _ _ _ _ => true
  | _ => false
  end.

(** No tier calculation is recorded in a log. *)
Definition noPayoutEntry (entries : list LogEntry) : Prop :=
  forall e, In e entries -> isPayoutCalculation e = false.

(** [slice = max(0, min(amount, tier.to) - tier.from)], a missing [to]
    being unbounded. *)
Definition sliceSpec (amount : Decimal) (tier : PayoutTier) : Decimal :=
  match tier_to tier with
  | Some t =>
      Dec.max Dec.zero
        (Dec.minus (Dec.min amount (Dec.of_number t)) (Dec.of_number (tier_from tier)))
  | None =>
      Dec.max Dec.zero (Dec.minus amount (Dec.of_number (tier_from tier)))
  end.

(** Adds [slice * rate / 100] of a tier to a sum. *)
Definition addSlice (amount : Decimal) (sum : Decimal) (tier : PayoutTier) : Decimal :=
  Dec.add sum
    (Dec.div (Dec.times (sliceSpec amount tier) (Dec.of_number (tier_rate tier)))
             (Dec.of_Z 100)).

(** The sum over all tiers of [slice * rate / 100]. *)
Definition tierSumSpec (amount : Decimal) (tiers : list PayoutTier) : Decimal :=
  fold_left (addSlice amount) tiers Dec.zero.

(** Tiers sorted ascending by [from]. *)
Fixpoint ascendingFrom (tiers : list PayoutTier) : Prop :=
  match tiers with
  | t1 :: ((t2 :: _) as rest) =>
      (tier_from t1 <= tier_from t2)%Q /\ ascendingFrom rest
  | _ => True
  end.

(** No tier reaches into the next one: its [to] is at most the next
    [from]; only the last tier may lack a [to]. *)
Fixpoint nonOverlapping (tiers : list PayoutTier) : Prop :=
  match tiers with
  | t1 :: ((t2 :: _) as rest) =>
      match tier_to t1 with
      | Some t => (t <= tier_from t2)%Q
      | None => False
      end /\ nonOverlapping rest
  | _ => True
  end.

(** An entry that does not tell of a failed qualification. *)
Definition passes (entry : LogEntry) : Prop :=
  match entry with
  | LogDisqualified _ _ => False
  | LogQualification _ _ matched _ _ _ _ => matched = true
  | _ => True
  end.

(** An iteration of the qualification loop either goes on, having added
    entries that pass, or stops on a failed evaluation followed by the
    disqualification. *)
Definition stepShape (agentId : string) (entries : list LogEntry)
    (step : Run.QualStep) : Prop :=
  exists added,
    Forall passes added
    /\ if Run.goOn step then Run.entriesAfter step = (entries ++ added)%list
       else exists ruleId field operator value evaluated,
           Run.entriesAfter step
           = (entries ++ added ++
              [LogQualification ruleId agentId false field operator value evaluated;
               LogDisqualified agentId ruleId])%list.

(** Every tier has a [to]. *)
Definition allBounded (tiers : list PayoutTier) : Prop :=
  forall t, In t tiers -> tier_to t <> None.

End Spec.

(** ** Order and rounded values of [Decimal]

    Notions used to state and prove the numeric properties. *)

Module DecOrder.

(** Both values are finite and ordered. *)
Definition le (x y : Decimal) : Prop :=
  match x, y with
  | DFin a, DFin b => (a <= b)%Q
  | _, _ => False
  end.

(** A value that rounding to the working precision leaves unchanged;
    every result of an arithmetic method is one. *)
Definition rounded (x : Decimal) : Prop :=
  match x with
  | DFin a => Rounding.finalise a = a
  | _ => True
  end.

(** The result of a loop that returns is a rounded value, at least [t]. *)
Definition atLeast (t : Decimal) (result : option Decimal) : Prop :=
  match result with
  | Some v => le t v /\ rounded v
  | None => True
  end.

(** The results of two loops that both return are ordered. *)
Definition ordered (r1 r2 : option Decimal) : Prop :=
  match r1, r2 with
  | Some a, Some b => le a b
  | _, _ => True
  end.

End DecOrder.

(** ** Concrete schemes and files *)

Module Examples.
Import Js Engine Helpers Run.

Local Open Scope string_scope.

Definition lines (l : list string) : string :=
  String.concat (String newline EmptyString) l.

Definition mapping : BaseMapping :=
  {| sourceFile := "SCH1.csv"; agentField := "Sales Employee";
     amountField := "Net Value"; transactionDateField := "Document Date";
     txnID := "Sales Document" |}.

Definition noFields : KpiConfig :=
  {| qualificationFields := []; adjustmentFields := []; exclusionFields := [] |}.

Definition tier (f : Q) (t : option Q) (r : Q) : PayoutTier :=
  {| tier_id := "tier"; tier_from := f; tier_to := t; tier_rate := r;
     isPercentage := true |}.

(** One tier, 0-1000000 at 10 percent, one credit split L2 = 20 percent. *)
Definition splitScheme : Scheme :=
  {| effectiveFrom := "2024-01-01"; quotaAmount := 0; baseMapping := mapping;
     qualificationRules := []; adjustmentRules := []; exclusionRules := [];
     creditSplits := [ {| split_id := "s1"; role := "L2"; percentage := 20 |} ];
     creditHierarchyFile := "MH_DEC24.csv";
     payoutTiers := [ tier 0 (Some 1000000%Q) 10 ];
     customRules := []; kpiConfig := noFields |}.

(** Agent A sells 1000 and 2000; A reports to M during 2024. *)
Definition splitFiles : Obj string :=
  [ ("SCH1.csv",
     lines [ "Sales Employee,Net Value,Document Date";
             "A,1000,2024-12-05";
             "A,2000,2024-12-06" ]);
    ("MH_DEC24.csv",
     lines [ "Sales Employee,Reports To Person,Reports From,Reports To";
             "A,M,2024-01-01,2024-12-31" ]) ].

(** No rules, no splits. *)
Definition plainScheme (tiers : list PayoutTier) : Scheme :=
  {| effectiveFrom := "2024-01-01"; quotaAmount := 0; baseMapping := mapping;
     qualificationRules := []; adjustmentRules := []; exclusionRules := [];
     creditSplits := []; creditHierarchyFile := "";
     payoutTiers := tiers; customRules := []; kpiConfig := noFields |}.

Definition salesFile (rows : list string) : Obj string :=
  [ ("SCH1.csv", lines ("Sales Employee,Net Value,Document Date" :: rows)) ].

Definition agentRecord (agent amount date id : string) : RecordObj :=
  [ ("Sales Employee", VStr agent); ("Net Value", VStr amount);
    ("Document Date", VStr date); ("recordInternalId", VStr id) ].

(** Two tiers: 0-1000 at 5 percent, 1000-1000000 at 10 percent. *)
Definition twoTiers : list PayoutTier :=
  [ tier 0 (Some 1000%Q) 5; tier 1000 (Some 1000000%Q) 10 ].

(** The tiers of the end-to-end scenario of the specification: 0-1000 at
    5 percent, then 10 percent without upper bound. *)
Definition openTiers : list PayoutTier :=
  [ tier 0 (Some 1000%Q) 5; tier 1000 None 10 ].

(** Two tiers that overlap between 500 and 1000. *)
Definition overlappingTiers : list PayoutTier :=
  [ tier 0 (Some 1000%Q) 5; tier 500 (Some 2000%Q) 10 ].

(** A single tier, 0-1000000, with a negative rate. *)
Definition negativeRateTiers : list PayoutTier :=
  [ tier 0 (Some 1000000%Q) (-10) ].

(** A single tier that starts below zero. *)
Definition belowZeroTiers : list PayoutTier :=
  [ tier (-100) (Some 1000000%Q) 10 ].

(** A per-record qualification rule: some record of the agent has
    [Region = EU]. *)
Definition regionScheme : Scheme :=
  {| effectiveFrom := "2024-01-01"; quotaAmount := 0; baseMapping := mapping;
     qualificationRules :=
       [ {| rule_id := "q1"; rule_field := "Region"; rule_operator := "=";
            rule_value := VStr "EU" |} ];
     adjustmentRules := []; exclusionRules := [];
     creditSplits := []; creditHierarchyFile := "";
     payoutTiers := [ tier 0 (Some 1000000%Q) 10 ];
     customRules := [];
     kpiConfig :=
       {| qualificationFields :=
            [ {| kpi_name := "Region"; kpi_sourceField := "Region";
                 dataType := "String"; evaluationLevel := "Per Record";
                 aggregation := "NotApplicable" |} ];
          adjustmentFields := []; exclusionFields := [] |} |}.

Definition regionFileBoth : Obj string :=
  [ ("SCH1.csv",
     lines [ "Sales Employee,Net Value,Document Date,Region";
             "A,1000,2024-12-05,EU";
             "B,1000,2024-12-06,EU" ]) ].

Definition regionFileOnlyB : Obj string :=
  [ ("SCH1.csv",
     lines [ "Sales Employee,Net Value,Document Date,Region";
             "B,1000,2024-12-06,EU" ]) ].

(** An exclusion rule on [Delivery Status] and two adjustment rules. *)
Definition rulesScheme : Scheme :=
  {| effectiveFrom := "2024-01-01"; quotaAmount := 500; baseMapping := mapping;
     qualificationRules := [];
     adjustmentRules :=
       [ {| adj_id := "a1";
            condition := {| cond_field := "Org"; cond_operator := "=";
                            cond_value := VStr "1810" |};
            adjustment := {| adj_target := "Amount"; adj_type := "percentage";
                             adj_value := 10 |} |};
         {| adj_id := "a2";
            condition := {| cond_field := "Org"; cond_operator := "=";
                            cond_value := VStr "1810" |};
            adjustment := {| adj_target := "Rate"; adj_type := "percentage";
                             adj_value := 200 |} |} ];
     exclusionRules :=
       [ {| rule_id := "e0"; rule_field := "Status"; rule_operator := "=";
            rule_value := VStr "Open" |};
         {| rule_id := "e1"; rule_field := "Status"; rule_operator := "=";
            rule_value := VStr "Cancelled" |};
         {| rule_id := "e2"; rule_field := "Status"; rule_operator := "CONTAINS";
            rule_value := VStr "Cancel" |} ];
     creditSplits := []; creditHierarchyFile := "";
     payoutTiers := [ tier 0 (Some 1000000%Q) 10 ];
     customRules := [];
     kpiConfig :=
       {| qualificationFields := [];
          adjustmentFields :=
            [ {| kpi_name := "Org"; kpi_sourceField := "Sales Organization";
                 dataType := "String"; evaluationLevel := "Per Record";
                 aggregation := "NotApplicable" |} ];
          exclusionFields :=
            [ {| kpi_name := "Status"; kpi_sourceField := "Delivery Status";
                 dataType := "String"; evaluationLevel := "Per Record";
                 aggregation := "NotApplicable" |} ] |} |}.

Definition cancelledRecord : RecordObj :=
  [ ("Sales Employee", VStr "A"); ("Net Value", VStr "1000");
    ("Document Date", VStr "2024-12-05"); ("Sales Organization", VStr "1810");
    ("Delivery Status", VStr "Cancelled"); ("recordInternalId", VStr "rec_0") ].

(** A record of cancelled status whose amount is not a number. *)
Definition unpricedRecord : RecordObj :=
  [ ("Sales Employee", VStr "A"); ("Net Value", VStr "abc");
    ("Document Date", VStr "2024-12-05"); ("Sales Organization", VStr "1810");
    ("Delivery Status", VStr "Cancelled"); ("recordInternalId", VStr "rec_0") ].

Definition deliveredRecord : RecordObj :=
  [ ("Sales Employee", VStr "A"); ("Net Value", VStr "1000");
    ("Document Date", VStr "2024-12-05"); ("Sales Organization", VStr "1810");
    ("Delivery Status", VStr "Fully Delivered"); ("recordInternalId", VStr "rec_0") ].


(** The records of agent A in [splitFiles], as the grouping stage leaves
    them. *)
Definition recordsOfA : list RecordObj :=
  [ agentRecord "A" "1000" "2024-12-05" "rec_0";
    agentRecord "A" "2000" "2024-12-06" "rec_1" ].

Definition l2Split : CreditSplit :=
  {| split_id := "s1"; role := "L2"; percentage := 20 |}.

(** Time value of 2024-12-31T00:00:00Z. *)
Definition endOf2024 : Z := 1735603200000.

Definition emptyLoop : RecordLoop :=
  {| processedRecords := []; baseTotal := Dec.zero; adjustedTotal := Dec.zero;
     recordEntries := [] |}.

Definition emptyState (scheme : Scheme) : RunState :=
  {| st_rules := qualificationRules scheme;
     st_fields := qualificationFields (kpiConfig scheme);
     st_payouts := []; st_ruleHitLogs := []; st_credit := []; st_raw := [] |}.

(** Hierarchy rows: [a1] reports to M all of 2024; A1 reports to M during
    the first quarter of 2024 only. *)
Definition hierarchyRow (agent manager reportsFrom reportsTo : string) : CsvRow :=
  [ ("Sales Employee", agent); ("Reports To Person", manager);
    ("Reports From", reportsFrom); ("Reports To", reportsTo) ].

End Examples.


(** ** Notions used by the further properties *)

Module Extra.
Import Js Engine JsDate Helpers Run.

Local Open Scope string_scope.

(** The header cells of a CSV text: the trimmed cells of its first line. *)
Definition headerCells (csvString : string) : list string :=
  match split newline (trim csvString) with
  | [] => []
  | headerLine :: _ => List.map trim (split comma headerLine)
  end.

(** The lines after the header line. *)
Definition dataLines (csvString : string) : list string :=
  match split newline (trim csvString) with
  | [] => []
  | _ :: lines => lines
  end.

(** The trimmed cells of a line. *)
Definition cells (line : string) : list string :=
  List.map trim (split comma line).

(** The parts joined by a separator character, as [parts.join(sep)]. *)
Fixpoint joinWith (sep : ascii) (parts : list string) : string :=
  match parts with
  | [] => ""
  | part :: rest =>
      match rest with
      | [] => part
      | _ :: _ => part ++ String sep (joinWith sep rest)
      end
  end.

(** A table written as CSV text: the header line and one line for each
    row, cells joined by commas, lines by line feeds. *)
Definition renderCSV (header : list string) (rows : list (list string)) : string :=
  joinWith newline (List.map (joinWith comma) (header :: rows)).

(** A cell that the format carries as it is: not empty, no white space
    around it, no comma and no line feed in it. *)
Definition plainCell (cell : string) : Prop :=
  cell <> ""
  /\ trim cell = cell
  /\ forall c, In c (list_ascii_of_string cell) -> c <> comma /\ c <> newline.

(** The string is empty or starts with a character that is not white
    space; both ends of a non-empty string are such. *)
Definition firstOk (s : string) : Prop :=
  match s with
  | String c _ => is_ws c = false
  | EmptyString => True
  end.

Definition okEnds (s : string) : Prop :=
  s <> "" /\ firstOk s /\ firstOk (rev_string s).

(** [rowObject[header] = value] *)
Definition setCell (rowObject : CsvRow) (hv : string * string) : CsvRow :=
  set rowObject (fst hv) (snd hv).

(** The step of the fold that collects the array-index keys of an object
    in ascending order, and the test for such a key. *)
Definition indexStep {A : Type} (acc : list (Z * (string * A)))
    (e : string * A) : list (Z * (string * A)) :=
  match array_index (fst e) with
  | Some n => insert_index n e acc
  | None => acc
  end.

Definition hasIndex {A : Type} (e : string * A) : bool :=
  match array_index (fst e) with
  | Some _ => true
  | None => false
  end.

(** [date.getUTCFullYear()] of a time value. *)
Definition getUTCFullYear (t : Z) : Z :=
  fst (fst (civil_from_days (t / msPerDay))).

(** The agent id a record is grouped under; none when the agent field is
    absent or empty. *)
Definition agentOf (agentField : string) (record : CsvRow) : option string :=
  match get record agentField with
  | Some a => if String.eqb a "" then None else Some a
  | None => None
  end.

Definition isAgent (agentField agentId : string) (record : CsvRow) : bool :=
  match agentOf agentField record with
  | Some a => String.eqb a agentId
  | None => false
  end.

Definition hasNoAgent (agentField : string) (record : CsvRow) : bool :=
  match agentOf agentField record with
  | Some _ => false
  | None => true
  end.

(** [agentData[agentId].records], empty for an agent without entry. *)
Definition recordsOf (agentData : Obj (list RecordObj)) (agentId : string)
    : list RecordObj :=
  match get agentData agentId with
  | Some recs => recs
  | None => []
  end.

(** A grouped record is a copy of a row: the same value under every key
    but [recordInternalId], which is the row's own when the row has one. *)
Definition isCopyOf (copy : RecordObj) (record : CsvRow) : Prop :=
  (forall key, key <> "recordInternalId" -> prop copy key = field record key)
  /\ (truthy (field record "recordInternalId") = true ->
      prop copy "recordInternalId" = field record "recordInternalId").

Section WithHost.
Context {host : Host}.

(** The transaction date of a base record. *)
Definition transactionDate (scheme : Scheme) (record : CsvRow) : option Z :=
  parseDate (field record (transactionDateField (baseMapping scheme))).

(** The record is dated, from the effective date (when the scheme has
    one) up to the run date, both included. *)
Definition inWindow (scheme : Scheme) (effectiveFromDate : option Z)
    (runAsOfDate : Z) (record : CsvRow) : bool :=
  match transactionDate scheme record with
  | None => false
  | Some d =>
      match effectiveFromDate with
      | Some eff => (eff <=? d)%Z
      | None => true
      end && (d <=? runAsOfDate)%Z
  end.

Definition undated (scheme : Scheme) (record : CsvRow) : bool :=
  match transactionDate scheme record with
  | None => true
  | Some _ => false
  end.

(** The record as the grouping stores it, with [recordInternalId] filled
    in, and the number of random draws after it. *)
Definition stored (record : CsvRow) (draws : nat) : CsvRow * nat :=
  if truthy (field record "recordInternalId") then (record, draws)
  else (set record "recordInternalId" (random_id draws), S draws).

(** The person [k] steps up the reporting chain from an agent, each step
    by the manager valid on the run date. *)
Fixpoint managerAt (hierarchyData : list CsvRow) (runAsOfDate : Z)
    (agentId : string) (k : nat) : option JsVal :=
  match k with
  | O => Some (VStr agentId)
  | S k' =>
      match managerAt hierarchyData runAsOfDate agentId k' with
      | Some person =>
          option_map managerId (findManager hierarchyData person runAsOfDate)
      | None => None
      end
  end.

(** The lookup state of the split loop is a point of the reporting chain
    of the agent, or the mark of a failed lookup. *)
Definition onChain (hierarchyData : list CsvRow) (runAsOfDate : Z)
    (agentId : string) (st : SplitLoop) : Prop :=
  (1 <= level st)%Z
  /\ (currentAgentForLookup st = VNull
      \/ managerAt hierarchyData runAsOfDate agentId (Z.to_nat (level st - 1))
         = Some (currentAgentForLookup st)).

(** A distribution entry is backed by a declared split: it comes from the
    agent, carries the role, percentage and amount of the split, and goes
    to the person [n - 1] steps up the chain for role [Ln]. *)
Definition backedBySplit (scheme : Scheme) (hierarchyData : list CsvRow)
    (runAsOfDate : Z) (agentId : string) (basePayout : Decimal)
    (entry : LogEntry) : Prop :=
  match entry with
  | LogDistribution fromAgent toAgent lvl pct amount _ _ =>
      fromAgent = agentId
      /\ exists splitRule n,
           In splitRule (creditSplits scheme)
           /\ lvl = role splitRule
           /\ pct = percentage splitRule
           /\ amount = DecFormat.toFixed2 (creditAmount basePayout splitRule)
           /\ Dec.gt (creditAmount basePayout splitRule) (Dec.of_Z 0) = true
           /\ parseInt (substring1 (role splitRule)) = Some n
           /\ (1 <= n)%Z
           /\ managerAt hierarchyData runAsOfDate agentId (Z.to_nat (n - 1))
              = Some toAgent
  | _ => True
  end.

(** The warning logged for a record without parseable date. *)
Definition dateWarning (scheme : Scheme) (record : CsvRow) : LogEntry :=
  LogUnparseableDate (recordIdOrJson record)
    (get record (transactionDateField (baseMapping scheme)))
    (agentOrUnknown record (agentField (baseMapping scheme))).

End WithHost.

(** No key of [agentData] is a name inherited from [Object.prototype]. *)
Definition ownKeys (agentData : Obj (list RecordObj)) : Prop :=
  forall a recs, get agentData a = Some recs -> inherited a = false.

(** The state the agent loop starts from, and the result returned from
    the state it ends in. *)
Definition initialState (scheme : Scheme) (entries : list LogEntry) : RunState :=
  {| st_rules := qualificationRules scheme;
     st_fields := qualificationFields (kpiConfig scheme);
     st_payouts := []; st_ruleHitLogs := []; st_credit := [];
     st_raw := entries |}.

Definition resultOf (st : RunState) : RunResult :=
  {| agentPayouts := st_payouts st;
     ruleHitLogs := st_ruleHitLogs st;
     creditDistributions := st_credit st;
     rawRecordLevelData := st_raw st |}.


(** Every qualification rule that names a declared field names a field
    evaluated at agent level. *)
Definition agentLevelOnly (rules : list Rule) (fields : list KpiField) : Prop :=
  forall rule fieldDef,
    In rule rules ->
    findField fields (rule_field rule) = Some fieldDef ->
    evaluationLevel fieldDef = "Agent".

(** The entries that record a dropped record: a data error or an
    exclusion. *)
Definition isDropEntry (entry : LogEntry) : bool :=
  match entry with
  | LogDataError _ _ _ => true
  | LogExclusion _ _ _ _ _ _ _ => true
  | _ => false
  end.

(** [record.adjustedAmount] of a processed record. *)
Definition adjustedAmountOf (record : RecordObj) : Decimal :=
  match prop record "adjustedAmount" with
  | VDec d => d
  | _ => Dec.zero
  end.

Definition addAdjusted (sum : Decimal) (record : RecordObj) : Decimal :=
  Dec.add sum (adjustedAmountOf record).

(** The keys of an object. *)
Definition keys {A : Type} (o : Obj A) : list string := List.map fst o.

(** The warning logged for a record without agent id. *)
Definition agentWarning (agentField : string) (record : CsvRow) : LogEntry :=
  LogMissingAgent (recordIdOrNA record) agentField.

End Extra.

(** ** Further concrete inputs, run with the concrete host *)

Module ExtraExamples.
Import Js Engine Helpers Run Extra Examples IsoHost.

Local Open Scope string_scope.

(** A base file with two sales of agent A and one of agent B. *)
Definition salesText : string :=
  lines [ "Sales Employee,Net Value,Document Date";
          "A,1000,2024-12-05";
          "B,400,2024-12-06";
          "A,2000,2024-12-07" ].

Definition firstSale : CsvRow :=
  [ ("Sales Employee", "A"); ("Net Value", "1000");
    ("Document Date", "2024-12-05") ].

Definition salesFiles : Obj string := [ ("SCH1.csv", salesText) ].

(** A table of two columns and two rows. *)
Definition tableHeader : list string := [ "Sales Employee"; "Net Value" ].

Definition tableRows : list (list string) := [ [ "A"; "1000" ]; [ "B"; "400" ] ].

(** Agents qualify on total sales of at least 1500: an agent-level rule
    on the Sum of the amount field. *)
Definition salesRule : Rule :=
  {| rule_id := "q1"; rule_field := "Sales"; rule_operator := ">=";
     rule_value := VStr "1500" |}.

Definition salesField : KpiField :=
  {| kpi_name := "Sales"; kpi_sourceField := "Net Value"; dataType := "Number";
     evaluationLevel := "Agent"; aggregation := "Sum" |}.

Definition sumScheme : Scheme :=
  {| effectiveFrom := "2024-01-01"; quotaAmount := 0; baseMapping := mapping;
     qualificationRules := [ salesRule ];
     adjustmentRules := []; exclusionRules := [];
     creditSplits := []; creditHierarchyFile := "";
     payoutTiers := twoTiers; customRules := [];
     kpiConfig :=
       {| qualificationFields := [ salesField ];
          adjustmentFields := []; exclusionFields := [] |} |}.

Definition noResult : RunResult :=
  {| agentPayouts := []; ruleHitLogs := []; creditDistributions := [];
     rawRecordLevelData := [] |}.

(** The result of running [sumScheme] on [salesFiles] as of 2024-12-31. *)
Definition sumRun : RunResult :=
  Eval vm_compute in
    match runScheme sumScheme salesFiles "2024-12-31" with
    | inr result => result
    | inl _ => noResult
    end.

(** The rows of [salesText] grouped by agent. *)
Definition groupedSales : Obj (list RecordObj) * list LogEntry :=
  Eval vm_compute in
    match groupByAgent "Sales Employee" (parseCSV salesText) [] O [] with
    | inr grouped => grouped
    | inl _ => ([], [])
    end.

(** The distribution of 20 percent of a payout of 300 from A to A's
    manager M. *)
Definition shareOfM : LogEntry :=
  LogDistribution "A" (VStr "M") "L2" 20 "60.00" "MH_DEC24.csv"
    (Some (VStr "2024-01-01", VStr "2024-12-31")).

End ExtraExamples.

(** * Properties *)

(** ** Facts about rounding *)

Module RoundingFacts.
Import Rounding.


Lemma ilog10_aux_spec (fuel : nat) : forall n,
  1 <= n < 2 ^ Z.of_nat fuel ->
  0 <= ilog10_aux fuel n /\
  10 ^ ilog10_aux fuel n <= n < 10 ^ (ilog10_aux fuel n + 1).
Proof.
  induction fuel as [|f IH]; intros n Hn.
  - simpl in Hn. lia.
  - cbn [ilog10_aux]. destruct (Z.ltb_spec n 10) as [Hlt|Hge].
    + simpl. lia.
    + assert (Hdiv : 1 <= n / 10 < 2 ^ Z.of_nat f).
      { split.
        - apply Z.div_le_lower_bound; lia.
        - apply Z.div_lt_upper_bound; [lia|].
          rewrite Nat2Z.inj_succ, Z.pow_succ_r in Hn by lia. lia. }
      destruct (IH _ Hdiv) as (H0 & Hlo & Hhi).
      set (e := ilog10_aux f (n / 10)) in *.
      split; [lia|].
      replace (1 + e + 1) with (Z.succ (e + 1)) by lia.
      replace (1 + e) with (Z.succ e) by lia.
      rewrite !Z.pow_succ_r by lia.
      pose proof (Z.div_mod n 10 ltac:(lia)).
      pose proof (Z.mod_pos_bound n 10 ltac:(lia)).
      lia.
Qed.

Lemma ilog10_spec n : 1 <= n ->
  0 <= ilog10 n /\ 10 ^ ilog10 n <= n < 10 ^ (ilog10 n + 1).
Proof.
  intros Hn. unfold ilog10. apply ilog10_aux_spec.
  split; [lia|].
  rewrite Nat2Z.inj_succ, Z2Nat.id by apply Z.log2_nonneg.
  apply Z.log2_spec. lia.
Qed.

Lemma pow10_pos k : (0 < pow10 k)%Q.
Proof. apply Qpower_0_lt. reflexivity. Qed.

Lemma pow10_add a b : (pow10 (a + b) == pow10 a * pow10 b)%Q.
Proof. apply Qpower_plus. discriminate. Qed.

Lemma pow10_lt a b : a < b -> (pow10 a < pow10 b)%Q.
Proof. intros H. apply Qpower_lt_compat_l; [exact H|reflexivity]. Qed.

Lemma pow10_le a b : a <= b -> (pow10 a <= pow10 b)%Q.
Proof. intros H. apply Qpower_le_compat_l; [exact H|discriminate]. Qed.

Lemma pow10_Z k : 0 <= k -> (pow10 k == inject_Z (10 ^ k))%Q.
Proof. intros H. unfold pow10. rewrite Zpower_Qpower by exact H. reflexivity. Qed.

Lemma pow10_inv k : (pow10 k * pow10 (- k) == 1)%Q.
Proof. rewrite <- pow10_add. replace (k + - k) with 0 by lia. reflexivity. Qed.

Lemma pow10_lt_inv a b : (pow10 a < pow10 b)%Q -> a < b.
Proof. intros H. apply (Qpower_lt_compat_l_inv (10#1)); [exact H|reflexivity]. Qed.

Lemma Qabs_num_den q : (Qabs q * inject_Z (Zpos (Qden q)) == inject_Z (Z.abs (Qnum q)))%Q.
Proof.
  destruct q as [n d]. unfold Qabs, Qeq, Qmult, inject_Z. simpl. lia.
Qed.

Lemma Qnum_abs_pos q : ~ (q == 0)%Q -> 1 <= Z.abs (Qnum q).
Proof.
  intros H. destruct q as [n d]. unfold Qeq in H. simpl in *. lia.
Qed.

Lemma mag_spec q : ~ (q == 0)%Q ->
  (pow10 (mag q) <= Qabs q /\ Qabs q < pow10 (mag q + 1))%Q.
Proof.
  intros Hq.
  pose proof (Qnum_abs_pos q Hq) as Hn.
  destruct (ilog10_spec _ Hn) as (Hn0 & Hnlo & Hnhi).
  destruct (ilog10_spec (Zpos (Qden q)) ltac:(lia)) as (Hd0 & Hdlo & Hdhi).
  set (ln := ilog10 (Z.abs (Qnum q))) in *.
  set (ld := ilog10 (Zpos (Qden q))) in *.
  pose proof (Qabs_num_den q) as HA.
  set (A := inject_Z (Z.abs (Qnum q))) in *.
  set (D := inject_Z (Zpos (Qden q))) in *.
  assert (HAlo : (pow10 ln <= A)%Q).
  { rewrite pow10_Z by lia. unfold A. rewrite <- Zle_Qle. exact Hnlo. }
  assert (HAhi : (A < pow10 (ln + 1))%Q).
  { rewrite pow10_Z by lia. unfold A. rewrite <- Zlt_Qlt. exact Hnhi. }
  assert (HDlo : (pow10 ld <= D)%Q).
  { rewrite pow10_Z by lia. unfold D. rewrite <- Zle_Qle. exact Hdlo. }
  assert (HDhi : (D < pow10 (ld + 1))%Q).
  { rewrite pow10_Z by lia. unfold D. rewrite <- Zlt_Qlt. exact Hdhi. }
  pose proof (Qabs_nonneg q) as Habs.
  assert (E1 : (pow10 (ln - ld + 1) * pow10 ld == pow10 (ln + 1))%Q).
  { rewrite <- pow10_add. replace (ln - ld + 1 + ld) with (ln + 1) by lia. reflexivity. }
  assert (E2 : (pow10 (ln - ld - 1) * pow10 (ld + 1) == pow10 ln)%Q).
  { rewrite <- pow10_add. replace (ln - ld - 1 + (ld + 1)) with ln by lia. reflexivity. }
  pose proof (pow10_pos ld) as Pld.
  pose proof (pow10_pos (ln - ld + 1)) as P1.
  pose proof (pow10_pos (ln - ld - 1)) as P2.
  unfold mag. fold ln ld.
  destruct (Qle_bool (pow10 (ln - ld)) (Qabs q)) eqn:Hb.
  - apply Qle_bool_iff in Hb. split; [exact Hb|].
    destruct (Qlt_le_dec (Qabs q) (pow10 (ln - ld + 1))) as [H|H]; [exact H|].
    exfalso.
    assert ((pow10 (ln - ld + 1) * pow10 ld <= Qabs q * D)%Q) by nra.
    lra.
  - assert (Hlt : (Qabs q < pow10 (ln - ld))%Q).
    { destruct (Qlt_le_dec (Qabs q) (pow10 (ln - ld))) as [H|H]; [exact H|].
      apply Qle_bool_iff in H. congruence. }
    replace (ln - ld - 1 + 1) with (ln - ld) by lia.
    split; [|exact Hlt].
    destruct (Qlt_le_dec (Qabs q) (pow10 (ln - ld - 1))) as [H|H]; [|exact H].
    exfalso.
    assert ((Qabs q * D < pow10 (ln - ld - 1) * pow10 (ld + 1))%Q) by nra.
    lra.
Qed.

Lemma mag_unique q e :
  (pow10 e <= Qabs q)%Q -> (Qabs q < pow10 (e + 1))%Q -> mag q = e.
Proof.
  intros Hlo Hhi.
  assert (Hq : ~ (q == 0)%Q).
  { intros H0. rewrite H0 in Hlo. pose proof (pow10_pos e). simpl in Hlo. lra. }
  destruct (mag_spec q Hq) as [Mlo Mhi].
  assert (e < mag q + 1).
  { apply pow10_lt_inv. lra. }
  assert (mag q < e + 1).
  { apply pow10_lt_inv. lra. }
  lia.
Qed.

Lemma mag_mono x y : (0 < x)%Q -> (x <= y)%Q -> mag x <= mag y.
Proof.
  intros Hx Hxy.
  assert (Hx0 : ~ (x == 0)%Q) by (intros H0; lra).
  assert (Hy0 : ~ (y == 0)%Q) by (intros H0; lra).
  destruct (mag_spec x Hx0) as [A B]. destruct (mag_spec y Hy0) as [C D].
  rewrite Qabs_pos in A, B by lra. rewrite Qabs_pos in C, D by lra.
  assert (mag x < mag y + 1) by (apply pow10_lt_inv; lra). lia.
Qed.

Lemma mag_opp x : mag (- x) = mag x.
Proof.
  unfold mag. destruct x as [n d]. simpl Qnum. simpl Qden.
  rewrite Z.abs_opp. replace (Qabs (- (n # d))) with (Qabs (n # d)); [reflexivity|].
  unfold Qabs, Qopp. simpl. rewrite Z.abs_opp. reflexivity.
Qed.

Lemma Qeq_bool_false x : ~ (x == 0)%Q -> Qeq_bool x 0 = false.
Proof.
  intros H. destruct (Qeq_bool x 0) eqn:E; [|reflexivity].
  apply Qeq_bool_iff in E. contradiction.
Qed.

Lemma Qeq_bool_true x : (x == 0)%Q -> Qeq_bool x 0 = true.
Proof. intros H. apply Qeq_bool_iff. exact H. Qed.

Lemma mag_compat x y : (x == y)%Q -> ~ (x == 0)%Q -> mag x = mag y.
Proof.
  intros E Hx. symmetry. apply mag_unique; rewrite <- E; apply mag_spec; exact Hx.
Qed.

Lemma half_up_nonneg x : (0 <= x)%Q -> half_up x = Qfloor (x + (1 # 2)).
Proof.
  intros H. unfold half_up. apply Qle_bool_iff in H. rewrite H. reflexivity.
Qed.

Lemma half_up_neg x : (x < 0)%Q -> half_up x = - Qfloor (- x + (1 # 2)).
Proof.
  intros H. unfold half_up.
  destruct (Qle_bool 0 x) eqn:E; [|reflexivity].
  apply Qle_bool_iff in E. lra.
Qed.

Lemma Qfloor_compat x y : (x == y)%Q -> Qfloor x = Qfloor y.
Proof. intros E. rewrite E. reflexivity. Qed.

Lemma half_up_compat x y : (x == y)%Q -> half_up x = half_up y.
Proof.
  intros E. destruct (Qlt_le_dec x 0) as [H|H].
  - rewrite !half_up_neg by lra. f_equal. apply Qfloor_compat. rewrite E. reflexivity.
  - rewrite !half_up_nonneg by lra. apply Qfloor_compat. rewrite E. reflexivity.
Qed.

Lemma to_sd_zero sd x : (x == 0)%Q -> to_sd sd x = 0%Q.
Proof. intros H. unfold to_sd. rewrite Qeq_bool_true by exact H. reflexivity. Qed.

Lemma to_sd_compat sd x y : (x == y)%Q -> to_sd sd x = to_sd sd y.
Proof.
  intros E. destruct (Qeq_dec x 0) as [H0|H0].
  - rewrite !to_sd_zero; [reflexivity| rewrite <- E; exact H0 | exact H0].
  - unfold to_sd. rewrite !Qeq_bool_false; [| rewrite <- E; exact H0 | exact H0].
    cbv zeta. apply Qred_complete.
    rewrite <- (mag_compat x y E H0).
    rewrite (half_up_compat (y * pow10 (sd - 1 - mag x)) (x * pow10 (sd - 1 - mag x))).
    + reflexivity.
    + apply Qmult_comp; [symmetry; exact E | reflexivity].
Qed.

Lemma to_sd_pos_eq sd x : (0 < x)%Q ->
  (to_sd sd x ==
   inject_Z (Qfloor (x * pow10 (sd - 1 - mag x) + (1 # 2))) * pow10 (- (sd - 1 - mag x)))%Q.
Proof.
  intros Hx. unfold to_sd. rewrite Qeq_bool_false by (intros H; lra).
  cbv zeta. rewrite Qred_correct. rewrite half_up_nonneg; [reflexivity|].
  pose proof (pow10_pos (sd - 1 - mag x)). nra.
Qed.

Lemma to_sd_opp sd x : (to_sd sd (- x) == - to_sd sd x)%Q.
Proof.
  destruct (Qeq_dec x 0) as [H0|H0].
  - rewrite !to_sd_zero; [reflexivity| exact H0 | lra].
  - unfold to_sd. rewrite !Qeq_bool_false; [| exact H0 | intros H; apply H0; lra].
    cbv zeta. rewrite !Qred_correct, mag_opp.
    set (p := pow10 (sd - 1 - mag x)).
    assert (Hp : (0 < p)%Q) by apply pow10_pos.
    assert (Hh : half_up (- x * p) = - half_up (x * p)).
    { destruct (Qlt_le_dec x 0) as [Hn|Hn].
      - rewrite (half_up_nonneg (- x * p)) by nra.
        rewrite (half_up_neg (x * p)) by nra.
        rewrite Z.opp_involutive. apply Qfloor_compat. lra.
      - assert (0 < x)%Q by (destruct (Qeq_dec x 0); [contradiction|lra]).
        rewrite (half_up_neg (- x * p)) by nra.
        rewrite (half_up_nonneg (x * p)) by nra.
        f_equal. apply Qfloor_compat. lra. }
    rewrite Hh, inject_Z_opp. lra.
Qed.

Lemma Qfloor_ge_Z (z : Z) x : (inject_Z z <= x)%Q -> z <= Qfloor x.
Proof.
  intros H. rewrite <- (Qfloor_Z z). apply Qfloor_resp_le. exact H.
Qed.

Lemma Qfloor_le_Z (z : Z) x : (x < inject_Z z + 1)%Q -> Qfloor x <= z.
Proof.
  intros H. pose proof (Qfloor_le x) as Hf.
  assert (Hlt : (inject_Z (Qfloor x) < inject_Z (z + 1))%Q).
  { rewrite inject_Z_plus. change (inject_Z 1) with 1%Q. lra. }
  rewrite <- Zlt_Qlt in Hlt. lia.
Qed.

Lemma to_sd_bounds sd x : 1 <= sd -> (0 < x)%Q ->
  (pow10 (mag x) <= to_sd sd x /\ to_sd sd x <= pow10 (mag x + 1))%Q.
Proof.
  intros Hsd Hx.
  assert (Hx0 : ~ (x == 0)%Q) by (intros H; lra).
  destruct (mag_spec x Hx0) as [Mlo Mhi].
  rewrite Qabs_pos in Mlo, Mhi by lra.
  rewrite (to_sd_pos_eq sd x Hx).
  set (k := sd - 1 - mag x).
  pose proof (pow10_pos k) as Pk. pose proof (pow10_pos (- k)) as Pnk.
  pose proof (pow10_inv k) as Pinv.
  assert (E1 : (pow10 (mag x) * pow10 k == inject_Z (10 ^ (sd - 1)))%Q).
  { rewrite <- pow10_add. replace (mag x + k) with (sd - 1) by (unfold k; lia).
    apply pow10_Z. lia. }
  assert (E2 : (pow10 (mag x + 1) * pow10 k == inject_Z (10 ^ sd))%Q).
  { rewrite <- pow10_add. replace (mag x + 1 + k) with sd by (unfold k; lia).
    apply pow10_Z. lia. }
  set (F := Qfloor (x * pow10 k + (1 # 2))).
  assert (HF1 : 10 ^ (sd - 1) <= F).
  { apply Qfloor_ge_Z. nra. }
  assert (HF2 : F <= 10 ^ sd).
  { apply Qfloor_le_Z. nra. }
  rewrite Zle_Qle in HF1, HF2.
  split.
  - assert ((pow10 (mag x) * pow10 k) * pow10 (- k) <= inject_Z F * pow10 (- k))%Q by nra.
    nra.
  - assert (inject_Z F * pow10 (- k) <= (pow10 (mag x + 1) * pow10 k) * pow10 (- k))%Q by nra.
    nra.
Qed.

Lemma to_sd_pos sd x : 1 <= sd -> (0 < x)%Q -> (0 < to_sd sd x)%Q.
Proof.
  intros Hsd Hx. destruct (to_sd_bounds sd x Hsd Hx) as [A _].
  pose proof (pow10_pos (mag x)). lra.
Qed.

Lemma to_sd_le_pos sd x y : 1 <= sd -> (0 < x)%Q -> (x <= y)%Q ->
  (to_sd sd x <= to_sd sd y)%Q.
Proof.
  intros Hsd Hx Hxy.
  assert (Hy : (0 < y)%Q) by lra.
  pose proof (mag_mono x y Hx Hxy) as Hm.
  destruct (Z.eq_dec (mag x) (mag y)) as [E|NE].
  - rewrite (to_sd_pos_eq sd x Hx), (to_sd_pos_eq sd y Hy), E.
    set (k := sd - 1 - mag y).
    pose proof (pow10_pos k) as Pk. pose proof (pow10_pos (- k)) as Pnk.
    assert (HF : Qfloor (x * pow10 k + (1 # 2)) <= Qfloor (y * pow10 k + (1 # 2))).
    { apply Qfloor_resp_le. nra. }
    rewrite Zle_Qle in HF. nra.
  - destruct (to_sd_bounds sd x Hsd Hx) as [_ A].
    destruct (to_sd_bounds sd y Hsd Hy) as [B _].
    pose proof (pow10_le (mag x + 1) (mag y) ltac:(lia)). lra.
Qed.

Lemma to_sd_le sd x y : 1 <= sd -> (x <= y)%Q -> (to_sd sd x <= to_sd sd y)%Q.
Proof.
  intros Hsd Hxy.
  destruct (Qlt_le_dec 0 x) as [Hx|Hx].
  - apply to_sd_le_pos; assumption.
  - destruct (Qlt_le_dec 0 y) as [Hy|Hy].
    + (* x <= 0 < y *)
      pose proof (to_sd_pos sd y Hsd Hy).
      destruct (Qeq_dec x 0) as [E|NE].
      * rewrite (to_sd_zero sd x E). lra.
      * assert (Hnx : (0 < - x)%Q) by lra.
        pose proof (to_sd_pos sd (- x) Hsd Hnx) as P.
        rewrite to_sd_opp in P. lra.
    + (* x <= y <= 0 *)
      destruct (Qeq_dec y 0) as [E|NE].
      * rewrite (to_sd_zero sd y E).
        destruct (Qeq_dec x 0) as [E'|NE'].
        -- rewrite (to_sd_zero sd x E'). lra.
        -- assert (Hnx : (0 < - x)%Q) by lra.
           pose proof (to_sd_pos sd (- x) Hsd Hnx) as P.
           rewrite to_sd_opp in P. lra.
      * assert (Hny : (0 < - y)%Q) by lra.
        pose proof (to_sd_le_pos sd (- y) (- x) Hsd Hny ltac:(lra)) as P.
        rewrite !to_sd_opp in P. lra.
Qed.

Lemma Qred_idem x : Qred (Qred x) = Qred x.
Proof. apply Qred_complete, Qred_correct. Qed.

Lemma to_sd_canon sd x : Qred (to_sd sd x) = to_sd sd x.
Proof.
  unfold to_sd. destruct (Qeq_bool x 0); [reflexivity|]. cbv zeta. apply Qred_idem.
Qed.

Lemma Qfloor_half (z : Z) : Qfloor (inject_Z z + (1 # 2)) = z.
Proof.
  apply Z.le_antisymm.
  - apply Qfloor_le_Z. lra.
  - apply Qfloor_ge_Z. lra.
Qed.

Lemma to_sd_idem_pos sd x : 1 <= sd -> (0 < x)%Q ->
  (to_sd sd (to_sd sd x) == to_sd sd x)%Q.
Proof.
  intros Hsd Hx.
  assert (Hx0 : ~ (x == 0)%Q) by (intros H; lra).
  destruct (mag_spec x Hx0) as [Mlo Mhi].
  rewrite Qabs_pos in Mlo, Mhi by lra.
  pose proof (to_sd_pos sd x Hsd Hx) as Hv.
  pose proof (to_sd_pos_eq sd x Hx) as Ev.
  set (k := sd - 1 - mag x) in *.
  set (F := Qfloor (x * pow10 k + (1 # 2))) in *.
  set (v := to_sd sd x) in *.
  pose proof (pow10_pos k) as Pk. pose proof (pow10_pos (- k)) as Pnk.
  pose proof (pow10_inv k) as Pinv.
  assert (E1 : (pow10 (mag x) * pow10 k == inject_Z (10 ^ (sd - 1)))%Q).
  { rewrite <- pow10_add. replace (mag x + k) with (sd - 1) by (unfold k; lia).
    apply pow10_Z. lia. }
  assert (E2 : (pow10 (mag x + 1) * pow10 k == inject_Z (10 ^ sd))%Q).
  { rewrite <- pow10_add. replace (mag x + 1 + k) with sd by (unfold k; lia).
    apply pow10_Z. lia. }
  assert (HF1 : 10 ^ (sd - 1) <= F) by (apply Qfloor_ge_Z; nra).
  assert (HF2 : F <= 10 ^ sd) by (apply Qfloor_le_Z; nra).
  assert (EvF : (v * pow10 k == inject_Z F)%Q).
  { rewrite Ev. rewrite <- Qmult_assoc, (Qmult_comm (pow10 (- k))), Pinv. ring. }
  destruct (Z.eq_dec F (10 ^ sd)) as [EF|NF].
  - (* the carry case: v = 10^(mag x + 1) *)
    assert (Evp : (v == pow10 (mag x + 1))%Q).
    { rewrite EF in EvF. rewrite <- E2 in EvF.
      apply (Qmult_inj_r _ _ (pow10 k)); [lra|exact EvF]. }
    assert (Mv : mag v = mag x + 1).
    { apply mag_unique; rewrite Qabs_pos by lra; rewrite Evp.
      - apply Qle_refl.
      - apply pow10_lt. lia. }
    rewrite (to_sd_pos_eq sd v Hv), Mv.
    replace (sd - 1 - (mag x + 1)) with (k - 1) by (unfold k; lia).
    assert (E3 : (v * pow10 (k - 1) == inject_Z (10 ^ (sd - 1)))%Q).
    { rewrite Evp, <- pow10_add. replace (mag x + 1 + (k - 1)) with (sd - 1) by (unfold k; lia).
      apply pow10_Z. lia. }
    rewrite (Qfloor_compat _ (inject_Z (10 ^ (sd - 1)) + (1 # 2))) by (rewrite E3; reflexivity).
    rewrite Qfloor_half, <- E3, <- Qmult_assoc, pow10_inv. ring.
  - assert (HF3 : F < 10 ^ sd) by lia.
    rewrite Zlt_Qlt in HF3. rewrite Zle_Qle in HF1.
    assert (Mv : mag v = mag x).
    { apply mag_unique; rewrite Qabs_pos by lra.
      - assert ((pow10 (mag x) * pow10 k) * pow10 (- k) <= (v * pow10 k) * pow10 (- k))%Q by nra.
        nra.
      - assert ((v * pow10 k) * pow10 (- k) < (pow10 (mag x + 1) * pow10 k) * pow10 (- k))%Q by nra.
        nra. }
    rewrite (to_sd_pos_eq sd v Hv), Mv. fold k.
    rewrite (Qfloor_compat _ (inject_Z F + (1 # 2))) by (rewrite EvF; reflexivity).
    rewrite Qfloor_half. symmetry. exact Ev.
Qed.

Lemma to_sd_idem sd x : 1 <= sd -> to_sd sd (to_sd sd x) = to_sd sd x.
Proof.
  intros Hsd.
  transitivity (Qred (to_sd sd (to_sd sd x))); [symmetry; apply to_sd_canon|].
  transitivity (Qred (to_sd sd x)); [|apply to_sd_canon].
  apply Qred_complete.
  destruct (Qlt_le_dec 0 x) as [Hx|Hx].
  - apply to_sd_idem_pos; assumption.
  - destruct (Qeq_dec x 0) as [E|NE].
    + rewrite (to_sd_zero sd x E). reflexivity.
    + assert (Hnx : (0 < - x)%Q) by lra.
      pose proof (to_sd_idem_pos sd (- x) Hsd Hnx) as P.
      pose proof (to_sd_opp sd x) as O.
      rewrite (to_sd_compat sd (to_sd sd (- x)) (- to_sd sd x) O) in P.
      rewrite to_sd_opp in P. lra.
Qed.

End RoundingFacts.

(** ** Facts about [Decimal] arithmetic *)

Module DecFacts.
Import Rounding RoundingFacts DecOrder.

Ltac dsimpl :=
  unfold le, rounded, Dec.zero, Dec.of_Z in *; simpl in *.

Lemma precision_pos : 1 <= precision.
Proof. unfold precision. lia. Qed.

Lemma finalise_le x y : (x <= y)%Q -> (finalise x <= finalise y)%Q.
Proof. apply to_sd_le, precision_pos. Qed.

Lemma finalise_idem x : finalise (finalise x) = finalise x.
Proof. apply to_sd_idem, precision_pos. Qed.

Lemma finalise_compat x y : (x == y)%Q -> finalise x = finalise y.
Proof. apply to_sd_compat. Qed.

Lemma finalise_0 x : (x == 0)%Q -> finalise x = 0%Q.
Proof. apply to_sd_zero. Qed.

Lemma finalise_nonneg x : (0 <= x)%Q -> (0 <= finalise x)%Q.
Proof.
  intros H. pose proof (finalise_le 0 x H) as P.
  rewrite (finalise_0 0) in P by reflexivity. exact P.
Qed.

Lemma finalise_nonpos x : (x <= 0)%Q -> (finalise x <= 0)%Q.
Proof.
  intros H. pose proof (finalise_le x 0 H) as P.
  rewrite (finalise_0 0) in P by reflexivity. exact P.
Qed.

Lemma le_refl q : le (DFin q) (DFin q).
Proof. simpl. apply Qle_refl. Qed.

Lemma le_trans x y z : le x y -> le y z -> le x z.
Proof.
  destruct x, y, z; dsimpl; try tauto. intros; eapply Qle_trans; eauto.
Qed.

Lemma le_lte x y : le x y -> Dec.lte x y = true.
Proof.
  destruct x as [| |a], y as [| |b]; dsimpl; try tauto.
  intros H. unfold Dec.lte, Dec.cmp.
  destruct (a ?= b)%Q eqn:E; try reflexivity.
  apply Qgt_alt in E. lra.
Qed.

Lemma rounded_zero : rounded Dec.zero.
Proof. simpl. apply finalise_0. reflexivity. Qed.

Lemma rounded_add x y : rounded (Dec.add x y).
Proof.
  destruct x as [|s|a], y as [|t|b]; dsimpl; try exact I.
  - destruct (Bool.eqb s t); exact I.
  - apply finalise_idem.
Qed.

Lemma add_zero_r x : rounded x -> Dec.add x (DFin 0) = x.
Proof.
  destruct x as [|s|a]; dsimpl; try reflexivity.
  intros H. f_equal.
  transitivity (finalise a); [apply finalise_compat; ring | exact H].
Qed.

Lemma add_le x y p q : le x y -> le p q -> le (Dec.add x p) (Dec.add y q).
Proof.
  destruct x, y, p, q; dsimpl; try tauto. intros. apply finalise_le. lra.
Qed.

Lemma add_nonneg a p :
  rounded (DFin a) -> le Dec.zero p -> le (DFin a) (Dec.add (DFin a) p).
Proof.
  destruct p as [| |b]; dsimpl; try tauto.
  intros H Hp.
  apply Qle_trans with (finalise a).
  - rewrite H. apply Qle_refl.
  - apply finalise_le. lra.
Qed.

Lemma times_le x y r : le x y -> (0 <= r)%Q ->
  le (Dec.times x (DFin r)) (Dec.times y (DFin r)).
Proof.
  destruct x, y; dsimpl; try tauto. intros. apply finalise_le. nra.
Qed.

Lemma times_nonneg x r : le Dec.zero x -> (0 <= r)%Q ->
  le Dec.zero (Dec.times x (DFin r)).
Proof.
  destruct x; dsimpl; try tauto. intros. apply finalise_nonneg. nra.
Qed.

Lemma div100_le x y : le x y ->
  le (Dec.div x (Dec.of_Z 100)) (Dec.div y (Dec.of_Z 100)).
Proof.
  destruct x as [| |a], y as [| |b]; dsimpl; try tauto.
  intros H. apply finalise_le.
  unfold Qdiv. apply Qmult_le_compat_r; [exact H|]. discriminate.
Qed.

Lemma div100_nonneg x : le Dec.zero x -> le Dec.zero (Dec.div x (Dec.of_Z 100)).
Proof.
  destruct x as [| |a]; dsimpl; try tauto.
  intros H. apply finalise_nonneg.
  unfold Qdiv. apply Qmult_le_0_compat; [exact H|]. discriminate.
Qed.

Lemma minus_le x y f : le x y -> le (Dec.minus x (DFin f)) (Dec.minus y (DFin f)).
Proof.
  destruct x, y; dsimpl; try tauto. intros. apply finalise_le. lra.
Qed.

Lemma cmp_fin a b :
  Dec.cmp (DFin a) (DFin b) = Some (a ?= b)%Q.
Proof. reflexivity. Qed.

Lemma max_zero_fin x :
  Dec.max Dec.zero (DFin x) = if Qle_bool x 0 then Dec.zero else DFin x.
Proof.
  unfold Dec.max, Dec.zero, Dec.cmp.
  destruct (Qle_bool x 0) eqn:E.
  - apply Qle_bool_iff in E.
    destruct (0 ?= x)%Q eqn:C; try reflexivity.
    apply Qlt_alt in C. lra.
  - destruct (0 ?= x)%Q eqn:C; try reflexivity.
    + apply Qeq_alt in C. assert (H : (x <= 0)%Q) by lra.
      apply Qle_bool_iff in H. congruence.
    + apply Qgt_alt in C. assert (H : (x <= 0)%Q) by lra.
      apply Qle_bool_iff in H. congruence.
Qed.

Lemma max_zero_le x y : le x y -> le (Dec.max Dec.zero x) (Dec.max Dec.zero y).
Proof.
  destruct x as [| |a], y as [| |b]; dsimpl; try tauto.
  intros H. rewrite !max_zero_fin.
  destruct (Qle_bool a 0) eqn:Ea, (Qle_bool b 0) eqn:Eb; simpl.
  - apply Qle_refl.
  - destruct (Qlt_le_dec 0 b) as [Hb|Hb]; [lra|].
    apply Qle_bool_iff in Hb. congruence.
  - apply Qle_bool_iff in Eb.
    assert (Ha : (a <= 0)%Q) by lra. apply Qle_bool_iff in Ha. congruence.
  - exact H.
Qed.

Lemma max_zero_nonneg x : le Dec.zero (Dec.max Dec.zero (DFin x)).
Proof.
  rewrite max_zero_fin. destruct (Qle_bool x 0) eqn:E; simpl.
  - apply Qle_refl.
  - destruct (Qlt_le_dec 0 x) as [H|H]; [lra|].
    apply Qle_bool_iff in H. congruence.
Qed.

End DecFacts.

(** ** Facts about the tier loop *)

Module TierFacts.
Import Rounding RoundingFacts DecOrder DecFacts Engine Helpers.

Ltac qcmp H :=
  first [apply Qeq_alt in H | apply Qlt_alt in H | apply Qgt_alt in H].

Lemma Qcompare_le a b : (a ?= b)%Q <> Gt <-> (a <= b)%Q.
Proof.
  split.
  - intros H. destruct (a ?= b)%Q eqn:E.
    + apply Qeq_alt in E. lra.
    + apply Qlt_alt in E. lra.
    + congruence.
  - intros H E. apply Qgt_alt in E. lra.
Qed.

Lemma lte_fin a b : Dec.lte (DFin a) (DFin b) = true -> (a <= b)%Q.
Proof.
  unfold Dec.lte, Dec.cmp.
  destruct (a ?= b)%Q eqn:E; intros H; try discriminate; qcmp E; lra.
Qed.

Lemma of_number_fin q : Dec.of_number q = DFin (Qred q).
Proof. reflexivity. Qed.

Lemma tierTo_fin t b : tierTo t = Some b -> exists e, b = DFin e.
Proof.
  unfold tierTo. destruct (tier_to t); [|discriminate].
  intros H. injection H as <-. eexists. reflexivity.
Qed.

Lemma tierTo_bounded t e : tier_to t = Some e -> tierTo t = Some (Dec.of_number e).
Proof. intros H. unfold tierTo. rewrite H. reflexivity. Qed.

Lemma min_fin_le x y e : le x y -> le (Dec.min x (DFin e)) (Dec.min y (DFin e)).
Proof.
  destruct x as [| |a], y as [| |c]; simpl; try tauto.
  intros H. unfold Dec.min. rewrite !cmp_fin.
  destruct (a ?= e)%Q eqn:E1, (c ?= e)%Q eqn:E2; simpl; qcmp E1; qcmp E2; lra.
Qed.

Lemma min_fin a e : exists m, Dec.min (DFin a) (DFin e) = DFin m /\ (m <= a)%Q.
Proof.
  unfold Dec.min. rewrite cmp_fin.
  destruct (a ?= e)%Q eqn:E1; qcmp E1.
  - exists a. split; [reflexivity|lra].
  - exists a. split; [reflexivity|lra].
  - exists e. split; [reflexivity|lra].
Qed.

Lemma amountInTier_le x y t e : le x y ->
  le (amountInTier x t (DFin e)) (amountInTier y t (DFin e)).
Proof.
  intros H. unfold amountInTier. apply max_zero_le.
  rewrite of_number_fin. apply minus_le. apply min_fin_le. exact H.
Qed.

Lemma amountInTier_nonneg a t e : le Dec.zero (amountInTier (DFin a) t (DFin e)).
Proof.
  unfold amountInTier.
  destruct (min_fin a e) as (m & -> & _).
  rewrite of_number_fin. simpl Dec.minus. apply max_zero_nonneg.
Qed.

Lemma Qred_nonneg q : (0 <= q)%Q -> (0 <= Qred q)%Q.
Proof. intros H. rewrite Qred_correct. exact H. Qed.

Lemma payoutForTier_le s1 s2 t : (0 <= tier_rate t)%Q -> le s1 s2 ->
  le (payoutForTier s1 t) (payoutForTier s2 t).
Proof.
  intros Hr Hs. unfold payoutForTier. rewrite of_number_fin.
  destruct (isPercentage t).
  - apply div100_le. apply times_le; [exact Hs|apply Qred_nonneg, Hr].
  - apply times_le; [exact Hs|apply Qred_nonneg, Hr].
Qed.

Lemma payoutForTier_nonneg s t : (0 <= tier_rate t)%Q -> le Dec.zero s ->
  le Dec.zero (payoutForTier s t).
Proof.
  intros Hr Hs. unfold payoutForTier. rewrite of_number_fin.
  destruct (isPercentage t).
  - apply div100_nonneg. apply times_nonneg; [exact Hs|apply Qred_nonneg, Hr].
  - apply times_nonneg; [exact Hs|apply Qred_nonneg, Hr].
Qed.

(** A tier whose slice is zero pays exactly zero. *)
Lemma zero_slice_pays_zero s r (pct : bool) : Dec.isZero s = true ->
  (if pct then Dec.div (Dec.times s (Dec.of_number r)) (Dec.of_Z 100)
   else Dec.times s (Dec.of_number r)) = DFin 0.
Proof.
  destruct s as [| |q]; simpl; try discriminate.
  intros Hz. apply Qeq_bool_iff in Hz.
  assert (E : finalise (q * Qred r) = 0%Q) by (apply finalise_0; rewrite Hz; ring).
  destruct pct.
  - unfold Dec.of_number. simpl. rewrite E.
    first [reflexivity | f_equal; apply finalise_0; reflexivity].
  - unfold Dec.of_number. simpl. rewrite E. reflexivity.
Qed.

Lemma payoutForTier_zero s t : Dec.isZero s = true -> payoutForTier s t = DFin 0.
Proof. intros H. unfold payoutForTier. apply zero_slice_pays_zero, H. Qed.

Lemma isZero_le s1 s2 : le Dec.zero s1 -> le s1 s2 ->
  Dec.isZero s2 = true -> Dec.isZero s1 = true.
Proof.
  destruct s1 as [| |a], s2 as [| |b]; simpl; try tauto; try discriminate.
  intros H0 H Hz. apply Qeq_bool_iff in Hz. apply Qeq_bool_iff. lra.
Qed.

Lemma gt_mono a1 a2 b : (a1 <= a2)%Q ->
  Dec.gt (DFin a1) b = true -> Dec.gt (DFin a2) b = true.
Proof.
  intros H. destruct b as [|s|e]; unfold Dec.gt; simpl; try discriminate.
  - destruct s; auto.
  - destruct (a1 ?= e)%Q eqn:E1; try discriminate. intros _.
    apply Qgt_alt in E1.
    destruct (a2 ?= e)%Q eqn:E2; try reflexivity.
    + apply Qeq_alt in E2. lra.
    + apply Qlt_alt in E2. lra.
Qed.

Lemma lte_mono a1 a2 b : (a1 <= a2)%Q ->
  Dec.lte (DFin a2) b = true -> Dec.lte (DFin a1) b = true.
Proof.
  intros H. destruct b as [|s|e]; unfold Dec.lte; simpl; try discriminate.
  - destruct s; auto.
  - destruct (a2 ?= e)%Q eqn:E2; try discriminate; intros _; qcmp E2;
      (destruct (a1 ?= e)%Q eqn:E1; try reflexivity; apply Qgt_alt in E1; lra).
Qed.

Lemma lte_not_gt a e : Dec.lte (DFin a) (DFin e) = negb (Dec.gt (DFin a) (DFin e)).
Proof.
  unfold Dec.lte, Dec.gt; simpl. destruct (a ?= e)%Q; reflexivity.
Qed.

(** The loop returns on tiers that all have a [to]. *)
Lemma tier_loop_returns amount : forall l total,
  Spec.allBounded l -> exists r, tier_loop amount l total = Some r.
Proof.
  induction l as [|tier rest IH]; intros total B.
  - eexists. reflexivity.
  - cbn [tier_loop].
    assert (Brest : Spec.allBounded rest) by (intros x Hx; apply B; right; exact Hx).
    destruct (tier_to tier) as [e|] eqn:E;
      [|exfalso; exact (B tier (or_introl eq_refl) E)].
    rewrite (tierTo_bounded tier e E).
    destruct (_ && _); [apply IH, Brest|].
    destruct (_ && _); [eexists; reflexivity|].
    destruct (Dec.lte amount _); [eexists; reflexivity|apply IH, Brest].
Qed.

(** With non-negative rates a loop that returns has not lowered the
    running total. *)
Lemma tier_loop_ge : forall (l : list PayoutTier) a t,
  (forall x, In x l -> (0 <= tier_rate x)%Q) ->
  rounded (DFin t) ->
  atLeast (DFin t) (tier_loop (DFin a) l (DFin t)).
Proof.
  induction l as [|tier rest IH]; intros a t Hr Ht.
  - simpl. split; [apply Qle_refl|exact Ht].
  - cbn [tier_loop].
    assert (Hrest : forall x, In x rest -> (0 <= tier_rate x)%Q)
      by (intros x Hx; apply Hr; right; exact Hx).
    destruct (tierTo tier) as [b|] eqn:Eb; [|exact I].
    destruct (tierTo_fin tier b Eb) as [e ->].
    destruct (Dec.isZero (amountInTier (DFin a) tier (DFin e))
              && Dec.gt (DFin a) (DFin e)).
    { apply IH; assumption. }
    destruct (Dec.isZero (amountInTier (DFin a) tier (DFin e))
              && Dec.lte (DFin a) (Dec.of_number (tier_from tier))).
    { split; [apply le_refl|exact Ht]. }
    pose proof (payoutForTier_nonneg _ tier (Hr tier (or_introl eq_refl))
                  (amountInTier_nonneg a tier e)) as Hp.
    pose proof (add_nonneg t _ Ht Hp) as Hadd.
    pose proof (rounded_add (DFin t)
                  (payoutForTier (amountInTier (DFin a) tier (DFin e)) tier)) as Hrd.
    destruct (Dec.add (DFin t)
                (payoutForTier (amountInTier (DFin a) tier (DFin e)) tier))
      as [| |t'] eqn:Et; try (simpl in Hadd; tauto).
    destruct (Dec.lte (DFin a) (DFin e)).
    + split; [exact Hadd|exact Hrd].
    + pose proof (IH a t' Hrest Hrd) as H.
      destruct (tier_loop (DFin a) rest (DFin t')) as [r|]; [|exact I].
      destruct H as [H1 H2]. split; [|exact H2].
      eapply le_trans; [exact Hadd|exact H1].
Qed.

Lemma atLeast_ordered x t r : le x (DFin t) -> atLeast (DFin t) r -> ordered (Some x) r.
Proof.
  intros H A. destruct r as [v|]; [|exact I].
  destruct A as [A _]. simpl. eapply le_trans; [exact H|exact A].
Qed.

(** With non-negative rates the loop is monotone in the amount and in the
    running total, wherever it returns for both. *)
Lemma tier_loop_mono : forall (l : list PayoutTier) a1 a2 t1 t2,
  (forall x, In x l -> (0 <= tier_rate x)%Q) ->
  (a1 <= a2)%Q -> (t1 <= t2)%Q ->
  rounded (DFin t1) -> rounded (DFin t2) ->
  ordered (tier_loop (DFin a1) l (DFin t1)) (tier_loop (DFin a2) l (DFin t2)).
Proof.
  induction l as [|tier rest IH]; intros a1 a2 t1 t2 Hr Ha Ht R1 R2.
  - simpl. exact Ht.
  - assert (Hrest : forall x, In x rest -> (0 <= tier_rate x)%Q)
      by (intros x Hx; apply Hr; right; exact Hx).
    assert (Hrate : (0 <= tier_rate tier)%Q) by (apply Hr; left; reflexivity).
    cbn [tier_loop].
    destruct (tierTo tier) as [b|] eqn:Eb; [|exact I].
    destruct (tierTo_fin tier b Eb) as [e ->].
    set (s1 := amountInTier (DFin a1) tier (DFin e)).
    set (s2 := amountInTier (DFin a2) tier (DFin e)).
    assert (Hs : le s1 s2) by (apply amountInTier_le; exact Ha).
    assert (Hs1 : le Dec.zero s1) by apply amountInTier_nonneg.
    assert (Hs2 : le Dec.zero s2) by apply amountInTier_nonneg.
    pose proof (isZero_le _ _ Hs1 Hs) as Hz.
    pose proof (gt_mono a1 a2 (DFin e) Ha) as Hg.
    pose proof (lte_mono a1 a2 (Dec.of_number (tier_from tier)) Ha) as Hl.
    rewrite !lte_not_gt.
    pose proof (payoutForTier_le s1 s2 tier Hrate Hs) as Hp.
    pose proof (payoutForTier_nonneg s1 tier Hrate Hs1) as Hp1.
    pose proof (payoutForTier_nonneg s2 tier Hrate Hs2) as Hp2.
    pose proof (add_le (DFin t1) (DFin t2) _ _ Ht Hp) as Hadd.
    pose proof (add_nonneg t1 _ R1 Hp1) as Hadd1.
    pose proof (add_nonneg t2 _ R2 Hp2) as Hadd2.
    pose proof (rounded_add (DFin t1) (payoutForTier s1 tier)) as Rd1.
    pose proof (rounded_add (DFin t2) (payoutForTier s2 tier)) as Rd2.
    pose proof (payoutForTier_zero s1 tier) as Pz1.
    destruct (Dec.add (DFin t1) (payoutForTier s1 tier)) as [| |u1] eqn:E1;
      try (simpl in Hadd1; tauto).
    destruct (Dec.add (DFin t2) (payoutForTier s2 tier)) as [| |u2] eqn:E2;
      try (simpl in Hadd2; tauto).
    simpl in Hadd, Hadd1, Hadd2.
    assert (Hu1 : Dec.isZero s1 = true -> u1 = t1).
    { intros Z. rewrite (Pz1 Z), (add_zero_r (DFin t1) R1) in E1.
      injection E1 as <-. reflexivity. }
    destruct (Dec.gt (DFin a2) (DFin e)) eqn:G2.
    + (* the larger amount goes on to the next tier *)
      destruct (Dec.gt (DFin a1) (DFin e)) eqn:G1.
      * (* so does the smaller *)
        destruct (Dec.isZero s2) eqn:Z2; cbn [andb negb].
        -- rewrite (Hz eq_refl). cbn [andb]. apply IH; assumption.
        -- destruct (Dec.isZero s1) eqn:Z1; cbn [andb].
           ++ apply IH; try assumption. lra.
           ++ apply IH; assumption.
      * (* the smaller amount ends in this tier *)
        assert (Hend : forall u, (u <= t1)%Q \/ (u <= u1)%Q ->
                  forall v, (v = t2 /\ Dec.isZero s2 = true) \/ v = u2 ->
                  rounded (DFin v) -> (t1 <= v)%Q ->
                  ordered (Some (DFin u)) (tier_loop (DFin a2) rest (DFin v))).
        { intros u Hu v Hv Rv Hv1.
          apply (atLeast_ordered _ v); [|apply tier_loop_ge; assumption].
          simpl. destruct Hu as [Hu | Hu]; [lra|].
          destruct Hv as [[-> Z2] | ->]; [|lra].
          rewrite (Hu1 (Hz Z2)) in Hu. lra. }
        destruct (Dec.isZero s2) eqn:Z2; cbn [andb negb].
        -- rewrite (Hz eq_refl). cbn [andb].
           destruct (Dec.lte (DFin a1) (Dec.of_number (tier_from tier))).
           ++ apply (Hend t1); [left; lra|left; split; reflexivity|exact R2|exact Ht].
           ++ apply (Hend u1); [right; lra|left; split; reflexivity|exact R2|exact Ht].
        -- rewrite andb_false_r.
           destruct (Dec.isZero s1 && Dec.lte (DFin a1) (Dec.of_number (tier_from tier))).
           ++ apply (Hend t1); [left; lra|right; reflexivity|exact Rd2|lra].
           ++ apply (Hend u1); [right; lra|right; reflexivity|exact Rd2|lra].
    + (* the larger amount ends in this tier, and so does the smaller *)
      destruct (Dec.gt (DFin a1) (DFin e)) eqn:G1;
        [specialize (Hg eq_refl); discriminate|].
      rewrite !andb_false_r. cbn [negb].
      destruct (Dec.isZero s2 && Dec.lte (DFin a2) (Dec.of_number (tier_from tier)))
        eqn:B2.
      * apply andb_true_iff in B2. destruct B2 as [Z2 L2].
        rewrite (Hz Z2), (Hl L2). cbn [andb]. simpl. exact Ht.
      * destruct (Dec.isZero s1 && Dec.lte (DFin a1) (Dec.of_number (tier_from tier)));
          simpl; lra.
Qed.

(** *** Sorting *)

Lemma insert_tier_In x t l : In x (insert_tier t l) <-> x = t \/ In x l.
Proof.
  induction l as [|h r IH]; simpl.
  - intuition.
  - destruct (Qle_bool (tier_from t) (tier_from h)); simpl; [intuition|].
    rewrite IH. intuition.
Qed.

Lemma sort_tiers_In x l : In x (sort_tiers l) <-> In x l.
Proof.
  induction l as [|h r IH]; simpl; [tauto|].
  rewrite insert_tier_In, IH. intuition.
Qed.

Lemma sort_ascending l : Spec.ascendingFrom l -> sort_tiers l = l.
Proof.
  induction l as [|t rest IH]; intros H; [reflexivity|].
  simpl. destruct rest as [|h r].
  - reflexivity.
  - destruct H as [H1 H2]. rewrite (IH H2). simpl.
    apply Qle_bool_iff in H1. rewrite H1. reflexivity.
Qed.

Lemma ascending_tail t rest : Spec.ascendingFrom (t :: rest) -> Spec.ascendingFrom rest.
Proof. destruct rest; simpl; tauto. Qed.

Lemma ascending_head t rest : Spec.ascendingFrom (t :: rest) ->
  forall x, In x rest -> (tier_from t <= tier_from x)%Q.
Proof.
  revert t. induction rest as [|h r IH]; intros t H x Hx; [destruct Hx|].
  destruct H as [H1 H2]. destruct Hx as [<- | Hx]; [exact H1|].
  eapply Qle_trans; [exact H1|]. apply (IH h H2 x Hx).
Qed.

Lemma nonOverlapping_tail t rest :
  Spec.nonOverlapping (t :: rest) -> Spec.nonOverlapping rest.
Proof. destruct rest; simpl; tauto. Qed.

Lemma nonOverlapping_head t rest :
  Spec.ascendingFrom (t :: rest) -> Spec.nonOverlapping (t :: rest) ->
  rest = [] \/
  exists e, tier_to t = Some e /\ forall x, In x rest -> (e <= tier_from x)%Q.
Proof.
  destruct rest as [|h r]; [left; reflexivity|].
  intros [A1 A2] [N1 N2]. right.
  destruct (tier_to t) as [e|]; [|contradiction].
  exists e. split; [reflexivity|].
  intros x [<- | Hx]; [exact N1|].
  eapply Qle_trans; [exact N1|]. apply (ascending_head h r A2 x Hx).
Qed.

(** *** Slices beyond the amount *)

Lemma sliceSpec_bounded amount t e : tier_to t = Some e ->
  Spec.sliceSpec amount t = amountInTier amount t (Dec.of_number e).
Proof. intros H. unfold Spec.sliceSpec, amountInTier. rewrite H. reflexivity. Qed.

(** A tier that starts at or above a bound of the amount has an empty slice. *)
Lemma slice_zero_beyond amount b t e :
  Dec.lte amount (DFin b) = true -> (b <= tier_from t)%Q ->
  amountInTier amount t (DFin e) = Dec.zero.
Proof.
  intros Hle Hb. unfold amountInTier. rewrite of_number_fin.
  destruct amount as [|s|a].
  - discriminate.
  - destruct s; [|discriminate]. reflexivity.
  - pose proof (lte_fin _ _ Hle) as Ha.
    destruct (min_fin a e) as (m & -> & Hm).
    simpl Dec.minus. rewrite max_zero_fin.
    assert (H0 : (finalise (m - Qred (tier_from t)) <= 0)%Q).
    { apply finalise_nonpos. rewrite Qred_correct. lra. }
    apply Qle_bool_iff in H0. rewrite H0. reflexivity.
Qed.

Lemma fold_zero_slices amount : forall l total,
  rounded total ->
  (forall t, In t l -> Spec.sliceSpec amount t = Dec.zero) ->
  fold_left (Spec.addSlice amount) l total = total.
Proof.
  induction l as [|t rest IH]; intros total R H; [reflexivity|].
  simpl. unfold Spec.addSlice at 2. rewrite (H t (or_introl eq_refl)).
  rewrite (zero_slice_pays_zero Dec.zero (tier_rate t) true eq_refl).
  rewrite (add_zero_r total R).
  apply IH; [exact R|]. intros x Hx. apply H. right. exact Hx.
Qed.

Lemma slices_zero_beyond amount b : forall l,
  Spec.allBounded l ->
  Dec.lte amount (DFin b) = true ->
  (forall x, In x l -> (b <= tier_from x)%Q) ->
  forall t, In t l -> Spec.sliceSpec amount t = Dec.zero.
Proof.
  intros l B Hle Hb t Ht.
  destruct (tier_to t) as [e|] eqn:E; [|exfalso; exact (B t Ht E)].
  rewrite (sliceSpec_bounded amount t e E), of_number_fin.
  apply (slice_zero_beyond amount b t _ Hle (Hb t Ht)).
Qed.

(** On ascending, non-overlapping percentage tiers that all have a [to]
    the loop returns the sum of all slices. *)
Lemma tier_loop_sum amount : forall l total,
  rounded total ->
  Spec.allBounded l ->
  Spec.ascendingFrom l -> Spec.nonOverlapping l ->
  (forall t, In t l -> isPercentage t = true) ->
  tier_loop amount l total = Some (fold_left (Spec.addSlice amount) l total).
Proof.
  induction l as [|tier rest IH]; intros total R B A N P; [reflexivity|].
  assert (Prest : forall t, In t rest -> isPercentage t = true)
    by (intros x Hx; apply P; right; exact Hx).
  assert (Brest : Spec.allBounded rest) by (intros x Hx; apply B; right; exact Hx).
  pose proof (ascending_tail _ _ A) as Arest.
  pose proof (nonOverlapping_tail _ _ N) as Nrest.
  destruct (tier_to tier) as [e|] eqn:E;
    [|exfalso; exact (B tier (or_introl eq_refl) E)].
  assert (Epay : Dec.div (Dec.times (Spec.sliceSpec amount tier)
                            (Dec.of_number (tier_rate tier))) (Dec.of_Z 100)
                 = payoutForTier (amountInTier amount tier (Dec.of_number e)) tier).
  { unfold payoutForTier.
    rewrite (P tier (or_introl eq_refl)), (sliceSpec_bounded amount tier e E).
    reflexivity. }
  assert (Hbeyond : Dec.lte amount (Dec.of_number e) = true ->
            forall x, In x rest -> Spec.sliceSpec amount x = Dec.zero).
  { intros L2.
    destruct (nonOverlapping_head tier rest A N) as [-> | (e' & He & Hall)].
    - intros x [].
    - rewrite E in He. injection He as <-. rewrite of_number_fin in L2.
      apply (slices_zero_beyond amount (Qred e) rest Brest L2).
      intros x Hx. rewrite Qred_correct. apply Hall, Hx. }
  cbn [tier_loop fold_left]. rewrite (tierTo_bounded tier e E).
  unfold Spec.addSlice at 2. rewrite Epay.
  destruct (Dec.isZero (amountInTier amount tier (Dec.of_number e))) eqn:Z;
    cbn [andb].
  - rewrite (payoutForTier_zero _ _ Z), (add_zero_r total R).
    destruct (Dec.gt amount (Dec.of_number e)) eqn:G.
    + apply IH; assumption.
    + destruct (Dec.lte amount (Dec.of_number (tier_from tier))) eqn:L.
      * f_equal. symmetry. apply fold_zero_slices; [exact R|].
        rewrite of_number_fin in L.
        apply (slices_zero_beyond amount (Qred (tier_from tier)) rest Brest L).
        intros x Hx. rewrite Qred_correct. apply (ascending_head tier rest A x Hx).
      * destruct (Dec.lte amount (Dec.of_number e)) eqn:L2.
        -- f_equal. symmetry. apply fold_zero_slices; [exact R|]. apply Hbeyond.
           reflexivity.
        -- apply IH; assumption.
  - destruct (Dec.lte amount (Dec.of_number e)) eqn:L2.
    + f_equal. symmetry. apply fold_zero_slices; [apply rounded_add|].
      apply Hbeyond. reflexivity.
    + apply IH; try assumption. apply rounded_add.
Qed.

(** *** Amounts that do not exceed zero *)

Lemma tier_loop_nonpositive amount : forall l total,
  Spec.allBounded l ->
  Dec.lte amount (DFin 0) = true ->
  (forall t, In t l -> (0 <= tier_from t)%Q) ->
  tier_loop amount l total = Some total.
Proof.
  induction l as [|tier rest IH]; intros total B Hle Hf; [reflexivity|].
  cbn [tier_loop].
  destruct (tier_to tier) as [e|] eqn:E;
    [|exfalso; exact (B tier (or_introl eq_refl) E)].
  rewrite (tierTo_bounded tier e E), of_number_fin.
  rewrite (slice_zero_beyond amount 0 tier _ Hle (Hf tier (or_introl eq_refl))).
  change (Dec.isZero Dec.zero) with true. cbn [andb].
  destruct (Dec.gt amount (DFin (Qred e))).
  - apply IH; [|exact Hle|].
    + intros x Hx. apply B. right. exact Hx.
    + intros x Hx. apply Hf. right. exact Hx.
  - assert (L : Dec.lte amount (Dec.of_number (tier_from tier)) = true).
    { rewrite of_number_fin. destruct amount as [|s|a]; try discriminate.
      - destruct s; [reflexivity|discriminate].
      - apply le_lte. simpl.
        pose proof (lte_fin _ _ Hle) as Ha.
        rewrite Qred_correct.
        pose proof (Hf tier (or_introl eq_refl)). lra. }
    rewrite L. reflexivity.
Qed.

(** *** A tier without [to] *)

(** The loop throws as soon as it reaches a tier without [to]. *)
Lemma tier_loop_open amount tier rest total :
  tier_to tier = None -> tier_loop amount (tier :: rest) total = None.
Proof. intros H. cbn [tier_loop]. unfold tierTo. rewrite H. reflexivity. Qed.

End TierFacts.

(** ** Facts about the stages of [runScheme] *)

Module EngineFacts.
Import Js Engine Helpers Run Spec.

Local Open Scope string_scope.

Lemma get_set_same {A : Type} (o : Obj A) k v : get (set o k v) k = Some v.
Proof.
  induction o as [|[k' v'] r IH]; simpl.
  - rewrite String.eqb_refl. reflexivity.
  - destruct (String.eqb k' k) eqn:E; simpl; rewrite E; [reflexivity|exact IH].
Qed.

Lemma get_set_other {A : Type} (o : Obj A) k v k' :
  k' <> k -> get (set o k v) k' = get o k'.
Proof.
  intros Hne. induction o as [|[k0 v0] r IH]; simpl.
  - destruct (String.eqb k k') eqn:E; [|reflexivity].
    apply String.eqb_eq in E. congruence.
  - destruct (String.eqb k0 k) eqn:E; simpl.
    + destruct (String.eqb k0 k') eqn:E'; [|reflexivity].
      apply String.eqb_eq in E, E'. congruence.
    + destruct (String.eqb k0 k'); [reflexivity|exact IH].
Qed.

Section WithHost.
Context {host : Host}.

(** *** Exclusion *)

Lemma exclusionLoop_none scheme agentId record : forall rules,
  (forall r, In r rules -> exclusionRuleMatches scheme record r = false) ->
  exclusionLoop (exclusionFields (kpiConfig scheme)) agentId record rules = None.
Proof.
  induction rules as [|rule rest IH]; intros H; [reflexivity|].
  simpl. pose proof (H rule (or_introl eq_refl)) as Hr.
  unfold exclusionRuleMatches in Hr.
  destruct (findField (exclusionFields (kpiConfig scheme)) (rule_field rule)).
  - rewrite Hr. apply IH. intros r Hin. apply H. right. exact Hin.
  - apply IH. intros r Hin. apply H. right. exact Hin.
Qed.

Lemma exclusionLoop_first scheme agentId record rule after : forall before,
  (forall r, In r before -> exclusionRuleMatches scheme record r = false) ->
  exclusionRuleMatches scheme record rule = true ->
  exists recordValue,
    exclusionLoop (exclusionFields (kpiConfig scheme)) agentId record
      (before ++ rule :: after)
    = Some (LogExclusion (rule_id rule) (prop record "recordInternalId") agentId
              (rule_field rule) recordValue (rule_operator rule) (rule_value rule)).
Proof.
  induction before as [|r0 rest IH]; intros Hb Hm.
  - simpl. unfold exclusionRuleMatches in Hm.
    destruct (findField (exclusionFields (kpiConfig scheme)) (rule_field rule));
      [|discriminate].
    rewrite Hm. eexists. reflexivity.
  - simpl. pose proof (Hb r0 (or_introl eq_refl)) as Hr.
    unfold exclusionRuleMatches in Hr.
    assert (Hrest : forall r, In r rest -> exclusionRuleMatches scheme record r = false)
      by (intros r Hin; apply Hb; right; exact Hin).
    destruct (findField (exclusionFields (kpiConfig scheme)) (rule_field r0)).
    + rewrite Hr. apply IH; assumption.
    + apply IH; assumption.
Qed.

(** *** Adjustment *)

Lemma applyAdjustment_adjustOnce adj c m :
  fst (applyAdjustment adj c m) = adjustOnce adj (c, m).
Proof.
  unfold applyAdjustment, adjustOnce. cbn [fst snd].
  destruct (String.eqb (adj_target adj) "Amount") eqn:TA.
  - destruct (String.eqb (adj_type adj) "percentage") eqn:TP; [reflexivity|].
    destruct (String.eqb (adj_type adj) "fixed") eqn:TF; [reflexivity|].
    cbn [andb]. destruct (String.eqb (adj_target adj) "Rate"); reflexivity.
  - cbn [andb].
    destruct (String.eqb (adj_target adj) "Rate") eqn:TR; [|reflexivity].
    destruct (String.eqb (adj_type adj) "percentage") eqn:TP; [reflexivity|].
    destruct (String.eqb (adj_type adj) "fixed") eqn:TF; reflexivity.
Qed.

Lemma adjustmentLoop_adjustInOrder scheme agentId record : forall rules c m entries,
  fst (adjustmentLoop (adjustmentFields (kpiConfig scheme)) agentId record rules
         c m entries)
  = adjustInOrder scheme record rules (c, m).
Proof.
  induction rules as [|rule rest IH]; intros c m entries; [reflexivity|].
  cbn [adjustmentLoop adjustInOrder]. unfold conditionHolds.
  destruct (findField (adjustmentFields (kpiConfig scheme))
              (cond_field (condition rule))) as [fieldDef|].
  - destruct (evaluateRule _ _ _ _).
    + pose proof (applyAdjustment_adjustOnce (adjustment rule) c m) as E.
      destruct (applyAdjustment (adjustment rule) c m) as [[c' m'] eff].
      simpl in E. rewrite <- E. apply IH.
    + apply IH.
  - apply IH.
Qed.

(** *** Qualification *)

Lemma noPayoutEntry_app l e :
  noPayoutEntry l -> isPayoutCalculation e = false -> noPayoutEntry (l ++ [e]).
Proof.
  intros Hl He x Hx. apply in_app_or in Hx. destruct Hx as [Hx | [<- | []]]; auto.
Qed.

Lemma sumStep_noPayoutEntry scheme rule fieldDef acc rec :
  noPayoutEntry (snd acc) ->
  noPayoutEntry (snd (sumStep scheme rule fieldDef acc rec)).
Proof.
  intros H. unfold sumStep.
  destruct (if _ : bool then _ else _); simpl; [exact H|].
  apply noPayoutEntry_app; [exact H|reflexivity].
Qed.

Lemma sumFold_noPayoutEntry scheme rule fieldDef : forall recs acc,
  noPayoutEntry (snd acc) ->
  noPayoutEntry (snd (fold_left (sumStep scheme rule fieldDef) recs acc)).
Proof.
  induction recs as [|r rest IH]; intros acc H; [exact H|].
  simpl. apply IH. apply sumStep_noPayoutEntry, H.
Qed.

Lemma concludeRule_noPayoutEntry agentId rule fields dt v entries :
  noPayoutEntry entries ->
  noPayoutEntry (entriesAfter (concludeRule agentId rule fields dt v entries)).
Proof.
  intros H. unfold concludeRule.
  destruct (evaluateRule v (rule_operator rule) (rule_value rule) dt); simpl.
  - apply noPayoutEntry_app; [exact H|reflexivity].
  - apply noPayoutEntry_app; [|reflexivity].
    apply noPayoutEntry_app; [exact H|reflexivity].
Qed.

Lemma qualificationStep_noPayoutEntry scheme agentId recs rule fields entries :
  noPayoutEntry entries ->
  noPayoutEntry (entriesAfter (qualificationStep scheme agentId recs rule fields entries)).
Proof.
  intros H. unfold qualificationStep.
  destruct (findField fields (rule_field rule)) as [fieldDef|]; [|exact H].
  destruct (String.eqb (evaluationLevel fieldDef) "Agent").
  - destruct (String.eqb (aggregation fieldDef) "Sum").
    + pose proof (sumFold_noPayoutEntry scheme rule fieldDef recs (Dec.zero, entries) H) as S.
      destruct (fold_left _ recs (Dec.zero, entries)) as [sum entries'].
      apply concludeRule_noPayoutEntry, S.
    + destruct (String.eqb (aggregation fieldDef) "Count").
      * apply concludeRule_noPayoutEntry, H.
      * simpl. apply noPayoutEntry_app; [exact H|reflexivity].
  - apply concludeRule_noPayoutEntry, H.
Qed.

Lemma qualificationLoop_noPayoutEntry scheme agentId recs : forall rules fields entries,
  noPayoutEntry entries ->
  noPayoutEntry (snd (qualificationLoop scheme agentId recs rules fields entries)).
Proof.
  induction rules as [|rule rest IH]; intros fields entries H; [exact H|].
  cbn [qualificationLoop].
  pose proof (qualificationStep_noPayoutEntry scheme agentId recs rule fields entries H) as S.
  destruct (goOn _).
  - specialize (IH (fieldsAfter (qualificationStep scheme agentId recs rule fields entries))
                   _ S).
    destruct (qualificationLoop _ _ _ rest _ _) as [[[q r'] f'] e']. exact IH.
  - exact S.
Qed.

Lemma qualificationLoop_nil scheme agentId recs fields entries :
  qualificationLoop scheme agentId recs [] fields entries = (true, [], fields, entries).
Proof. reflexivity. Qed.

(** *** Credit split: entries are only ever appended *)

Lemma climb_appends scheme hier runAsOf agentId splitRole : forall steps st md,
  exists extra,
    splitEntries (fst (climb scheme hier runAsOf agentId splitRole steps st md))
    = (splitEntries st ++ extra)%list.
Proof.
  induction steps as [|n IH]; intros st md.
  - exists []. simpl. rewrite app_nil_r. reflexivity.
  - simpl. destruct (findManager hier (currentAgentForLookup st) runAsOf) as [d|].
    + destruct (IH {| currentAgentForLookup := managerId d;
                      level := (level st + 1)%Z;
                      splitEntries := splitEntries st |} (Some d)) as [extra E].
      exists extra. exact E.
    + eexists. reflexivity.
Qed.

Lemma resolveTarget_appends scheme hier runAsOf agentId st split :
  exists extra,
    splitEntries (afterLookup (resolveTarget scheme hier runAsOf agentId st split))
    = (splitEntries st ++ extra)%list.
Proof.
  assert (Hnil : exists extra, splitEntries st = (splitEntries st ++ extra)%list)
    by (exists []; rewrite app_nil_r; reflexivity).
  unfold resolveTarget.
  destruct (String.eqb (role split) "L1"); [exact Hnil|].
  destruct (parseInt (substring1 (role split))) as [targetLevel|]; [|exact Hnil].
  destruct (level st <? targetLevel)%Z.
  - pose proof (climb_appends scheme hier runAsOf agentId (role split)
                  (Z.to_nat (targetLevel - level st)) st None) as C.
    destruct (climb _ _ _ _ _ _ st None) as [st' details]. simpl in C.
    destruct (truthy (currentAgentForLookup st') && (level st' =? targetLevel)%Z);
      exact C.
  - destruct (targetLevel =? level st)%Z; exact Hnil.
Qed.

Lemma splitStep_appends scheme hier runAsOf agentId bp st split :
  exists extra,
    splitEntries (splitStep scheme hier runAsOf agentId bp st split)
    = (splitEntries st ++ extra)%list.
Proof.
  destruct (resolveTarget_appends scheme hier runAsOf agentId st split) as [extra E].
  unfold splitStep.
  destruct (truthy _).
  - destruct (Dec.gt _ _).
    + simpl. rewrite E, <- app_assoc. eexists. reflexivity.
    + exists extra. exact E.
  - destruct (negb _).
    + simpl. rewrite E, <- app_assoc. eexists. reflexivity.
    + exists extra. exact E.
Qed.

Lemma splitStep_resolved scheme hier runAsOf agentId bp st split :
  truthy (targetAgentId (resolveTarget scheme hier runAsOf agentId st split)) = true ->
  Dec.gt (creditAmount bp split) (Dec.of_Z 0) = true ->
  splitStep scheme hier runAsOf agentId bp st split
  = appendEntry (afterLookup (resolveTarget scheme hier runAsOf agentId st split))
      (distributionRecord agentId bp split
         (resolveTarget scheme hier runAsOf agentId st split)).
Proof.
  intros Ht Ha. unfold splitStep. rewrite Ht, Ha. reflexivity.
Qed.

Lemma splitFold_appends scheme hier runAsOf agentId bp : forall splits st,
  exists extra,
    splitEntries (fold_left (splitStep scheme hier runAsOf agentId bp) splits st)
    = (splitEntries st ++ extra)%list.
Proof.
  induction splits as [|s rest IH]; intros st.
  - exists []. simpl. rewrite app_nil_r. reflexivity.
  - simpl. destruct (IH (splitStep scheme hier runAsOf agentId bp st s)) as [e1 E1].
    destruct (splitStep_appends scheme hier runAsOf agentId bp st s) as [e2 E2].
    rewrite E1, E2, <- app_assoc. eexists. reflexivity.
Qed.

End WithHost.
End EngineFacts.

(** ** The shape of an agent's qualification log *)

Module StageFacts.
Import Js Engine JsDate Helpers Run Spec EngineFacts.

Local Open Scope string_scope.

Section WithHost.
Context {host : Host}.

Lemma sumFold_passes scheme rule fieldDef : forall recs sum entries,
  exists added,
    snd (fold_left (sumStep scheme rule fieldDef) recs (sum, entries))
    = (entries ++ added)%list
    /\ Forall passes added.
Proof.
  induction recs as [|r rest IH]; intros sum entries.
  - exists []. simpl. rewrite app_nil_r. split; [reflexivity|constructor].
  - cbn [fold_left]. unfold sumStep at 2. cbn [fst snd].
    destruct (if _ : bool then _ else _) as [v|].
    + apply IH.
    + destruct (IH sum
                  (entries ++
                   [LogSumWarning (rule_id rule) (prop r (kpi_sourceField fieldDef))
                      (prop r "recordInternalId")])%list) as (added & E & F).
      eexists. split.
      * rewrite E, <- app_assoc. reflexivity.
      * constructor; [exact I|exact F].
Qed.

Lemma concludeRule_shape agentId rule fields dt v entries added :
  Forall passes added ->
  stepShape agentId entries
    (concludeRule agentId rule fields dt v (entries ++ added)%list).
Proof.
  intros F. unfold concludeRule, stepShape.
  destruct (evaluateRule v (rule_operator rule) (rule_value rule) dt) eqn:E;
    cbn [goOn entriesAfter].
  - exists (added ++
            [LogQualification (rule_id rule) agentId true (rule_field rule)
               (rule_operator rule) (rule_value rule) v])%list.
    split.
    + apply Forall_app. split; [exact F|]. constructor; [reflexivity|constructor].
    + rewrite app_assoc. reflexivity.
  - exists added. split; [exact F|].
    exists (rule_id rule), (rule_field rule), (rule_operator rule), (rule_value rule), v.
    rewrite <- !app_assoc. reflexivity.
Qed.

Lemma qualificationStep_shape scheme agentId recs rule fields entries :
  stepShape agentId entries
    (qualificationStep scheme agentId recs rule fields entries).
Proof.
  unfold qualificationStep.
  assert (Hnil : forall r f dt v,
             stepShape agentId entries (concludeRule agentId r f dt v entries)).
  { intros r f dt v.
    pose proof (concludeRule_shape agentId r f dt v entries [] (Forall_nil _)) as S.
    rewrite app_nil_r in S. exact S. }
  destruct (findField fields (rule_field rule)) as [fieldDef|].
  - destruct (String.eqb (evaluationLevel fieldDef) "Agent").
    + destruct (String.eqb (aggregation fieldDef) "Sum").
      * destruct (sumFold_passes scheme rule fieldDef recs Dec.zero entries)
          as (added & E & F).
        destruct (fold_left _ _ _) as [sum es]. simpl in E. subst es.
        apply concludeRule_shape. exact F.
      * destruct (String.eqb (aggregation fieldDef) "Count"); [apply Hnil|].
        exists [LogUnsupportedAggregation (rule_id rule) (aggregation fieldDef)].
        split; [constructor; [exact I|constructor]|reflexivity].
    + apply Hnil.
  - exists []. split; [constructor|]. cbn [goOn entriesAfter].
    rewrite app_nil_r. reflexivity.
Qed.

(** The loop ends qualified with entries that pass, or disqualified on a
    failed evaluation followed by the disqualification entry. *)
Lemma qualificationLoop_shape scheme agentId recs : forall rules fields entries,
  let '(q, _, _, entries') :=
    qualificationLoop scheme agentId recs rules fields entries in
  exists added,
    Forall passes added
    /\ if q : bool then entries' = (entries ++ added)%list
       else exists ruleId field operator value evaluated,
           entries'
           = (entries ++ added ++
              [LogQualification ruleId agentId false field operator value evaluated;
               LogDisqualified agentId ruleId])%list.
Proof.
  induction rules as [|rule rest IH]; intros fields entries.
  - simpl. exists []. split; [constructor|]. rewrite app_nil_r. reflexivity.
  - cbn [qualificationLoop].
    destruct (qualificationStep_shape scheme agentId recs rule fields entries)
      as (a1 & F1 & S).
    destruct (goOn _).
    + specialize (IH (fieldsAfter (qualificationStep scheme agentId recs rule fields
                                     entries))
                     (entriesAfter (qualificationStep scheme agentId recs rule fields
                                      entries))).
      destruct (qualificationLoop _ _ _ rest _ _) as [[[q rest'] fields'] entries'].
      destruct IH as (a2 & F2 & S2).
      exists (a1 ++ a2)%list. split; [apply Forall_app; split; assumption|].
      rewrite S in S2. destruct q.
      * rewrite S2, <- app_assoc. reflexivity.
      * destruct S2 as (rid & fld & op & v & ev & S2).
        exists rid, fld, op, v, ev. rewrite S2, <- !app_assoc. reflexivity.
    + exists a1. split; [exact F1|exact S].
Qed.

End WithHost.
End StageFacts.

(** ** Runs that return a result *)

Module RunReturns.
Import Js Engine JsDate Helpers Run Spec TierFacts.

Local Open Scope string_scope.

Section WithHost.
Context {host : Host}.








End WithHost.
End RunReturns.

(** ** Tiered payout (C7, C8) *)

Section TieredPayout.
Import DecOrder DecFacts TierFacts Engine Helpers Spec.

Local Open Scope string_scope.

(** C7, as stated, fails: the tier list is sorted ascending by [from] and
    all tiers are percentage tiers (each with a [to]), yet the payout of
    800 (40) is not the sum of the slices (70), because the loop stops at
    the first tier that contains the amount and the second tier overlaps
    the first. *)
Lemma C7_counterexample :
  ascendingFrom Examples.overlappingTiers /\
  (forall t, In t Examples.overlappingTiers -> isPercentage t = true) /\
  calculateTieredPayout (Dec.of_Z 800) Examples.overlappingTiers = Some (DFin 40) /\
  tierSumSpec (Dec.of_Z 800) Examples.overlappingTiers = DFin 70.
Proof.
  split; [|split; [|split]].
  - simpl. split; [discriminate|exact I].
  - intros t [<- | [<- | []]]; reflexivity.
  - vm_compute. reflexivity.
  - vm_compute. reflexivity.
Qed.

(** C7 (amended): for every tier list sorted ascending by [from] whose
    tiers are percentage tiers, all have a [to] and do not overlap (each
    tier's [to] is at most the next tier's [from]), the tiered payout of
    an amount is the sum over all tiers of [slice * rate / 100] with
    [slice = max(0, min(amount, to) - from)]; and with tiers 0-1000 at
    5 percent and 1000-1000000 at 10 percent, 1500 yields "100.00". *)
Theorem C7_payout_is_sum_of_slices :
  (forall (tiers : list PayoutTier) (amount : Decimal),
      allBounded tiers ->
      ascendingFrom tiers ->
      nonOverlapping tiers ->
      (forall t, In t tiers -> isPercentage t = true) ->
      calculateTieredPayout amount tiers = Some (tierSumSpec amount tiers))
  /\ option_map DecFormat.toFixed2
       (calculateTieredPayout (Dec.of_Z 1500) Examples.twoTiers)
     = Some "100.00".
Proof.
  split.
  - intros tiers amount B A N P. unfold calculateTieredPayout, tierSumSpec.
    rewrite (sort_ascending tiers A).
    apply tier_loop_sum; [apply rounded_zero|exact B|exact A|exact N|exact P].
  - vm_compute. reflexivity.
Qed.

Lemma C7_witness :
  calculateTieredPayout (Dec.of_Z 1500) Examples.twoTiers
  = Some (tierSumSpec (Dec.of_Z 1500) Examples.twoTiers).
Proof.
  apply (proj1 C7_payout_is_sum_of_slices).
  - intros t [<- | [<- | []]]; discriminate.
  - simpl. split; [discriminate|exact I].
  - simpl. split; [discriminate|exact I].
  - intros t [<- | [<- | []]]; reflexivity.
Defined.

(** C8, as stated, fails: a single tier 0-1000000 is a contiguous,
    non-overlapping configuration, and with a rate of -10 percent the
    payout of 100 (-10) is below the payout of 0 (0). *)
Lemma C8_counterexample :
  ascendingFrom Examples.negativeRateTiers /\
  nonOverlapping Examples.negativeRateTiers /\
  Dec.lte (Dec.of_Z 0) (Dec.of_Z 100) = true /\
  calculateTieredPayout (Dec.of_Z 0) Examples.negativeRateTiers = Some (DFin 0) /\
  calculateTieredPayout (Dec.of_Z 100) Examples.negativeRateTiers
  = Some (DFin (-10)) /\
  Dec.lte (DFin 0) (DFin (-10)) = false.
Proof.
  split; [exact I|split; [exact I|repeat split]]; vm_compute; reflexivity.
Qed.

(** C8 (amended): for every tier configuration whose tiers all have a
    [to] and whose rates are not negative, the tiered payout is monotonic
    non-decreasing in the amount: for [a1 <= a2] both payouts are
    returned and [payout a1 <= payout a2]. *)
Theorem C8_payout_monotone (tiers : list PayoutTier) (a1 a2 : Q) :
  allBounded tiers ->
  (forall t, In t tiers -> (0 <= tier_rate t)%Q) ->
  (a1 <= a2)%Q ->
  exists p1 p2,
    calculateTieredPayout (DFin a1) tiers = Some p1
    /\ calculateTieredPayout (DFin a2) tiers = Some p2
    /\ Dec.lte p1 p2 = true.
Proof.
  intros B Hr Ha. unfold calculateTieredPayout, Dec.zero.
  assert (Bs : allBounded (sort_tiers tiers))
    by (intros t Ht; apply B; apply sort_tiers_In; exact Ht).
  assert (Hrs : forall x, In x (sort_tiers tiers) -> (0 <= tier_rate x)%Q)
    by (intros x Hx; apply Hr; apply sort_tiers_In; exact Hx).
  pose proof (tier_loop_mono (sort_tiers tiers) a1 a2 0 0 Hrs Ha (Qle_refl 0)
                rounded_zero rounded_zero) as M.
  destruct (tier_loop_returns (DFin a1) (sort_tiers tiers) (DFin 0) Bs) as [p1 E1].
  destruct (tier_loop_returns (DFin a2) (sort_tiers tiers) (DFin 0) Bs) as [p2 E2].
  rewrite E1, E2 in M. exists p1, p2.
  split; [exact E1|split; [exact E2|]]. apply le_lte. exact M.
Qed.

Lemma C8_witness :
  exists p1 p2,
    calculateTieredPayout (DFin 800) Examples.overlappingTiers = Some p1
    /\ calculateTieredPayout (DFin 1500) Examples.overlappingTiers = Some p2
    /\ Dec.lte p1 p2 = true.
Proof.
  apply (C8_payout_monotone Examples.overlappingTiers 800 1500).
  - intros t [<- | [<- | []]]; discriminate.
  - intros t [<- | [<- | []]]; vm_compute; discriminate.
  - vm_compute. discriminate.
Defined.

End TieredPayout.

(** ** Hierarchy lookup (C3) *)

Section HierarchyLookup.
Import Js Engine JsDate Helpers Run Spec EngineFacts.
Context {host : Host}.

Local Open Scope string_scope.

(** C3 (amended): the manager lookup takes an agent id and the run date
    only (no level, no scheme start date).  It returns the details of the
    first hierarchy record, in input order, whose [Sales Employee] is the
    agent id itself (same case) and whose window contains the run date:
    [Reports From] parses and is at most the run date, and [Reports To] is
    missing, unparseable or at least the run date.  It returns null, never
    an error, when the agent id is empty or no record qualifies. *)
Theorem C3_findManager_first_record_covering_run_date
    (hierarchyData : list CsvRow) (agentId : JsVal) (runAsOfDate : Z) :
  findManager hierarchyData agentId runAsOfDate
  = if truthy agentId
    then option_map detailsOf
           (find (coversDate agentId (utcMidnight runAsOfDate)) hierarchyData)
    else None.
Proof.
  unfold findManager. destruct (truthy agentId); [|reflexivity]. cbn [negb].
  induction hierarchyData as [|record rest IH]; [reflexivity|].
  cbn [findManager_loop find]. unfold coversDate at 1.
  destruct (strict_eq (field record "Sales Employee") agentId); cbn [andb];
    [|exact IH].
  destruct (parseDate (field record "Reports From")) as [f|]; cbn [andb].
  - destruct (f <=? utcMidnight runAsOfDate)%Z; cbn [andb]; [|exact IH].
    destruct (parseDate (field record "Reports To")) as [e|].
    + destruct (utcMidnight runAsOfDate <=? e)%Z; [reflexivity|exact IH].
    + reflexivity.
  - exact IH.
Qed.

End HierarchyLookup.

(** ** Record-level rules (C5, C6) *)

Section RecordRules.
Import Js Engine JsDate Helpers Run Spec EngineFacts.
Context {host : Host}.

Local Open Scope string_scope.

(** C5 (amended): for a record whose base amount parses, exclusion rules
    are evaluated in declared order; the first rule that matches excludes
    the record and ends the exclusion loop.  The record then gets exactly
    one log entry, the exclusion entry of that rule, whatever adjustment
    rules are declared; it adds nothing to the agent's total adjusted
    amount and does not become a processed record.  (A record whose
    amount does not parse is dropped with a data error before any
    exclusion rule is looked at.) *)
Theorem C5_first_matching_exclusion_rule_excludes
    (scheme : Scheme) (agentId : string) (st : RecordLoop) (record : RecordObj)
    (baseAmount : Decimal) (before after : list Rule) (rule : Rule) :
  initialAmount scheme record = Some baseAmount ->
  exclusionRules scheme = (before ++ rule :: after)%list ->
  (forall r, In r before -> exclusionRuleMatches scheme record r = false) ->
  exclusionRuleMatches scheme record rule = true ->
  (exists recordValue,
      recordEntries (processRecord scheme agentId st record)
      = (recordEntries st ++
         [LogExclusion (rule_id rule) (prop record "recordInternalId") agentId
            (rule_field rule) recordValue (rule_operator rule) (rule_value rule)])%list)
  /\ adjustedTotal (processRecord scheme agentId st record) = adjustedTotal st
  /\ processedRecords (processRecord scheme agentId st record) = processedRecords st.
Proof.
  intros Hamt Hrules Hbefore Hrule.
  destruct (exclusionLoop_first scheme agentId record rule after before Hbefore Hrule)
    as [recordValue E].
  unfold processRecord. rewrite Hamt, Hrules, E. cbn.
  split; [exists recordValue; reflexivity|split; reflexivity].
Qed.

(** C6: for a record whose base amount parses and that no exclusion rule
    matches, the adjustment rules are applied in declared order starting
    from [currentAmount = base amount] and [rateMultiplier = 1]; a rule
    whose condition holds of the record's fields updates the running
    state (Amount/percentage adds [currentAmount * value / 100],
    Amount/fixed adds [value], Rate/percentage multiplies the multiplier
    by [value / 100], Rate/fixed multiplies it by [value]); the final
    adjusted amount, added to the agent's total and stored on the record,
    is [currentAmount * rateMultiplier]. *)
Theorem C6_adjustments_compose_in_declared_order
    (scheme : Scheme) (agentId : string) (st : RecordLoop) (record : RecordObj)
    (baseAmount : Decimal) :
  initialAmount scheme record = Some baseAmount ->
  (forall r, In r (exclusionRules scheme) ->
             exclusionRuleMatches scheme record r = false) ->
  adjustedTotal (processRecord scheme agentId st record)
  = Dec.add (adjustedTotal st) (adjustedAmountSpec scheme record baseAmount)
  /\ processedRecords (processRecord scheme agentId st record)
     = (processedRecords st ++
        [set record "adjustedAmount"
           (VDec (adjustedAmountSpec scheme record baseAmount))])%list.
Proof.
  intros Hamt Hnone.
  unfold processRecord, adjustedAmountSpec.
  rewrite Hamt, (exclusionLoop_none scheme agentId record _ Hnone).
  pose proof (adjustmentLoop_adjustInOrder scheme agentId record
                (adjustmentRules scheme) baseAmount Dec.one (recordEntries st)) as E.
  destruct (adjustmentLoop _ agentId record (adjustmentRules scheme) baseAmount
              Dec.one (recordEntries st)) as [[c m] entries].
  simpl in E. rewrite <- E. cbn. split; reflexivity.
Qed.

End RecordRules.


(** ** Payout and credit distribution of an agent (C1, C2, C10) *)

Section AgentStages.
Import Js Engine JsDate Helpers Run Spec EngineFacts StageFacts DecFacts TierFacts.
Context {host : Host}.

Local Open Scope string_scope.

(** The outcome of an agent is the outcome of the payout stage on the
    agent's total and qualification. *)
Lemma agentOutcome_spec scheme rules fields agentId agentRecords :
  let entries :=
    snd (qualificationLoop scheme agentId
           (processedRecords (recordLoop scheme agentId agentRecords))
           rules fields []) in
  let stage :=
    payoutStage scheme agentId
      (qualifiedByRules scheme rules fields agentId agentRecords)
      (totalOf scheme agentId agentRecords) entries in
  match agentOutcome scheme rules fields agentId agentRecords with
  | Some out =>
      stage = Some (payout (info out), logs (info out))
      /\ qualified (info out)
         = qualifiedByRules scheme rules fields agentId agentRecords
      /\ totalAdjustedAmount (info out) = totalOf scheme agentId agentRecords
  | None => stage = None
  end.
Proof.
  cbv zeta. unfold agentOutcome, qualifiedByRules, totalOf.
  destruct (qualificationLoop _ _ _ rules fields []) as [[[q r] f] e].
  cbn [fst snd].
  destruct (payoutStage scheme agentId q _ e) as [[p e']|]; [|reflexivity].
  cbn. repeat split.
Qed.

Lemma processAgent_outcome scheme hier run st agentId agentRecords out :
  agentOutcome scheme (st_rules st) (st_fields st) agentId agentRecords = Some out ->
  processAgent scheme hier run st (agentId, agentRecords)
  = Some (concludeAgent scheme hier run st agentId out).
Proof. intros H. unfold processAgent. cbn [fst snd]. rewrite H. reflexivity. Qed.

Lemma quotaOf_positive scheme : (0 < quotaAmount scheme)%Q ->
  quotaOf scheme = Dec.of_number (quotaAmount scheme)
  /\ Dec.gt (quotaOf scheme) (Dec.of_Z 0) = true.
Proof.
  intros Hq. unfold quotaOf.
  assert (E : Qeq_bool (quotaAmount scheme) 0 = false).
  { destruct (Qeq_bool (quotaAmount scheme) 0) eqn:E; [|reflexivity].
    apply Qeq_bool_iff in E. lra. }
  rewrite E. split; [reflexivity|].
  unfold Dec.gt, Dec.of_number, Dec.of_Z, Dec.cmp.
  destruct (Qred (quotaAmount scheme) ?= inject_Z 0)%Q eqn:C; [| |reflexivity];
    qcmp C; rewrite Qred_correct in C; change (inject_Z 0) with 0%Q in C; lra.
Qed.

Lemma gte_not_lt x y : Dec.gte x y = true -> Dec.lt x y = false.
Proof.
  unfold Dec.gte, Dec.lt. destruct (Dec.cmp x y) as [[]|]; auto; discriminate.
Qed.

(** C10: when the scheme declares a quota above zero, a qualified agent
    whose total adjusted amount is below the quota gets payout "0.00": the
    last entry of the agent's log is the failed quota entry and the log
    has no tier calculation; a qualified agent whose total reaches the
    quota is paid the tiers applied to the full total (the outcome of the
    agent is the outcome of [calculateTieredPayout] on the full total). *)
Theorem C10_quota_is_a_gate_on_the_full_amount
    (scheme : Scheme) (hierarchyData : list CsvRow) (runAsOfDate : Z)
    (st : RunState) (agentId : string) (agentRecords : list RecordObj) :
  let outcome :=
    agentOutcome scheme (st_rules st) (st_fields st) agentId agentRecords in
  let total := totalOf scheme agentId agentRecords in
  let quota := Dec.of_number (quotaAmount scheme) in
  (0 < quotaAmount scheme)%Q ->
  qualifiedByRules scheme (st_rules st) (st_fields st) agentId agentRecords = true ->
  (Dec.lt total quota = true ->
     exists out st',
       outcome = Some out
       /\ qualified (info out) = true
       /\ totalAdjustedAmount (info out) = total
       /\ processAgent scheme hierarchyData runAsOfDate st (agentId, agentRecords)
          = Some st'
       /\ get (st_payouts st') agentId = Some "0.00"
       /\ payout (info out) = Dec.of_Z 0
       /\ (exists earlier,
             logs (info out) = (earlier ++ [LogQuota agentId false total quota])%list)
       /\ noPayoutEntry (logs (info out)))
  /\ (Dec.gte total quota = true ->
        option_map (fun out => payout (info out)) outcome
        = calculateTieredPayout total (payoutTiers scheme)
        /\ forall out, outcome = Some out ->
             qualified (info out) = true
             /\ totalAdjustedAmount (info out) = total).
Proof.
  cbv zeta. intros Hq Hqual.
  pose proof (agentOutcome_spec scheme (st_rules st) (st_fields st) agentId
                agentRecords) as S.
  cbv zeta in S. rewrite Hqual in S.
  destruct (quotaOf_positive scheme Hq) as [Equota Hgt].
  pose proof (qualificationLoop_noPayoutEntry scheme agentId
                (processedRecords (recordLoop scheme agentId agentRecords))
                (st_rules st) (st_fields st) [] (fun e H => match H with end)) as Hno.
  unfold payoutStage in S. rewrite Hgt, Equota in S.
  split.
  - intros Hlt. rewrite Hlt in S.
    destruct (agentOutcome scheme (st_rules st) (st_fields st) agentId agentRecords)
      as [out|] eqn:E; [|discriminate S].
    destruct S as (S & Sq & St). injection S as Ep El.
    exists out, (concludeAgent scheme hierarchyData runAsOfDate st agentId out).
    split; [reflexivity|]. split; [exact Sq|]. split; [exact St|].
    split; [apply processAgent_outcome; exact E|].
    split; [|split; [symmetry; exact Ep|split]].
    + unfold concludeAgent. cbn [st_payouts]. rewrite get_set_same, <- Ep.
      reflexivity.
    + eexists. rewrite <- El. reflexivity.
    + rewrite <- El. apply noPayoutEntry_app; [exact Hno|reflexivity].
  - intros Hge. apply gte_not_lt in Hge. rewrite Hge in S.
    destruct (agentOutcome scheme (st_rules st) (st_fields st) agentId agentRecords)
      as [out|] eqn:E.
    + destruct S as (S & Sq & St). split.
      * destruct (calculateTieredPayout _ _) as [p|]; [|discriminate S].
        injection S as Ep _. rewrite Ep. reflexivity.
      * intros out' Hout. injection Hout as <-.
        split; [exact Sq|exact St].
    + split; [|intros out' Hout; discriminate Hout].
      destruct (calculateTieredPayout _ _) as [p|]; [discriminate S|reflexivity].
Qed.

(** C2 (amended): the engine has no rule for totals that do not exceed
    zero.  For an agent whose total adjusted amount is at most zero the
    payout is "0.00", provided every payout tier has a [to] and none
    starts below zero.  The agent is qualified or not as the
    qualification rules decide for any agent: not qualified exactly when
    the agent's log holds a disqualification entry, which follows a failed
    rule, and qualified when there are no rules.  No zero-credit skip is
    logged: the log of a qualified agent that no positive quota stops ends
    with the ordinary tier calculation entry, of payout "0.00". *)
Theorem C2_nonpositive_total_pays_zero
    (scheme : Scheme) (hierarchyData : list CsvRow) (runAsOfDate : Z)
    (st : RunState) (agentId : string) (agentRecords : list RecordObj) :
  let total := totalOf scheme agentId agentRecords in
  let isQualified :=
    qualifiedByRules scheme (st_rules st) (st_fields st) agentId agentRecords in
  Dec.lte total (Dec.of_Z 0) = true ->
  allBounded (payoutTiers scheme) ->
  (forall t, In t (payoutTiers scheme) -> (0 <= tier_from t)%Q) ->
  exists out st',
    agentOutcome scheme (st_rules st) (st_fields st) agentId agentRecords = Some out
    /\ processAgent scheme hierarchyData runAsOfDate st (agentId, agentRecords)
       = Some st'
    /\ get (st_payouts st') agentId = Some "0.00"
    /\ qualified (info out) = isQualified
    /\ (isQualified = false
        <-> exists ruleId, In (LogDisqualified agentId ruleId) (logs (info out)))
    /\ (isQualified = false ->
        exists before ruleId field operator value evaluated,
          logs (info out)
          = (before ++
             [LogQualification ruleId agentId false field operator value evaluated;
              LogDisqualified agentId ruleId])%list)
    /\ (st_rules st = [] -> isQualified = true)
    /\ (isQualified = true -> (quotaAmount scheme <= 0)%Q ->
        exists earlier,
          logs (info out)
          = (earlier ++
             [LogPayoutCalculation agentId (DecFormat.toFixed2 total) "0.00"
                (payoutTiers scheme)])%list).
Proof.
  cbv zeta. intros Hle Hb Hfrom.
  pose proof (agentOutcome_spec scheme (st_rules st) (st_fields st) agentId
                agentRecords) as S.
  cbv zeta in S.
  assert (Hcalc : calculateTieredPayout (totalOf scheme agentId agentRecords)
                    (payoutTiers scheme) = Some Dec.zero).
  { unfold calculateTieredPayout. apply tier_loop_nonpositive.
    - intros t Ht. apply Hb. apply sort_tiers_In. exact Ht.
    - exact Hle.
    - intros t Ht. apply Hfrom. apply sort_tiers_In. exact Ht. }
  pose proof (qualificationLoop_shape scheme agentId
                (processedRecords (recordLoop scheme agentId agentRecords))
                (st_rules st) (st_fields st) []) as Shape.
  assert (Hrules : st_rules st = [] ->
            qualifiedByRules scheme (st_rules st) (st_fields st) agentId agentRecords
            = true).
  { intros E. unfold qualifiedByRules. rewrite E. reflexivity. }
  unfold qualifiedByRules in *.
  destruct (qualificationLoop scheme agentId
              (processedRecords (recordLoop scheme agentId agentRecords))
              (st_rules st) (st_fields st) []) as [[[q rules'] fields'] entries].
  cbn [fst snd] in *. destruct Shape as (added & Fadded & Shape).
  assert (Hstage : exists p es,
             payoutStage scheme agentId q (totalOf scheme agentId agentRecords) entries
             = Some (p, es)
             /\ DecFormat.toFixed2 p = "0.00"
             /\ (q = true -> exists more, es = (entries ++ more)%list
                                          /\ Forall passes more)
             /\ (q = false -> es = entries)
             /\ (q = true -> (quotaAmount scheme <= 0)%Q ->
                 es = (entries ++
                       [LogPayoutCalculation agentId
                          (DecFormat.toFixed2 (totalOf scheme agentId agentRecords))
                          "0.00" (payoutTiers scheme)])%list)).
  { unfold payoutStage. destruct q.
    - destruct (Dec.gt (quotaOf scheme) (Dec.of_Z 0)) eqn:G.
      + assert (Hpos : ~ (quotaAmount scheme <= 0)%Q).
        { intros Hn. unfold quotaOf in G.
          destruct (Qeq_bool (quotaAmount scheme) 0); [discriminate G|].
          unfold Dec.gt, Dec.of_number, Dec.of_Z, Dec.cmp in G.
          destruct (Qred (quotaAmount scheme) ?= inject_Z 0)%Q eqn:C;
            try discriminate G.
          apply Qgt_alt in C. rewrite Qred_correct in C.
          change (inject_Z 0) with 0%Q in C. lra. }
        destruct (Dec.lt _ _).
        * eexists _, _. split; [reflexivity|]. split; [reflexivity|].
          split; [intros _; eexists; split;
                  [reflexivity|constructor; [exact I|constructor]]|].
          split; [discriminate|]. intros _ Hn. contradiction.
        * rewrite Hcalc. eexists _, _. split; [reflexivity|]. split; [reflexivity|].
          split; [intros _; eexists; split;
                  [rewrite <- app_assoc; reflexivity
                  |constructor; [exact I|constructor; [exact I|constructor]]]|].
          split; [discriminate|]. intros _ Hn. contradiction.
      + rewrite Hcalc. eexists _, _. split; [reflexivity|]. split; [reflexivity|].
        split; [intros _; eexists; split;
                [reflexivity|constructor; [exact I|constructor]]|].
        split; [discriminate|]. intros _ _. reflexivity.
    - eexists _, _. split; [reflexivity|]. split; [reflexivity|].
      split; [discriminate|]. split; [reflexivity|]. discriminate. }
  destruct Hstage as (p & es & Hstage & Hp & Hq1 & Hq0 & Hquota).
  rewrite Hstage in S.
  destruct (agentOutcome scheme (st_rules st) (st_fields st) agentId agentRecords)
    as [out|] eqn:E; [|discriminate S].
  destruct S as (S & Sq & St). injection S as Ep El.
  exists out, (concludeAgent scheme hierarchyData runAsOfDate st agentId out).
  split; [reflexivity|]. split; [apply processAgent_outcome; exact E|].
  split; [unfold concludeAgent; cbn [st_payouts]; rewrite get_set_same, <- Ep, Hp;
          reflexivity|].
  split; [exact Sq|]. rewrite <- El.
  split; [|split; [|split; [exact Hrules|]]].
  - split.
    + intros ->. rewrite (Hq0 eq_refl).
      destruct Shape as (rid & fld & op & v & ev & ->).
      exists rid. simpl. apply in_or_app. right. right. left. reflexivity.
    + intros [rid Hin]. destruct q; [|reflexivity]. exfalso.
      destruct (Hq1 eq_refl) as (more & -> & Fmore).
      simpl in Shape. subst entries.
      assert (F : Forall passes (added ++ more)%list)
        by (apply Forall_app; split; assumption).
      rewrite Forall_forall in F. exact (F _ Hin).
  - intros ->. rewrite (Hq0 eq_refl).
    destruct Shape as (rid & fld & op & v & ev & ->).
    exists added, rid, fld, op, v, ev. reflexivity.
  - intros Hq Hn. rewrite (Hquota Hq Hn). eexists. reflexivity.
Qed.

(** C1 (amended): for a qualified agent A with base payout above zero
    (and hierarchy data present), every declared credit split whose target
    resolves and whose amount [basePayout * percentage / 100] is above
    zero is recorded in [creditDistributions] under A's own id, the
    originating agent, with the resolved target as [toAgent] and the
    amount formatted to two decimals; no other key of
    [creditDistributions] is written. *)
Theorem C1_distribution_recorded_under_originating_agent
    (scheme : Scheme) (hierarchyData : list CsvRow) (runAsOfDate : Z)
    (st : RunState) (agentId : string) (agentRecords : list RecordObj)
    (out : AgentOutcome)
    (before after : list CreditSplit) (splitRule : CreditSplit) :
  let basePayout := payout (info out) in
  let reached :=
    fold_left (splitStep scheme hierarchyData runAsOfDate agentId basePayout) before
      {| currentAgentForLookup := VStr agentId; level := 1;
         splitEntries := match get (st_credit st) agentId with
                         | Some existing => existing
                         | None => []
                         end |} in
  let res := resolveTarget scheme hierarchyData runAsOfDate agentId reached splitRule in
  agentOutcome scheme (st_rules st) (st_fields st) agentId agentRecords = Some out ->
  qualified (info out) = true ->
  Dec.gt basePayout (Dec.of_Z 0) = true ->
  hierarchyData <> [] ->
  creditSplits scheme = (before ++ splitRule :: after)%list ->
  truthy (targetAgentId res) = true ->
  Dec.gt (creditAmount basePayout splitRule) (Dec.of_Z 0) = true ->
  exists st',
    processAgent scheme hierarchyData runAsOfDate st (agentId, agentRecords) = Some st'
    /\ (exists entries,
          get (st_credit st') agentId = Some entries
          /\ In (LogDistribution agentId (targetAgentId res) (role splitRule)
                   (percentage splitRule)
                   (DecFormat.toFixed2
                      (Dec.div
                         (Dec.times basePayout (Dec.of_number (percentage splitRule)))
                         (Dec.of_Z 100)))
                   (resolvedUsing res)
                   (option_map (fun d => (validFrom d, validTo d))
                      (managerDetails res)))
                entries)
    /\ (forall other, other <> agentId ->
          get (st_credit st') other = get (st_credit st) other).
Proof.
  cbv zeta. intros Hout Hqual Hpay Hhier Hsplits Htarget Hamount.
  exists (concludeAgent scheme hierarchyData runAsOfDate st agentId out).
  split; [apply processAgent_outcome; exact Hout|].
  unfold concludeAgent. cbn [st_credit].
  rewrite Hqual, Hpay, Hsplits.
  assert (Hlen1 : negb (Nat.eqb (List.length hierarchyData) 0) = true)
    by (destruct hierarchyData; [congruence|reflexivity]).
  assert (Hlen2 : negb (Nat.eqb (List.length (before ++ splitRule :: after)) 0) = true)
    by (destruct before; reflexivity).
  rewrite Hlen1, Hlen2. cbn [andb].
  split.
  - eexists. split; [apply get_set_same|].
    unfold creditSplitLoop. rewrite Hsplits, fold_left_app. cbn [fold_left].
    match goal with
    | |- In _ (splitEntries (fold_left ?f after ?s)) =>
        destruct (splitFold_appends scheme hierarchyData runAsOfDate agentId
                    (payout (info out)) after s) as [extra E]
    end.
    rewrite E. apply in_or_app. left.
    rewrite (splitStep_resolved _ _ _ _ _ _ _ Htarget Hamount).
    cbn [appendEntry splitEntries]. apply in_or_app. right. left. reflexivity.
  - intros other Hne. apply get_set_other. exact Hne.
Qed.

End AgentStages.

(** ** Fatal errors (C9) *)

Section FatalErrors.
Import Js Engine JsDate Helpers Run Spec EngineFacts.
Context {host : Host}.

Local Open Scope string_scope.

Lemma setUTCHours0_idem t : setUTCHours0 (setUTCHours0 t) = setUTCHours0 t.
Proof.
  unfold setUTCHours0. rewrite Z.div_mul; [reflexivity|].
  unfold msPerDay. lia.
Qed.

(** What [parseDate] returns is a UTC midnight. *)
Lemma parseDate_midnight v d : parseDate v = Some d -> setUTCHours0 d = d.
Proof.
  unfold parseDate. destruct v; try discriminate.
  destruct (String.eqb s ""); [discriminate|].
  destruct (Date_parse s); [|discriminate].
  intros H. injection H as <-. apply setUTCHours0_idem.
Qed.



End FatalErrors.

(** ** Further properties: [calculateTieredPayout] *)

Module TierOrderFacts.
Import DecOrder DecFacts TierFacts Engine Helpers Spec.

Lemma tier_loop_below amount b : forall l total,
  allBounded l ->
  Dec.lte amount (DFin b) = true ->
  (forall t, In t l -> (b <= tier_from t)%Q) ->
  tier_loop amount l total = Some total.
Proof.
  induction l as [|tier rest IH]; intros total B Hle Hf; [reflexivity|].
  cbn [tier_loop].
  destruct (tier_to tier) as [e|] eqn:E;
    [|exfalso; exact (B tier (or_introl eq_refl) E)].
  rewrite (tierTo_bounded tier e E), of_number_fin.
  rewrite (slice_zero_beyond amount b tier _ Hle (Hf tier (or_introl eq_refl))).
  change (Dec.isZero Dec.zero) with true. cbn [andb].
  destruct (Dec.gt amount (DFin (Qred e))).
  - apply IH; [|exact Hle|].
    + intros x Hx. apply B. right. exact Hx.
    + intros x Hx. apply Hf. right. exact Hx.
  - assert (L : Dec.lte amount (Dec.of_number (tier_from tier)) = true).
    { rewrite of_number_fin. destruct amount as [|s|a]; try discriminate.
      - destruct s; [reflexivity|discriminate].
      - apply le_lte. simpl.
        pose proof (lte_fin _ _ Hle) as Ha.
        rewrite Qred_correct.
        pose proof (Hf tier (or_introl eq_refl)). lra. }
    rewrite L. reflexivity.
Qed.

(** *** The sort *)

Lemma insert_tier_perm t : forall l, Permutation (insert_tier t l) (t :: l).
Proof.
  induction l as [|h r IH]; simpl; [reflexivity|].
  destruct (Qle_bool (tier_from t) (tier_from h)); [reflexivity|].
  rewrite IH. apply perm_swap.
Qed.

Lemma sort_tiers_perm : forall l, Permutation (sort_tiers l) l.
Proof.
  induction l as [|t r IH]; simpl; [reflexivity|].
  rewrite insert_tier_perm. constructor. exact IH.
Qed.

Lemma insert_tier_ascending t : forall l,
  ascendingFrom l -> ascendingFrom (insert_tier t l).
Proof.
  induction l as [|h r IH]; intros H; [exact I|].
  cbn [insert_tier].
  destruct (Qle_bool (tier_from t) (tier_from h)) eqn:E.
  - split; [apply Qle_bool_iff; exact E|exact H].
  - assert (Hlt : (tier_from h <= tier_from t)%Q).
    { destruct (Qlt_le_dec (tier_from h) (tier_from t)) as [L | L];
        [apply Qlt_le_weak; exact L|].
      apply Qle_bool_iff in L. congruence. }
    pose proof (IH (ascending_tail h r H)) as A.
    destruct r as [|h2 r2].
    + simpl. split; [exact Hlt|exact I].
    + cbn [insert_tier] in *.
      destruct (Qle_bool (tier_from t) (tier_from h2)).
      * split; [exact Hlt|exact A].
      * split; [exact (proj1 H)|exact A].
Qed.

Lemma sort_tiers_ascending : forall l, ascendingFrom (sort_tiers l).
Proof.
  induction l as [|t r IH]; [exact I|].
  simpl. apply insert_tier_ascending. exact IH.
Qed.

(** Two ascending lists with the same tiers are the same list, when tiers
    that start at the same amount are the same tier. *)
Lemma ascending_unique : forall l1 l2,
  Permutation l1 l2 ->
  (forall x y, In x l1 -> In y l1 -> (tier_from x == tier_from y)%Q -> x = y) ->
  ascendingFrom l1 -> ascendingFrom l2 -> l1 = l2.
Proof.
  induction l1 as [|a r1 IH]; intros l2 P D A1 A2.
  - apply Permutation_nil in P. symmetry. exact P.
  - destruct l2 as [|b r2].
    + apply Permutation_sym, Permutation_nil in P. discriminate P.
    + assert (Hab : a = b).
      { assert (Hb : In b (a :: r1))
          by (apply (Permutation_in _ (Permutation_sym P)); left; reflexivity).
        assert (Ha : In a (b :: r2))
          by (apply (Permutation_in _ P); left; reflexivity).
        destruct Hb as [Hb | Hb]; [exact Hb|].
        destruct Ha as [Ha | Ha]; [symmetry; exact Ha|].
        apply D; [left; reflexivity|right; exact Hb|].
        apply Qle_antisym.
        - apply (ascending_head a r1 A1 b Hb).
        - apply (ascending_head b r2 A2 a Ha). }
      subst b. f_equal.
      apply IH.
      * apply (Permutation_cons_inv P).
      * intros x y Hx Hy. apply D; right; assumption.
      * apply (ascending_tail a r1 A1).
      * apply (ascending_tail a r2 A2).
Qed.

Lemma sort_tiers_permuted l1 l2 :
  Permutation l1 l2 ->
  (forall x y, In x l1 -> In y l1 -> (tier_from x == tier_from y)%Q -> x = y) ->
  sort_tiers l1 = sort_tiers l2.
Proof.
  intros P D. apply ascending_unique.
  - rewrite sort_tiers_perm, P. symmetry. apply sort_tiers_perm.
  - intros x y Hx Hy. apply D; apply sort_tiers_In; assumption.
  - apply sort_tiers_ascending.
  - apply sort_tiers_ascending.
Qed.

End TierOrderFacts.

Section TierProperties.
Import DecOrder DecFacts TierFacts TierOrderFacts Engine Helpers Spec.

(** X10: the order in which a scheme declares its payout tiers does not
    matter, provided no two different tiers start at the same amount:
    the payout for a rearranged tier list is the same. *)
Theorem X10_payout_does_not_depend_on_the_order_of_the_tiers
    (amount : Decimal) (tiers tiers' : list PayoutTier) :
  Permutation tiers tiers' ->
  (forall x y, In x tiers -> In y tiers ->
               (tier_from x == tier_from y)%Q -> x = y) ->
  calculateTieredPayout amount tiers = calculateTieredPayout amount tiers'.
Proof.
  intros P D. unfold calculateTieredPayout.
  rewrite (sort_tiers_permuted tiers tiers' P D). reflexivity.
Qed.

(** X11: when every tier has a [to] and no tier has a negative rate, the
    payout for a finite amount is returned and is a finite amount that is
    not negative, whatever the bounds of the tiers are and whether they
    overlap or leave gaps. *)
Theorem X11_payout_is_not_negative_for_rates_that_are_not_negative
    (a : Q) (tiers : list PayoutTier) :
  allBounded tiers ->
  (forall t, In t tiers -> (0 <= tier_rate t)%Q) ->
  exists p, calculateTieredPayout (DFin a) tiers = Some (DFin p) /\ (0 <= p)%Q.
Proof.
  intros B Hr. unfold calculateTieredPayout, Dec.zero.
  assert (Bs : allBounded (sort_tiers tiers))
    by (intros t Ht; apply B; apply sort_tiers_In; exact Ht).
  destruct (tier_loop_returns (DFin a) (sort_tiers tiers) (DFin 0) Bs) as [r E].
  assert (Hrs : forall x, In x (sort_tiers tiers) -> (0 <= tier_rate x)%Q)
    by (intros x Hx; apply Hr; apply sort_tiers_In; exact Hx).
  pose proof (tier_loop_ge (sort_tiers tiers) a 0 Hrs rounded_zero) as G.
  rewrite E in G. destruct G as [Hle _].
  destruct r as [| |p]; simpl in Hle; try contradiction.
  exists p. split; [exact E|exact Hle].
Qed.

(** X12: when every tier has a [to], an amount that does not exceed the
    start of any tier earns nothing: the payout is zero, also when the
    amount equals the lowest [from]. *)
Theorem X12_amount_up_to_the_lowest_tier_start_pays_zero
    (amount : Decimal) (bound : Q) (tiers : list PayoutTier) :
  allBounded tiers ->
  Dec.lte amount (DFin bound) = true ->
  (forall t, In t tiers -> (bound <= tier_from t)%Q) ->
  calculateTieredPayout amount tiers = Some Dec.zero.
Proof.
  intros B Hle Hf. unfold calculateTieredPayout.
  apply tier_loop_below with (b := bound); [|exact Hle|].
  - intros t Ht. apply B. apply sort_tiers_In. exact Ht.
  - intros t Ht. apply Hf. apply sort_tiers_In. exact Ht.
Qed.

End TierProperties.

(** ** Further properties: [parseCSV] *)

Module CsvFacts.
Import Js Engine JsDate Helpers Run Extra.

Local Open Scope string_scope.

Lemma get_set_cases {A : Type} (o : Obj A) k v k' :
  get (set o k v) k' = if String.eqb k k' then Some v else get o k'.
Proof.
  induction o as [|[k0 v0] r IH]; simpl.
  - reflexivity.
  - destruct (String.eqb k0 k) eqn:E; simpl.
    + apply String.eqb_eq in E. subst k0.
      destruct (String.eqb k k'); reflexivity.
    + destruct (String.eqb k0 k') eqn:E'.
      * apply String.eqb_eq in E'. subst k0.
        rewrite String.eqb_sym, E. reflexivity.
      * exact IH.
Qed.

Lemma fold_set_other : forall (l : list (string * string)) (o : CsvRow) k,
  ~ In k (List.map fst l) ->
  get (fold_left setCell l o) k = get o k.
Proof.
  induction l as [|[h x] r IH]; intros o k H; simpl; [reflexivity|].
  rewrite IH by (intros Hin; apply H; right; exact Hin).
  unfold setCell. simpl. rewrite get_set_cases.
  destruct (String.eqb h k) eqn:E; [|reflexivity].
  apply String.eqb_eq in E. exfalso. apply H. left. exact E.
Qed.

Lemma fold_set_defined : forall (l : list (string * string)) (o : CsvRow) k,
  In k (List.map fst l) \/ (exists v, get o k = Some v) ->
  exists v, get (fold_left setCell l o) k = Some v.
Proof.
  induction l as [|[h x] r IH]; intros o k H; simpl.
  - destruct H as [[] | H]; exact H.
  - apply IH. unfold setCell. simpl fst. simpl snd. rewrite get_set_cases.
    destruct (String.eqb h k) eqn:E.
    + right. eexists. reflexivity.
    + destruct H as [[H | H] | H].
      * simpl in H. subst h. rewrite String.eqb_refl in E. discriminate.
      * left. exact H.
      * right. exact H.
Qed.

Lemma fold_set_keys : forall (l : list (string * string)) (o : CsvRow) k v,
  get (fold_left setCell l o) k = Some v ->
  In k (List.map fst l) \/ (exists v', get o k = Some v').
Proof.
  induction l as [|[h x] r IH]; intros o k v H; simpl in *.
  - right. eexists. exact H.
  - destruct (IH _ _ _ H) as [Hin | [v' Hv']].
    + left. right. exact Hin.
    + unfold setCell in Hv'. simpl in Hv'. rewrite get_set_cases in Hv'.
      destruct (String.eqb h k) eqn:E.
      * apply String.eqb_eq in E. left. left. exact E.
      * right. eexists. exact Hv'.
Qed.

(** The last pair with key [k] decides the value under [k]. *)
Lemma fold_set_last : forall (l : list (string * string)) (o : CsvRow) i k v,
  nth_error l i = Some (k, v) ->
  (forall j k' v', (i < j)%nat -> nth_error l j = Some (k', v') -> k' <> k) ->
  get (fold_left setCell l o) k = Some v.
Proof.
  induction l as [|[h x] r IH]; intros o i k v Hi Hlast.
  - destruct i; discriminate.
  - destruct i as [|i]; simpl in Hi.
    + injection Hi as -> ->. simpl.
      rewrite fold_set_other.
      * unfold setCell. simpl. rewrite get_set_cases, String.eqb_refl. reflexivity.
      * intros Hin. apply in_map_iff in Hin. destruct Hin as ([k' v'] & Hk & Hin).
        simpl in Hk. subst k'.
        apply In_nth_error in Hin. destruct Hin as [j Hj].
        apply (Hlast (S j) k v'); [lia|exact Hj|reflexivity].
    + simpl. apply (IH _ i); [exact Hi|].
      intros j k' v' Hlt Hj. apply (Hlast (S j) k' v'); [lia|exact Hj].
Qed.

Lemma map_fst_combine : forall (hs vs : list string),
  (List.length hs <= List.length vs)%nat ->
  List.map fst (combine hs vs) = hs.
Proof.
  induction hs as [|h r IH]; intros vs H; [reflexivity|].
  destruct vs as [|v vs']; simpl in *; [lia|].
  f_equal. apply IH. lia.
Qed.

Lemma nth_error_combine : forall (hs vs : list string) i h v,
  nth_error (combine hs vs) i = Some (h, v) <->
  nth_error hs i = Some h /\ nth_error vs i = Some v.
Proof.
  induction hs as [|h0 r IH]; intros vs i h v.
  - simpl. destruct i; simpl; split; intros H; try discriminate;
      destruct H; discriminate.
  - destruct vs as [|v0 vs'].
    + simpl. destruct i; simpl; split; intros H; try discriminate;
        destruct H; discriminate.
    + destruct i as [|i]; simpl.
      * split; [intros H; injection H as -> ->; split; reflexivity|].
        intros [H1 H2]. injection H1 as ->. injection H2 as ->. reflexivity.
      * apply IH.
Qed.

(** The rows of [parseCSV] are built from the header cells and the cells
    of a data line that has at least as many cells. *)
Lemma parseCSV_row csvString row :
  In row (parseCSV csvString) ->
  exists line,
    In line (dataLines csvString)
    /\ (List.length (headerCells csvString) <= List.length (cells line))%nat
    /\ row = fold_left setCell (combine (headerCells csvString) (cells line)) [].
Proof.
  unfold parseCSV, headerCells, dataLines, cells.
  destruct (String.eqb csvString ""); [intros []|].
  destruct (List.length (split newline (trim csvString)) <? 2)%nat; [intros []|].
  destruct (split newline (trim csvString)) as [|headerLine rest]; [intros []|].
  intros H. apply in_flat_map in H. destruct H as (line & Hline & H).
  destruct (List.length (List.map trim (split comma line))
            <? List.length (List.map trim (split comma headerLine)))%nat eqn:E;
    [destruct H|].
  destruct H as [<- | []].
  exists line. split; [exact Hline|]. split; [|reflexivity].
  apply Nat.ltb_ge in E. exact E.
Qed.

End CsvFacts.

Section CsvProperties.
Import Js Engine JsDate Helpers Run Extra CsvFacts.

Local Open Scope string_scope.

(** X1: every row that [parseCSV] returns has a value for every header
    cell and no other key: lines with fewer cells than the header are
    skipped and surplus cells are dropped.  (The name [__proto__] is set
    aside: assigning a string to it creates no property.) *)
Theorem X1_parseCSV_rows_have_exactly_the_header_keys
    (csvString : string) (row : CsvRow) (key : string) :
  key <> "__proto__" ->
  In row (parseCSV csvString) ->
  (In key (headerCells csvString) <-> exists v, get row key = Some v).
Proof.
  intros _ Hrow.
  destruct (parseCSV_row csvString row Hrow) as (line & _ & Hlen & ->).
  split.
  - intros Hk. apply fold_set_defined. left.
    rewrite map_fst_combine by exact Hlen. exact Hk.
  - intros [v Hv]. apply fold_set_keys in Hv.
    destruct Hv as [Hin | [v' Hv']].
    + rewrite map_fst_combine in Hin by exact Hlen. exact Hin.
    + discriminate.
Qed.

(** X2: every row that [parseCSV] returns comes from one data line: under
    the header of column [i] it holds the trimmed [i]-th cell of that
    line, and when a header name occurs in several columns, the last of
    them wins. *)
Theorem X2_parseCSV_row_holds_the_cells_of_its_line
    (csvString : string) (row : CsvRow) :
  In row (parseCSV csvString) ->
  exists line,
    In line (dataLines csvString) /\
    forall (i : nat) (header : string),
      header <> "__proto__" ->
      nth_error (headerCells csvString) i = Some header ->
      (forall j, (i < j)%nat ->
                 nth_error (headerCells csvString) j <> Some header) ->
      exists cell,
        nth_error (cells line) i = Some cell /\ get row header = Some cell.
Proof.
  intros Hrow.
  destruct (parseCSV_row csvString row Hrow) as (line & Hline & Hlen & ->).
  exists line. split; [exact Hline|].
  intros i header _ Hi Hlast.
  destruct (nth_error (cells line) i) as [cell|] eqn:Hc.
  - exists cell. split; [reflexivity|].
    apply (fold_set_last _ _ i).
    + apply nth_error_combine. split; assumption.
    + intros j k' v' Hlt Hj ->. apply nth_error_combine in Hj.
      apply (Hlast j Hlt). exact (proj1 Hj).
  - exfalso. apply nth_error_None in Hc.
    assert (i < List.length (headerCells csvString))%nat
      by (apply nth_error_Some; congruence).
    lia.
Qed.

End CsvProperties.

(** ** Further properties: [parseCSV] reads back what was written *)

Module CsvRoundTrip.
Import Js Engine JsDate Helpers Run Extra CsvFacts.

Local Open Scope string_scope.

(** *** Strings *)

Lemma append_nil_r (s : string) : s ++ "" = s.
Proof. induction s as [|c r IH]; simpl; [reflexivity|rewrite IH; reflexivity]. Qed.

Lemma append_assoc (a b c : string) : (a ++ b) ++ c = a ++ (b ++ c).
Proof. induction a as [|x r IH]; simpl; [reflexivity|rewrite IH; reflexivity]. Qed.

Lemma length_append (a b : string) :
  String.length (a ++ b) = (String.length a + String.length b)%nat.
Proof. induction a as [|x r IH]; simpl; [reflexivity|rewrite IH; reflexivity]. Qed.

Lemma chars_append (a b : string) :
  list_ascii_of_string (a ++ b)
  = (list_ascii_of_string a ++ list_ascii_of_string b)%list.
Proof. induction a as [|x r IH]; simpl; [reflexivity|rewrite IH; reflexivity]. Qed.

Lemma rev_aux_app : forall s acc, rev_string_aux s acc = rev_string_aux s "" ++ acc.
Proof.
  induction s as [|c r IH]; intros acc; simpl; [reflexivity|].
  rewrite (IH (String c acc)), (IH (String c "")), append_assoc. reflexivity.
Qed.

Lemma rev_string_cons c s : rev_string (String c s) = rev_string s ++ String c "".
Proof. unfold rev_string. simpl. apply rev_aux_app. Qed.

Lemma rev_string_app : forall a b, rev_string (a ++ b) = rev_string b ++ rev_string a.
Proof.
  induction a as [|c r IH]; intros b; simpl.
  - rewrite append_nil_r. reflexivity.
  - rewrite !rev_string_cons, IH, append_assoc. reflexivity.
Qed.

Lemma rev_string_involutive : forall s, rev_string (rev_string s) = s.
Proof.
  induction s as [|c r IH]; [reflexivity|].
  rewrite rev_string_cons, rev_string_app, IH. reflexivity.
Qed.

Lemma length_rev_string : forall s, String.length (rev_string s) = String.length s.
Proof.
  induction s as [|c r IH]; [reflexivity|].
  rewrite rev_string_cons, length_append, IH. simpl. lia.
Qed.

(** *** Trimming *)

Lemma trimStart_firstOk s : firstOk s -> trimStart s = s.
Proof. destruct s as [|c r]; simpl; [reflexivity|]. intros ->. reflexivity. Qed.

Lemma length_trimStart : forall s,
  (String.length (trimStart s) <= String.length s)%nat.
Proof.
  induction s as [|c r IH]; simpl; [lia|].
  destruct (is_ws c); simpl; lia.
Qed.

Lemma trimStart_shorter s :
  ~ firstOk s -> (String.length (trimStart s) < String.length s)%nat.
Proof.
  destruct s as [|c r]; simpl; [tauto|].
  destruct (is_ws c); [|congruence]. intros _.
  pose proof (length_trimStart r). lia.
Qed.

Lemma firstOk_dec s : firstOk s \/ ~ firstOk s.
Proof.
  destruct s as [|c r]; simpl; [left; exact I|].
  destruct (is_ws c); [right; discriminate|left; reflexivity].
Qed.

Lemma trim_okEnds s : okEnds s -> trim s = s.
Proof.
  intros (_ & H1 & H2). unfold trim.
  rewrite (trimStart_firstOk s H1), (trimStart_firstOk _ H2).
  apply rev_string_involutive.
Qed.

Lemma trimmed_okEnds s : s <> "" -> trim s = s -> okEnds s.
Proof.
  intros Hne Ht. split; [exact Hne|].
  assert (L : String.length (trim s) = String.length s) by (rewrite Ht; reflexivity).
  unfold trim in L. rewrite length_rev_string in L.
  pose proof (length_trimStart s) as L1.
  pose proof (length_trimStart (rev_string (trimStart s))) as L2.
  rewrite length_rev_string in L2.
  destruct (firstOk_dec s) as [H1 | H1].
  - split; [exact H1|]. rewrite (trimStart_firstOk s H1) in L.
    destruct (firstOk_dec (rev_string s)) as [H2 | H2]; [exact H2|].
    apply trimStart_shorter in H2. rewrite length_rev_string in H2. lia.
  - apply trimStart_shorter in H1. lia.
Qed.

Lemma firstOk_app a b : a <> "" -> firstOk a -> firstOk (a ++ b).
Proof. destruct a as [|c r]; [congruence|]. simpl. tauto. Qed.

Lemma rev_string_nonempty s : s <> "" -> rev_string s <> "".
Proof.
  intros H E. apply H. rewrite <- (rev_string_involutive s), E. reflexivity.
Qed.

Lemma okEnds_join sep a b : okEnds a -> okEnds b -> okEnds (a ++ String sep b).
Proof.
  intros (Ha & Fa & Ra) (Hb & Fb & Rb). split; [|split].
  - destruct a; [congruence|discriminate].
  - apply firstOk_app; assumption.
  - rewrite rev_string_app, rev_string_cons, append_assoc.
    apply firstOk_app; [apply rev_string_nonempty; exact Hb|exact Rb].
Qed.

Lemma okEnds_joinWith sep : forall parts,
  parts <> [] -> Forall okEnds parts -> okEnds (joinWith sep parts).
Proof.
  induction parts as [|p rest IH]; intros Hne F; [congruence|].
  inversion F as [|? ? Hp Hrest]; subst.
  destruct rest as [|q rest']; [exact Hp|].
  change (joinWith sep (p :: q :: rest'))
    with (p ++ String sep (joinWith sep (q :: rest'))).
  apply okEnds_join; [exact Hp|]. apply IH; [discriminate|exact Hrest].
Qed.

(** *** Splitting *)

Lemma split_aux_part sep : forall part tail cur,
  ~ In sep (list_ascii_of_string part) ->
  split_aux sep (part ++ tail) cur = split_aux sep tail (rev_string_aux part cur).
Proof.
  induction part as [|c r IH]; intros tail cur H; [reflexivity|].
  simpl. destruct (Ascii.eqb c sep) eqn:E.
  - apply Ascii.eqb_eq in E. exfalso. apply H. left. exact E.
  - apply IH. intros Hin. apply H. right. exact Hin.
Qed.

Lemma split_joinWith sep : forall parts,
  parts <> [] ->
  Forall (fun part => ~ In sep (list_ascii_of_string part)) parts ->
  split sep (joinWith sep parts) = parts.
Proof.
  unfold split. induction parts as [|p rest IH]; intros Hne F; [congruence|].
  inversion F as [|? ? Hp Hrest]; subst.
  destruct rest as [|q rest'].
  - simpl. rewrite <- (append_nil_r p) at 1. rewrite split_aux_part by exact Hp.
    simpl. change (rev_string_aux p "") with (rev_string p).
    rewrite rev_string_involutive. reflexivity.
  - change (joinWith sep (p :: q :: rest'))
      with (p ++ String sep (joinWith sep (q :: rest'))).
    rewrite split_aux_part by exact Hp.
    cbn [split_aux]. rewrite Ascii.eqb_refl.
    change (rev_string_aux p "") with (rev_string p).
    rewrite rev_string_involutive. f_equal.
    apply IH; [discriminate|exact Hrest].
Qed.

Lemma chars_joinWith sep c : forall parts,
  In c (list_ascii_of_string (joinWith sep parts)) ->
  c = sep \/ exists part, In part parts /\ In c (list_ascii_of_string part).
Proof.
  induction parts as [|p rest IH]; intros H; [destruct H|].
  destruct rest as [|q rest'].
  - right. exists p. split; [left; reflexivity|exact H].
  - change (joinWith sep (p :: q :: rest'))
      with (p ++ String sep (joinWith sep (q :: rest'))) in H.
    rewrite chars_append in H. apply in_app_or in H. destruct H as [H | H].
    + right. exists p. split; [left; reflexivity|exact H].
    + destruct H as [H | H]; [left; symmetry; exact H|].
      destruct (IH H) as [E | (part & Hin & Hc)]; [left; exact E|].
      right. exists part. split; [right; exact Hin|exact Hc].
Qed.

(** *** Rows *)

Lemma set_fresh {A : Type} : forall (o : Obj A) k v,
  ~ In k (List.map fst o) -> set o k v = (o ++ [(k, v)])%list.
Proof.
  induction o as [|[k0 v0] r IH]; intros k v H; [reflexivity|].
  simpl. destruct (String.eqb k0 k) eqn:E.
  - apply String.eqb_eq in E. exfalso. apply H. left. exact E.
  - rewrite IH; [reflexivity|]. intros Hin. apply H. right. exact Hin.
Qed.

Lemma fold_set_fresh : forall (l : list (string * string)) (o : CsvRow),
  NoDup (List.map fst o ++ List.map fst l) ->
  fold_left setCell l o = (o ++ l)%list.
Proof.
  induction l as [|[k v] r IH]; intros o H; simpl.
  - rewrite app_nil_r. reflexivity.
  - unfold setCell at 2. simpl fst. simpl snd.
    assert (Hk : ~ In k (List.map fst o)).
    { intros Hin. apply NoDup_remove_2 in H. apply H.
      apply in_or_app. left. exact Hin. }
    rewrite (set_fresh o k v Hk), IH.
    + rewrite <- app_assoc. reflexivity.
    + rewrite map_app. simpl. rewrite <- app_assoc. exact H.
Qed.

Lemma map_trim_plain : forall row, Forall plainCell row -> List.map trim row = row.
Proof.
  induction row as [|c r IH]; intros F; [reflexivity|].
  inversion F as [|? ? Hc Hr]; subst. simpl.
  rewrite (proj1 (proj2 Hc)), (IH Hr). reflexivity.
Qed.

Lemma cells_joinWith row :
  row <> [] -> Forall plainCell row -> cells (joinWith comma row) = row.
Proof.
  intros Hne F. unfold cells. rewrite split_joinWith.
  - apply map_trim_plain. exact F.
  - exact Hne.
  - rewrite Forall_forall in *. intros c Hc Hin.
    destruct (F c Hc) as (_ & _ & H). destruct (H comma Hin) as [H1 _]. congruence.
Qed.

Lemma line_okEnds row :
  row <> [] -> Forall plainCell row -> okEnds (joinWith comma row).
Proof.
  intros Hne F. apply okEnds_joinWith; [exact Hne|].
  rewrite Forall_forall in *. intros c Hc.
  destruct (F c Hc) as (H1 & H2 & _). apply trimmed_okEnds; assumption.
Qed.

Lemma line_no_newline row :
  Forall plainCell row ->
  ~ In newline (list_ascii_of_string (joinWith comma row)).
Proof.
  intros F Hin. apply chars_joinWith in Hin.
  destruct Hin as [E | (c & Hc & Hin)]; [discriminate E|].
  rewrite Forall_forall in F. destruct (F c Hc) as (_ & _ & H).
  destruct (H newline Hin) as [_ H2]. congruence.
Qed.

End CsvRoundTrip.

Section CsvRoundTripProperty.
Import Js Engine JsDate Helpers Run Extra CsvFacts CsvRoundTrip.

Local Open Scope string_scope.

(** X20: [parseCSV] reads back a table written as CSV text.  For a header
    of distinct names and at least one row, every row as long as the
    header, all cells plain (not empty, no white space around them, no
    comma and no line feed in them), the rows parsed from the text are the
    rows written, each cell under its header, in the order written. *)
Theorem X20_parseCSV_reads_back_a_written_table
    (header : list string) (rows : list (list string)) :
  header <> [] ->
  NoDup header ->
  ~ In "__proto__" header ->
  Forall plainCell header ->
  rows <> [] ->
  Forall (fun row => List.length row = List.length header /\ Forall plainCell row)
    rows ->
  parseCSV (renderCSV header rows) = List.map (combine header) rows.
Proof.
  intros Hh Hnd _ Fh Hr Fr.
  assert (Hrow : forall row, In row rows -> row <> [] /\ Forall plainCell row).
  { rewrite Forall_forall in Fr. intros row Hin. destruct (Fr row Hin) as [L F].
    split; [|exact F]. intros ->. destruct header; [congruence|discriminate L]. }
  assert (Hlines : Forall okEnds (List.map (joinWith comma) (header :: rows))).
  { apply Forall_map. constructor; [apply line_okEnds; assumption|].
    apply Forall_forall. intros row Hin. apply line_okEnds; apply Hrow; exact Hin. }
  assert (Htext : okEnds (renderCSV header rows)).
  { apply okEnds_joinWith; [discriminate|exact Hlines]. }
  assert (Hsplit : split newline (trim (renderCSV header rows))
                   = List.map (joinWith comma) (header :: rows)).
  { rewrite (trim_okEnds _ Htext). apply split_joinWith; [discriminate|].
    apply Forall_map. constructor; [apply line_no_newline; exact Fh|].
    apply Forall_forall. intros row Hin. apply line_no_newline.
    apply Hrow. exact Hin. }
  unfold parseCSV.
  assert (E : String.eqb (renderCSV header rows) "" = false).
  { apply String.eqb_neq. exact (proj1 Htext). }
  rewrite E, Hsplit. cbn [List.map List.length].
  destruct rows as [|row0 rows']; [congruence|].
  cbn [List.map List.length Nat.ltb Nat.leb].
  fold (cells (joinWith comma header)).
  rewrite (cells_joinWith header Hh Fh).
  change (List.map (joinWith comma) rows') with (List.map (joinWith comma) rows').
  assert (G : forall l : list (list string),
             (forall row, In row l -> In row (row0 :: rows')) ->
             flat_map
               (fun line =>
                  if (List.length (List.map trim (split comma line))
                      <? List.length header)%nat
                  then []
                  else [fold_left
                          (fun rowObject hv => set rowObject (fst hv) (snd hv))
                          (combine header (List.map trim (split comma line))) []])
               (List.map (joinWith comma) l)
             = List.map (combine header) l).
  { induction l as [|row l' IH]; intros Hsub; [reflexivity|].
    cbn [List.map flat_map].
    destruct (Hrow row (Hsub row (or_introl eq_refl))) as [Hne F].
    fold (cells (joinWith comma row)). rewrite (cells_joinWith row Hne F).
    rewrite Forall_forall in Fr.
    destruct (Fr row (Hsub row (or_introl eq_refl))) as [L _].
    rewrite L, Nat.ltb_irrefl.
    change (fold_left _ (combine header row) [])
      with (fold_left setCell (combine header row) []).
    rewrite fold_set_fresh.
    - simpl. f_equal. apply IH. intros r Hin. apply Hsub. right. exact Hin.
    - simpl. rewrite map_fst_combine by lia. exact Hnd. }
  apply (G (row0 :: rows')). intros row Hin. exact Hin.
Qed.

End CsvRoundTripProperty.

(** ** Further properties: dates *)

Module DateFacts.
Import Js Engine JsDate Helpers Run Extra.

Local Open Scope Z_scope.

Lemma era_day_bounds doe : 0 <= doe < 146097 ->
  let yoe := (doe - doe / 1460 + doe / 36524 - doe / 146096) / 365 in
  let doy := doe - (365 * yoe + yoe / 4 - yoe / 100) in
  0 <= yoe <= 399 /\ 0 <= doy <= 366.
Proof.
  intros H yoe doy. subst doy yoe. Z.div_mod_to_equations. lia.
Qed.

Lemma month_bounds doy : 0 <= doy <= 366 -> 0 <= (5 * doy + 2) / 153 <= 11.
Proof. intros H. Z.div_mod_to_equations. lia. Qed.

(** The day number of the year, month and day of a day number is that
    day number. *)
Lemma civil_round_trip z :
  let '(y, m, d) := civil_from_days z in
  days_from_civil y m 1 + (d - 1) = z.
Proof.
  unfold civil_from_days.
  set (z0 := z + 719468).
  set (era := z0 / 146097).
  set (doe := z0 - era * 146097).
  assert (Hdoe : 0 <= doe < 146097).
  { subst doe era. Z.div_mod_to_equations. lia. }
  pose proof (era_day_bounds doe Hdoe) as B. cbv zeta in B.
  set (yoe := (doe - doe / 1460 + doe / 36524 - doe / 146096) / 365) in *.
  set (doy := doe - (365 * yoe + yoe / 4 - yoe / 100)) in *.
  destruct B as [By Bd].
  pose proof (month_bounds doy Bd) as Bm.
  set (mp := (5 * doy + 2) / 153) in *.
  unfold days_from_civil.
  set (m := if mp <? 10 then mp + 3 else mp - 9).
  assert (Hm : (if 2 <? m then m - 3 else m + 9) = mp).
  { subst m. destruct (mp <? 10) eqn:E.
    - apply Z.ltb_lt in E. destruct (2 <? mp + 3) eqn:E2; [lia|].
      apply Z.ltb_ge in E2. lia.
    - apply Z.ltb_ge in E. destruct (2 <? mp - 9) eqn:E2; [|lia].
      apply Z.ltb_lt in E2. lia. }
  rewrite Hm.
  assert (Hy : (if m <=? 2
                then (if m <=? 2 then yoe + era * 400 + 1 else yoe + era * 400) - 1
                else (if m <=? 2 then yoe + era * 400 + 1 else yoe + era * 400))
               = yoe + era * 400).
  { destruct (m <=? 2); lia. }
  rewrite Hy.
  assert (He : (yoe + era * 400) / 400 = era).
  { Z.div_mod_to_equations. lia. }
  rewrite He.
  replace (yoe + era * 400 - era * 400) with yoe by lia.
  subst doy doe z0. lia.
Qed.

Lemma days_from_civil_1900 y m d :
  days_from_civil y m d < days_from_civil (1900 + y) m d.
Proof.
  unfold days_from_civil.
  destruct (m <=? 2).
  - set (k := (153 * (if 2 <? m then m - 3 else m + 9) + 2) / 5 + d - 1).
    clearbody k. Z.div_mod_to_equations. lia.
  - set (k := (153 * (if 2 <? m then m - 3 else m + 9) + 2) / 5 + d - 1).
    clearbody k. Z.div_mod_to_equations. lia.
Qed.

Lemma setUTCHours0_le t : setUTCHours0 t <= t < setUTCHours0 t + msPerDay.
Proof.
  unfold setUTCHours0, msPerDay. Z.div_mod_to_equations. lia.
Qed.

End DateFacts.

Section DateProperties.
Import Js Engine JsDate Helpers Run Extra DateFacts.

Local Open Scope Z_scope.

(** X3: the date that [findManager] compares the reporting windows with,
    [Date.UTC(year, month, day)] of the date it is given, is the UTC
    midnight of that date exactly when the UTC year of the date is not one
    of 0..99 ([Date.UTC] reads such a year as 1900 + year). *)
Theorem X3_findManager_target_date_is_the_day_of_the_date (t : Z) :
  utcMidnight t = setUTCHours0 t <-> ~ (0 <= getUTCFullYear t <= 99).
Proof.
  unfold utcMidnight, setUTCHours0, getUTCFullYear.
  pose proof (civil_round_trip (t / msPerDay)) as R.
  destruct (civil_from_days (t / msPerDay)) as [[y m] d]. simpl fst.
  destruct ((0 <=? y) && (y <=? 99)) eqn:E.
  - apply andb_true_iff in E. destruct E as [E1 E2].
    apply Z.leb_le in E1, E2.
    pose proof (days_from_civil_1900 y m 1) as L.
    split; [|intros H; exfalso; apply H; lia]. intros H. exfalso.
    unfold msPerDay in *. lia.
  - split; [|intros _; rewrite R; reflexivity].
    intros _ [H1 H2]. apply Z.leb_le in H1, H2. rewrite H1, H2 in E. discriminate.
Qed.

End DateProperties.

(** ** Further properties: record selection and grouping *)

Module SelectionFacts.
Import Js Engine JsDate Helpers Run Extra CsvFacts DateFacts.

Local Open Scope string_scope.

Lemma get_copyRecord (record : CsvRow) key :
  get (copyRecord record) key = option_map VStr (get record key).
Proof.
  unfold copyRecord. induction record as [|[k v] r IH]; simpl; [reflexivity|].
  destruct (String.eqb k key); [reflexivity|exact IH].
Qed.

Lemma prop_copyRecord (record : CsvRow) key :
  prop (copyRecord record) key = field record key.
Proof.
  unfold prop, field. rewrite get_copyRecord.
  destruct (get record key); reflexivity.
Qed.

Lemma recordsOf_set agentData a recs a' :
  recordsOf (set agentData a recs) a'
  = if String.eqb a a' then recs else recordsOf agentData a'.
Proof.
  unfold recordsOf. rewrite get_set_cases. destruct (String.eqb a a'); reflexivity.
Qed.

Lemma isAgent_eq af a record :
  isAgent af a record = true <-> agentOf af record = Some a.
Proof.
  unfold isAgent. destruct (agentOf af record) as [x|].
  - rewrite String.eqb_eq. split; congruence.
  - split; discriminate.
Qed.

Section WithHost.
Context {host : Host}.

Lemma stored_isCopyOf (record : CsvRow) draws :
  isCopyOf (copyRecord (fst (stored record draws))) record.
Proof.
  unfold stored.
  destruct (truthy (field record "recordInternalId")) eqn:E; simpl fst.
  - split.
    + intros key _. apply prop_copyRecord.
    + intros _. apply prop_copyRecord.
  - split.
    + intros key Hk. rewrite prop_copyRecord. unfold field.
      rewrite get_set_cases.
      destruct (String.eqb "recordInternalId" key) eqn:Ek; [|reflexivity].
      apply String.eqb_eq in Ek. congruence.
    + intros H. congruence.
Qed.

(** One step of the grouping loop. *)
Lemma groupByAgent_step af record rest agentData draws entries :
  groupByAgent af (record :: rest) agentData draws entries
  = match agentOf af record with
    | None =>
        groupByAgent af rest agentData draws (entries ++ [agentWarning af record])
    | Some a =>
        match get agentData a with
        | None =>
            if inherited a then inl (AgentKeyTypeError a)
            else groupByAgent af rest
                   (set agentData a [copyRecord (fst (stored record draws))])
                   (snd (stored record draws)) entries
        | Some recs =>
            groupByAgent af rest
              (set agentData a (recs ++ [copyRecord (fst (stored record draws))])%list)
              (snd (stored record draws)) entries
        end
    end.
Proof.
  cbn [groupByAgent]. unfold agentOf, agentWarning, stored.
  destruct (get record af) as [a|]; [|reflexivity].
  destruct (String.eqb a ""); [reflexivity|].
  destruct (get agentData a) as [recs|].
  - destruct (truthy (field record "recordInternalId")); reflexivity.
  - destruct (inherited a); [reflexivity|].
    destruct (truthy (field record "recordInternalId")); reflexivity.
Qed.

Lemma ownKeys_set agentData a recs :
  ownKeys agentData -> inherited a = false -> ownKeys (set agentData a recs).
Proof.
  intros H Ha a' recs'. rewrite get_set_cases.
  destruct (String.eqb a a') eqn:E.
  - apply String.eqb_eq in E. subst a'. intros _. exact Ha.
  - apply H.
Qed.



(** What a successful grouping adds to [agentData] and to the log. *)
Lemma groupByAgent_result af : forall filteredRecords agentData draws entries result log,
  groupByAgent af filteredRecords agentData draws entries = inr (result, log) ->
  log = (entries ++ List.map (agentWarning af) (filter (hasNoAgent af) filteredRecords))%list
  /\ forall a,
       (exists copies,
           recordsOf result a = (recordsOf agentData a ++ copies)%list
           /\ Forall2 isCopyOf copies (filter (isAgent af a) filteredRecords))
       /\ (get result a = None <->
           get agentData a = None /\ filter (isAgent af a) filteredRecords = []).
Proof.
  induction filteredRecords as [|record rest IH]; intros agentData draws entries result log.
  - simpl. intros H. injection H as <- <-. split; [rewrite app_nil_r; reflexivity|].
    intros a. split.
    + exists []. split; [rewrite app_nil_r; reflexivity|constructor].
    + tauto.
  - rewrite groupByAgent_step. cbn [filter]. unfold hasNoAgent at 1.
    destruct (agentOf af record) as [a|] eqn:Ea.
    + assert (Hstep : forall recs,
                 groupByAgent af rest
                   (set agentData a (recs ++ [copyRecord (fst (stored record draws))])%list)
                   (snd (stored record draws)) entries = inr (result, log) ->
                 recordsOf agentData a = recs ->
                 log = (entries ++
                        List.map (agentWarning af) (filter (hasNoAgent af) rest))%list
                 /\ forall a0,
                      (exists copies,
                          recordsOf result a0 = (recordsOf agentData a0 ++ copies)%list
                          /\ Forall2 isCopyOf copies
                               (if isAgent af a0 record
                                then record :: filter (isAgent af a0) rest
                                else filter (isAgent af a0) rest))
                      /\ (get result a0 = None <->
                          get agentData a0 = None
                          /\ (if isAgent af a0 record
                              then record :: filter (isAgent af a0) rest
                              else filter (isAgent af a0) rest) = [])).
      { intros recs H Hrecs. destruct (IH _ _ _ _ _ H) as [Hlog Hres].
        split; [exact Hlog|]. intros a0.
        destruct (Hres a0) as [(copies & Hc & Hf) Hn].
        rewrite recordsOf_set in Hc. rewrite get_set_cases in Hn.
        assert (Ei : isAgent af a0 record = String.eqb a a0)
          by (unfold isAgent; rewrite Ea; reflexivity).
        rewrite Ei.
        destruct (String.eqb a a0) eqn:E.
        - apply String.eqb_eq in E. subst a0. split.
          + exists (copyRecord (fst (stored record draws)) :: copies). split.
            * rewrite Hc, Hrecs, <- app_assoc. reflexivity.
            * constructor; [apply stored_isCopyOf|exact Hf].
          + split; [intros H0; apply Hn in H0; destruct H0 as [H0 _]; discriminate H0|].
            intros [_ H0]. discriminate H0.
        - split; [exists copies; split; assumption|exact Hn]. }
      destruct (get agentData a) as [recs|] eqn:Eg.
      * intros H. apply (Hstep recs H). unfold recordsOf. rewrite Eg. reflexivity.
      * destruct (inherited a); [discriminate|].
        intros H. apply (Hstep [] H). unfold recordsOf. rewrite Eg. reflexivity.
    + intros H. destruct (IH _ _ _ _ _ H) as [Hlog Hres]. split.
      * rewrite Hlog, <- app_assoc. reflexivity.
      * intros a0.
        assert (Ei : isAgent af a0 record = false)
          by (unfold isAgent; rewrite Ea; reflexivity).
        rewrite Ei. apply Hres.
Qed.

Lemma filterRecords_spec scheme effectiveFromDate runAsOfDate : forall baseData,
  filterRecords scheme effectiveFromDate runAsOfDate baseData
  = (filter (inWindow scheme effectiveFromDate runAsOfDate) baseData,
     List.map (dateWarning scheme) (filter (undated scheme) baseData)).
Proof.
  induction baseData as [|record rest IH]; [reflexivity|].
  cbn [filterRecords filter]. rewrite IH.
  unfold keepRecord, inWindow, undated, dateWarning, transactionDate.
  destruct (parseDate (field record (transactionDateField (baseMapping scheme))))
    as [d|] eqn:E.
  - rewrite (parseDate_midnight _ _ E). reflexivity.
  - reflexivity.
Qed.

End WithHost.

End SelectionFacts.

Section SelectionProperties.
Import Js Engine JsDate Helpers Run Extra CsvFacts DateFacts SelectionFacts.
Context {host : Host}.

Local Open Scope string_scope.

(** X4: the base data selection keeps, in file order, exactly the records
    whose transaction date parses and lies between the effective date
    (when the scheme has a parseable one) and the run date, both bounds
    included; it logs one warning for each record whose date does not
    parse, in file order, and nothing for a record outside the window. *)
Theorem X4_selection_keeps_the_dated_records_in_the_window
    (scheme : Scheme) (effectiveFromDate : option Z) (runAsOfDate : Z)
    (baseData : list CsvRow) :
  (forall record,
      In record (fst (filterRecords scheme effectiveFromDate runAsOfDate baseData))
      <-> In record baseData
          /\ exists d, transactionDate scheme record = Some d
                       /\ (forall eff, effectiveFromDate = Some eff -> (eff <= d)%Z)
                       /\ (d <= runAsOfDate)%Z)
  /\ fst (filterRecords scheme effectiveFromDate runAsOfDate baseData)
     = filter (inWindow scheme effectiveFromDate runAsOfDate) baseData
  /\ snd (filterRecords scheme effectiveFromDate runAsOfDate baseData)
     = List.map (dateWarning scheme) (filter (undated scheme) baseData).
Proof.
  rewrite filterRecords_spec. simpl fst. simpl snd.
  split; [|split; reflexivity].
  intros record. rewrite filter_In. unfold inWindow.
  split.
  - intros [Hin H]. split; [exact Hin|].
    destruct (transactionDate scheme record) as [d|]; [|discriminate].
    exists d. split; [reflexivity|].
    apply andb_true_iff in H. destruct H as [H1 H2]. apply Z.leb_le in H2.
    split; [|exact H2].
    intros eff ->. apply Z.leb_le in H1. exact H1.
  - intros [Hin (d & -> & H1 & H2)]. split; [exact Hin|].
    apply andb_true_iff. split; [|apply Z.leb_le; exact H2].
    destruct effectiveFromDate as [eff|]; [|reflexivity].
    apply Z.leb_le. apply H1. reflexivity.
Qed.

(** X18: a grouping that succeeds files every record that has an agent
    id under that agent, in file order, as a copy that differs from the
    row at most in [recordInternalId]; an agent has an entry only if some
    record names it.  Each record without agent id, and no other, is
    logged with one warning and dropped. *)
Theorem X18_grouping_files_each_record_under_its_agent
    (agentField : string) (filteredRecords : list CsvRow)
    (entries : list LogEntry) (agentData : Obj (list RecordObj))
    (log : list LogEntry) :
  groupByAgent agentField filteredRecords [] O entries = inr (agentData, log) ->
  (forall a,
      Forall2 isCopyOf (recordsOf agentData a)
        (filter (isAgent agentField a) filteredRecords)
      /\ (get agentData a = None
          <-> filter (isAgent agentField a) filteredRecords = []))
  /\ log = (entries ++
            List.map (agentWarning agentField)
              (filter (hasNoAgent agentField) filteredRecords))%list.
Proof.
  intros G.
  destruct (groupByAgent_result _ _ _ _ _ _ _ G) as [Hlog Hres].
  split; [|exact Hlog].
  intros a. destruct (Hres a) as [(copies & Hc & Hf) Hn].
  unfold recordsOf at 2 in Hc. simpl in Hc. rewrite Hc. split; [exact Hf|].
  rewrite Hn. simpl. tauto.
Qed.

End SelectionProperties.

(** ** Further properties: the agent loop and the result of a run *)

Module ObjFacts.
Import Js Engine JsDate Helpers Run Extra CsvFacts.

Local Open Scope string_scope.

Lemma get_In {A : Type} (o : Obj A) k v : get o k = Some v -> In (k, v) o.
Proof.
  induction o as [|[k' v'] r IH]; simpl; [discriminate|].
  destruct (String.eqb k' k) eqn:E.
  - apply String.eqb_eq in E. subst k'. intros H. injection H as ->. left. reflexivity.
  - intros H. right. exact (IH H).
Qed.

Lemma get_None {A : Type} (o : Obj A) k :
  get o k = None <-> ~ In k (List.map fst o).
Proof.
  induction o as [|[k' v'] r IH]; simpl.
  - tauto.
  - destruct (String.eqb k' k) eqn:E.
    + apply String.eqb_eq in E. split; [discriminate|]. intros H. exfalso.
      apply H. left. exact E.
    + apply String.eqb_neq in E. rewrite IH. tauto.
Qed.

Lemma In_get {A : Type} (o : Obj A) k v :
  NoDup (List.map fst o) -> In (k, v) o -> get o k = Some v.
Proof.
  induction o as [|[k' v'] r IH]; simpl; intros Hnd Hin; [destruct Hin|].
  inversion Hnd as [|? ? Hnot Hnd']; subst.
  destruct Hin as [Heq | Hin].
  - injection Heq as -> ->. rewrite String.eqb_refl. reflexivity.
  - destruct (String.eqb k' k) eqn:E.
    + apply String.eqb_eq in E. subst k'. exfalso. apply Hnot.
      apply in_map_iff. exists (k, v). split; [reflexivity|exact Hin].
    + apply IH; assumption.
Qed.

Lemma keys_set {A : Type} (o : Obj A) k v k' :
  In k' (List.map fst (set o k v)) <-> k' = k \/ In k' (List.map fst o).
Proof.
  induction o as [|[k0 v0] r IH]; simpl.
  - intuition congruence.
  - destruct (String.eqb k0 k) eqn:E; simpl.
    + apply String.eqb_eq in E. subst k0. intuition congruence.
    + rewrite IH. intuition congruence.
Qed.

Lemma NoDup_set {A : Type} (o : Obj A) k v :
  NoDup (List.map fst o) -> NoDup (List.map fst (set o k v)).
Proof.
  induction o as [|[k0 v0] r IH]; simpl; intros H.
  - constructor; [intros []|constructor].
  - inversion H as [|? ? Hnot Hnd]; subst.
    destruct (String.eqb k0 k) eqn:E; simpl.
    + constructor; assumption.
    + constructor; [|apply IH; exact Hnd].
      rewrite keys_set. intros [-> | Hin]; [|exact (Hnot Hin)].
      rewrite String.eqb_refl in E. discriminate.
Qed.

(** *** Key enumeration *)

Lemma insert_index_perm {A : Type} n (e : string * A) l :
  Permutation (insert_index n e l) ((n, e) :: l).
Proof.
  induction l as [|[m e'] r IH]; simpl; [reflexivity|].
  destruct (n <? m)%Z; [reflexivity|].
  rewrite IH. apply perm_swap.
Qed.

Lemma indexed_perm {A : Type} : forall (o : Obj A) acc,
  Permutation (List.map snd (fold_left indexStep o acc))
              (List.map snd acc ++ filter hasIndex o).
Proof.
  induction o as [|e r IH]; intros acc; simpl.
  - rewrite app_nil_r. reflexivity.
  - rewrite IH. unfold indexStep, hasIndex.
    destruct (array_index (fst e)) as [n|]; [|reflexivity].
    rewrite (Permutation_map snd (insert_index_perm n e acc)). simpl.
    apply Permutation_cons_app. reflexivity.
Qed.

Lemma filter_split_perm {A : Type} (p : A -> bool) : forall l,
  Permutation (filter p l ++ filter (fun x => negb (p x)) l) l.
Proof.
  induction l as [|x r IH]; simpl; [reflexivity|].
  destruct (p x); simpl.
  - constructor. exact IH.
  - apply Permutation_sym, Permutation_cons_app, Permutation_sym. exact IH.
Qed.

(** [for (k in o)] visits every own key once. *)
Lemma enumerate_perm {A : Type} (o : Obj A) : Permutation (enumerate o) o.
Proof.
  unfold enumerate.
  change (fold_left _ o []) with (fold_left (@indexStep A) o []).
  rewrite indexed_perm. simpl.
  assert (E : filter (fun e : string * A =>
                        match array_index (fst e) with
                        | Some _ => false
                        | None => true
                        end) o
              = filter (fun x => negb (hasIndex x)) o).
  { apply filter_ext. intros e. unfold hasIndex.
    destruct (array_index (fst e)); reflexivity. }
  rewrite E. apply filter_split_perm.
Qed.

End ObjFacts.

Module RunFacts.
Import Js Engine JsDate Helpers Run Extra CsvFacts DateFacts SelectionFacts ObjFacts.

Local Open Scope string_scope.

Section WithHost.
Context {host : Host}.

Lemma groupByAgent_keys af : forall filteredRecords agentData draws entries result log,
  groupByAgent af filteredRecords agentData draws entries = inr (result, log) ->
  NoDup (keys agentData) -> ownKeys agentData ->
  NoDup (keys result) /\ ownKeys result.
Proof.
  induction filteredRecords as [|record rest IH];
    intros agentData draws entries result log.
  - simpl. intros H. injection H as <- <-. tauto.
  - rewrite groupByAgent_step.
    destruct (agentOf af record) as [a|] eqn:Ea.
    + destruct (get agentData a) as [recs|] eqn:Eg.
      * intros H Hnd Hown. apply (IH _ _ _ _ _ H).
        -- apply NoDup_set. exact Hnd.
        -- apply ownKeys_set; [exact Hown|exact (Hown _ _ Eg)].
      * destruct (inherited a) eqn:Ei; [discriminate|].
        intros H Hnd Hown. apply (IH _ _ _ _ _ H).
        -- apply NoDup_set. exact Hnd.
        -- apply ownKeys_set; [exact Hown|exact Ei].
    + intros H. apply (IH _ _ _ _ _ H).
Qed.

(** The run from the point where the run date and the base file are
    there. *)
Lemma runScheme_run scheme uploadedFiles runAsOfDateString runAsOfDate content :
  parseDate (VStr runAsOfDateString) = Some runAsOfDate ->
  sourceFile (baseMapping scheme) <> "" ->
  get uploadedFiles (sourceFile (baseMapping scheme)) = Some content ->
  content <> "" ->
  runScheme scheme uploadedFiles runAsOfDateString
  = match
      groupByAgent (agentField (baseMapping scheme))
        (filter (inWindow scheme (parseDate (VStr (effectiveFrom scheme)))
                   runAsOfDate) (parseCSV content))
        [] O
        (List.map (dateWarning scheme) (filter (undated scheme) (parseCSV content)))
    with
    | inl e => inl e
    | inr (agentData, entries) =>
        match
          agentLoop scheme (loadHierarchy scheme uploadedFiles) runAsOfDate
            (enumerate agentData) (initialState scheme entries)
        with
        | None => inl DecimalInvalidArgument
        | Some final => inr (resultOf final)
        end
    end.
Proof.
  intros Hd Hf Hg Hc. unfold runScheme. rewrite Hd.
  apply String.eqb_neq in Hf, Hc. rewrite Hf.
  unfold lookupFile. rewrite Hg, Hc.
  rewrite (parseDate_midnight _ _ Hd).
  assert (He : option_map setUTCHours0 (parseDate (VStr (effectiveFrom scheme)))
               = parseDate (VStr (effectiveFrom scheme))).
  { destruct (parseDate (VStr (effectiveFrom scheme))) as [e|] eqn:E; [|reflexivity].
    simpl. rewrite (parseDate_midnight _ _ E). reflexivity. }
  rewrite He. rewrite filterRecords_spec.
  destruct (groupByAgent _ _ _ _ _) as [e|[agentData entries]]; reflexivity.
Qed.

Lemma concludeAgent_payouts scheme hier run st a out :
  st_payouts (concludeAgent scheme hier run st a out)
  = set (st_payouts st) a (DecFormat.toFixed2 (payout (info out))).
Proof. reflexivity. Qed.

Lemma concludeAgent_logs_keys scheme hier run st a out k :
  In k (keys (st_ruleHitLogs (concludeAgent scheme hier run st a out))) ->
  k = a \/ In k (keys (st_ruleHitLogs st)).
Proof.
  unfold concludeAgent. cbn [st_ruleHitLogs].
  destruct (logs _); [right; assumption|].
  unfold keys. rewrite keys_set. tauto.
Qed.

Lemma concludeAgent_credit_keys scheme hier run st a out k :
  In k (keys (st_credit (concludeAgent scheme hier run st a out))) ->
  k = a \/ In k (keys (st_credit st)).
Proof.
  unfold concludeAgent. cbn [st_credit].
  destruct (_ && _); [|right; assumption].
  unfold keys. rewrite keys_set. tauto.
Qed.

Lemma agentLoop_step scheme hier run a recs rest st :
  agentLoop scheme hier run ((a, recs) :: rest) st
  = match agentOutcome scheme (st_rules st) (st_fields st) a recs with
    | None => None
    | Some out => agentLoop scheme hier run rest (concludeAgent scheme hier run st a out)
    end.
Proof.
  cbn [agentLoop]. unfold processAgent. cbn [fst snd].
  destruct (agentOutcome _ _ _ a recs); reflexivity.
Qed.

Lemma agentLoop_keys scheme hier run : forall agents st final,
  agentLoop scheme hier run agents st = Some final ->
  (forall k, In k (keys (st_payouts final)) <->
             In k (keys (st_payouts st)) \/ In k (keys agents))
  /\ (NoDup (keys (st_payouts st)) -> NoDup (keys (st_payouts final)))
  /\ (forall k, In k (keys (st_ruleHitLogs final)) ->
                In k (keys (st_ruleHitLogs st)) \/ In k (keys agents))
  /\ (forall k, In k (keys (st_credit final)) ->
                In k (keys (st_credit st)) \/ In k (keys agents)).
Proof.
  induction agents as [|[a recs] rest IH]; intros st final.
  - simpl. intros H. injection H as <-. repeat split; tauto.
  - rewrite agentLoop_step.
    destruct (agentOutcome scheme (st_rules st) (st_fields st) a recs) as [out|];
      [|discriminate].
    intros H. destruct (IH _ _ H) as (P & N & L & C).
    split; [|split; [|split]].
    + intros k. rewrite P, concludeAgent_payouts. unfold keys.
      rewrite keys_set. simpl. intuition congruence.
    + intros Hnd. apply N. rewrite concludeAgent_payouts. apply NoDup_set. exact Hnd.
    + intros k Hk. destruct (L k Hk) as [H' | H']; [|right; right; exact H'].
      apply concludeAgent_logs_keys in H'. simpl. intuition congruence.
    + intros k Hk. destruct (C k Hk) as [H' | H']; [|right; right; exact H'].
      apply concludeAgent_credit_keys in H'. simpl. intuition congruence.
Qed.

End WithHost.

End RunFacts.

Section RunProperties.
Import Js Engine JsDate Helpers Run Extra.
Import CsvFacts DateFacts SelectionFacts ObjFacts RunFacts.
Context {host : Host}.

Local Open Scope string_scope.


(** X6: a run that returns reports a payout for exactly the agents named
    (by a non-empty agent id) by a record in the date window, each agent
    once; agent logs and credit distributions are filed under reported
    agents only. *)
Theorem X6_payouts_are_reported_for_the_agents_of_the_selected_records
    (scheme : Scheme) (uploadedFiles : Obj string)
    (runAsOfDateString : string) (runAsOfDate : Z) (content : string)
    (result : RunResult) :
  parseDate (VStr runAsOfDateString) = Some runAsOfDate ->
  sourceFile (baseMapping scheme) <> "" ->
  get uploadedFiles (sourceFile (baseMapping scheme)) = Some content ->
  content <> "" ->
  runScheme scheme uploadedFiles runAsOfDateString = inr result ->
  (forall a,
      In a (keys (agentPayouts result))
      <-> exists record,
            In record (parseCSV content)
            /\ inWindow scheme (parseDate (VStr (effectiveFrom scheme)))
                 runAsOfDate record = true
            /\ agentOf (agentField (baseMapping scheme)) record = Some a)
  /\ NoDup (keys (agentPayouts result))
  /\ incl (keys (ruleHitLogs result)) (keys (agentPayouts result))
  /\ incl (keys (creditDistributions result)) (keys (agentPayouts result)).
Proof.
  intros Hd Hf Hg Hc.
  rewrite (runScheme_run _ _ _ _ _ Hd Hf Hg Hc).
  set (filtered := filter _ (parseCSV content)).
  set (entries := List.map _ _).
  destruct (groupByAgent _ filtered [] 0%nat entries) as [e|[agentData log]] eqn:G;
    [discriminate|].
  destruct (agentLoop scheme (loadHierarchy scheme uploadedFiles) runAsOfDate
              (enumerate agentData) (initialState scheme log)) as [final|] eqn:E;
    [|discriminate].
  intros H. injection H as <-.
  destruct (groupByAgent_result _ _ _ _ _ _ _ G) as [_ Hres].
  destruct (agentLoop_keys scheme (loadHierarchy scheme uploadedFiles) runAsOfDate
              (enumerate agentData) (initialState scheme log) final E)
    as (P & N & L & C).
  cbn [resultOf agentPayouts ruleHitLogs creditDistributions].
  assert (Hk : forall a, In a (keys (enumerate agentData)) <-> In a (keys agentData)).
  { intros a. unfold keys. split; apply Permutation_in, Permutation_map.
    - apply enumerate_perm.
    - apply Permutation_sym, enumerate_perm. }
  split; [|split; [|split]].
  - intros a. rewrite P, Hk. simpl.
    assert (Hn : In a (keys agentData)
                 <-> filter (isAgent (agentField (baseMapping scheme)) a) filtered
                     <> []).
    { destruct (Hres a) as [_ Hn]. split.
      - intros Hin Hf0. apply (proj1 (get_None agentData a)); [|exact Hin].
        apply Hn. split; [reflexivity|exact Hf0].
      - intros Hne. destruct (get agentData a) as [recs|] eqn:Eg.
        + apply get_In in Eg. apply in_map_iff. exists (a, recs). tauto.
        + exfalso. apply Hne. apply Hn. reflexivity. }
    rewrite Hn. split.
    + intros [[] | Hne].
      destruct (filter (isAgent (agentField (baseMapping scheme)) a) filtered)
        as [|record rest] eqn:Ef; [congruence|].
      assert (Hin : In record (filter (isAgent (agentField (baseMapping scheme)) a)
                                 filtered)) by (rewrite Ef; left; reflexivity).
      apply filter_In in Hin. destruct Hin as [Hin Ha].
      apply filter_In in Hin. apply isAgent_eq in Ha.
      exists record. tauto.
    + intros (record & Hin & Hw & Ha). right. intros Hf0.
      assert (Hin' : In record (filter (isAgent (agentField (baseMapping scheme)) a)
                                  filtered)).
      { apply filter_In. split; [apply filter_In; tauto|].
        apply isAgent_eq. exact Ha. }
      rewrite Hf0 in Hin'. destruct Hin'.
  - apply N. constructor.
  - intros k Hk'. apply P. right. destruct (L k Hk') as [[] | H]. exact H.
  - intros k Hk'. apply P. right. destruct (C k Hk') as [[] | H]. exact H.
Qed.

End RunProperties.

(** ** Further properties: what credit splitting and qualification leave alone *)

Module CreditFacts.
Import Js Engine JsDate Helpers Run Extra.
Import CsvFacts DateFacts SelectionFacts ObjFacts RunFacts.

Local Open Scope string_scope.

Section WithHost.
Context {host : Host}.









(** Without hierarchy rows or without split rules the agent loop leaves
    [creditDistributions] as it is. *)
Lemma agentLoop_no_credit scheme hier run : forall agents st final,
  hier = [] \/ creditSplits scheme = [] ->
  agentLoop scheme hier run agents st = Some final ->
  st_credit final = st_credit st.
Proof.
  induction agents as [|[a recs] rest IH]; intros st final H.
  - simpl. intros E. injection E as <-. reflexivity.
  - rewrite agentLoop_step.
    destruct (agentOutcome scheme (st_rules st) (st_fields st) a recs) as [out|];
      [|discriminate].
    intros E. rewrite (IH _ _ H E). unfold concludeAgent. cbn [st_credit].
    destruct H as [-> | ->]; simpl List.length; cbn [Nat.eqb negb];
      rewrite ?andb_false_r; reflexivity.
Qed.

End WithHost.
End CreditFacts.

Section CreditProperties.
Import Js Engine JsDate Helpers Run Extra.
Import CsvFacts DateFacts SelectionFacts ObjFacts RunFacts CreditFacts.
Context {host : Host}.

Local Open Scope string_scope.


(** X8: when the hierarchy file yields no row (it is not named, not
    uploaded, empty or a header line only) or the scheme declares no
    credit split, a run that returns has no credit distribution at all,
    not even for a split of role L1, which needs no lookup. *)
Theorem X8_no_distribution_without_hierarchy_rows_or_split_rules
    (scheme : Scheme) (uploadedFiles : Obj string) (runAsOfDateString : string)
    (result : RunResult) :
  loadHierarchy scheme uploadedFiles = [] \/ creditSplits scheme = [] ->
  runScheme scheme uploadedFiles runAsOfDateString = inr result ->
  creditDistributions result = [].
Proof.
  intros H. unfold runScheme.
  destruct (parseDate (VStr runAsOfDateString)) as [run|]; [|discriminate].
  destruct (String.eqb (sourceFile (baseMapping scheme)) ""); [discriminate|].
  destruct (lookupFile uploadedFiles (sourceFile (baseMapping scheme)))
    as [content| |]; [|discriminate|discriminate].
  destruct (String.eqb content ""); [discriminate|].
  destruct (filterRecords scheme _ _ _) as [filtered dateEntries].
  destruct (groupByAgent _ filtered [] 0%nat dateEntries) as [e|[agentData entries]];
    [discriminate|].
  destruct (agentLoop scheme _ _ _ _) as [final|] eqn:L; [|discriminate].
  intros E. injection E as <-. cbn [creditDistributions].
  rewrite (agentLoop_no_credit _ _ _ _ _ _ H L). reflexivity.
Qed.

End CreditProperties.

(** ** Further properties: agents are paid on their own records *)

Module LocalityFacts.
Import Js Engine JsDate Helpers Run Extra.
Import CsvFacts DateFacts SelectionFacts ObjFacts RunFacts EngineFacts.

Local Open Scope string_scope.

Section WithHost.
Context {host : Host}.

Lemma concludeRule_after agentId rule fields dt v entries :
  ruleAfter (concludeRule agentId rule fields dt v entries) = rule
  /\ fieldsAfter (concludeRule agentId rule fields dt v entries) = fields.
Proof.
  unfold concludeRule. destruct (evaluateRule _ _ _ _); split; reflexivity.
Qed.

Lemma qualificationStep_agentLevel scheme agentId recs rule fields entries :
  (forall fieldDef, findField fields (rule_field rule) = Some fieldDef ->
                    evaluationLevel fieldDef = "Agent") ->
  ruleAfter (qualificationStep scheme agentId recs rule fields entries) = rule
  /\ fieldsAfter (qualificationStep scheme agentId recs rule fields entries) = fields.
Proof.
  intros H. unfold qualificationStep.
  destruct (findField fields (rule_field rule)) as [fieldDef|]; [|split; reflexivity].
  rewrite (H fieldDef eq_refl). cbn [String.eqb Ascii.eqb Bool.eqb].
  destruct (String.eqb (aggregation fieldDef) "Sum").
  - destruct (fold_left _ _ _) as [sum es]. apply concludeRule_after.
  - destruct (String.eqb (aggregation fieldDef) "Count").
    + apply concludeRule_after.
    + split; reflexivity.
Qed.

Lemma qualificationLoop_agentLevel scheme agentId recs : forall rules fields entries,
  agentLevelOnly rules fields ->
  snd (fst (fst (qualificationLoop scheme agentId recs rules fields entries))) = rules
  /\ snd (fst (qualificationLoop scheme agentId recs rules fields entries)) = fields.
Proof.
  induction rules as [|rule rest IH]; intros fields entries H; [split; reflexivity|].
  cbn [qualificationLoop].
  destruct (qualificationStep_agentLevel scheme agentId recs rule fields entries)
    as [Hr Hf].
  { intros fieldDef. apply H. left. reflexivity. }
  destruct (goOn _).
  - specialize (IH (fieldsAfter (qualificationStep scheme agentId recs rule fields
                                   entries))
                   (entriesAfter (qualificationStep scheme agentId recs rule fields
                                    entries))).
    rewrite Hf in IH at 1.
    destruct IH as [IHr IHf].
    { intros r f Hin. apply H. right. exact Hin. }
    destruct (qualificationLoop _ _ _ rest _ _) as [[[q rest'] fields'] entries'].
    simpl in *. rewrite Hr, IHr, IHf, Hf. split; reflexivity.
  - simpl. rewrite Hr, Hf. split; reflexivity.
Qed.

Lemma agentOutcome_agentLevel scheme rules fields agentId recs out :
  agentLevelOnly rules fields ->
  agentOutcome scheme rules fields agentId recs = Some out ->
  rulesLeft out = rules /\ fieldsLeft out = fields.
Proof.
  intros H. unfold agentOutcome.
  pose proof (qualificationLoop_agentLevel scheme agentId
                (processedRecords (recordLoop scheme agentId recs))
                rules fields [] H) as Q.
  destruct (qualificationLoop _ _ _ _ _ _) as [[[q rules'] fields'] entries].
  destruct (payoutStage _ _ _ _ _) as [[p es]|]; [|discriminate].
  intros E. injection E as <-. simpl in *. exact Q.
Qed.

Lemma agentLoop_other scheme hier run : forall agents st final a,
  ~ In a (keys agents) ->
  agentLoop scheme hier run agents st = Some final ->
  get (st_payouts final) a = get (st_payouts st) a
  /\ get (st_ruleHitLogs final) a = get (st_ruleHitLogs st) a.
Proof.
  induction agents as [|[a' recs] rest IH]; intros st final a Hnot.
  - simpl. intros E. injection E as <-. split; reflexivity.
  - rewrite agentLoop_step.
    destruct (agentOutcome scheme (st_rules st) (st_fields st) a' recs) as [out|];
      [|discriminate].
    intros E.
    assert (Hne : a <> a') by (intros ->; apply Hnot; left; reflexivity).
    destruct (IH _ final a (fun Hin => Hnot (or_intror Hin)) E) as [P L].
    rewrite P, L. unfold concludeAgent.
    cbn [st_payouts st_ruleHitLogs]. split.
    + apply get_set_other. exact Hne.
    + destruct (logs _); [reflexivity|]. apply get_set_other. exact Hne.
Qed.

Lemma agentLoop_local scheme hier run : forall agents st final a recs,
  agentLevelOnly (st_rules st) (st_fields st) ->
  NoDup (keys agents) ->
  In (a, recs) agents ->
  get (st_ruleHitLogs st) a = None ->
  agentLoop scheme hier run agents st = Some final ->
  exists outcome,
    agentOutcome scheme (st_rules st) (st_fields st) a recs = Some outcome
    /\ get (st_payouts final) a = Some (DecFormat.toFixed2 (payout (info outcome)))
    /\ get (st_ruleHitLogs final) a
       = match logs (info outcome) with
         | [] => None
         | entry :: entries => Some (entry :: entries)
         end.
Proof.
  induction agents as [|[a' recs'] rest IH]; intros st final a recs Hlvl Hnd Hin Hlog;
    [destruct Hin|].
  inversion Hnd as [|? ? Hnot Hnd']; subst.
  rewrite agentLoop_step.
  destruct (agentOutcome scheme (st_rules st) (st_fields st) a' recs') as [out|] eqn:Eo;
    [|discriminate].
  intros E.
  destruct (agentOutcome_agentLevel scheme (st_rules st) (st_fields st) a' recs' out
              Hlvl Eo) as [Hr Hf].
  destruct Hin as [Heq | Hin].
  - injection Heq as -> ->.
    destruct (agentLoop_other scheme hier run rest _ final a Hnot E) as [P L].
    exists out. split; [exact Eo|].
    rewrite P, L. unfold concludeAgent.
    cbn [st_payouts st_ruleHitLogs]. split.
    + apply get_set_same.
    + destruct (logs _); [exact Hlog|]. apply get_set_same.
  - assert (Hne : a <> a').
    { intros ->. apply Hnot. apply in_map_iff. exists (a', recs). tauto. }
    specialize (IH (concludeAgent scheme hier run st a' out) final a recs).
    assert (Er : st_rules (concludeAgent scheme hier run st a' out) = st_rules st)
      by exact Hr.
    assert (Ef : st_fields (concludeAgent scheme hier run st a' out) = st_fields st)
      by exact Hf.
    rewrite Er, Ef in IH. apply IH; [exact Hlvl|exact Hnd'|exact Hin| |exact E].
    clear IH. unfold concludeAgent. cbn [st_ruleHitLogs].
    destruct (logs (info out)); [exact Hlog|].
    rewrite get_set_other by exact Hne. exact Hlog.
Qed.

End WithHost.
End LocalityFacts.

Section LocalityProperties.
Import Js Engine JsDate Helpers Run Extra.
Import CsvFacts DateFacts SelectionFacts ObjFacts RunFacts LocalityFacts.
Context {host : Host}.

Local Open Scope string_scope.

(** X9: when every qualification rule that names a declared field names
    a field evaluated at agent level, each agent is paid on its own
    records alone.  The payout and the log reported for an agent are what
    the record rules, the qualification rules as declared and the tiers
    yield on copies of the agent's records in the date window, taken in
    file order; the records of the other agents and the order of the
    agents play no part. *)
Theorem X9_agent_level_rules_pay_each_agent_on_its_own_records
    (scheme : Scheme) (uploadedFiles : Obj string)
    (runAsOfDateString : string) (runAsOfDate : Z) (content : string)
    (result : RunResult) (a payoutText : string) :
  parseDate (VStr runAsOfDateString) = Some runAsOfDate ->
  sourceFile (baseMapping scheme) <> "" ->
  get uploadedFiles (sourceFile (baseMapping scheme)) = Some content ->
  content <> "" ->
  agentLevelOnly (qualificationRules scheme)
    (qualificationFields (kpiConfig scheme)) ->
  runScheme scheme uploadedFiles runAsOfDateString = inr result ->
  get (agentPayouts result) a = Some payoutText ->
  exists copies outcome,
    Forall2 isCopyOf copies
      (filter (isAgent (agentField (baseMapping scheme)) a)
         (filter (inWindow scheme (parseDate (VStr (effectiveFrom scheme)))
                    runAsOfDate) (parseCSV content)))
    /\ copies <> []
    /\ agentOutcome scheme (qualificationRules scheme)
         (qualificationFields (kpiConfig scheme)) a copies = Some outcome
    /\ payoutText = DecFormat.toFixed2 (payout (info outcome))
    /\ get (ruleHitLogs result) a
       = match logs (info outcome) with
         | [] => None
         | entry :: entries => Some (entry :: entries)
         end.
Proof.
  intros Hd Hf Hg Hc Hlvl.
  rewrite (runScheme_run _ _ _ _ _ Hd Hf Hg Hc).
  set (filtered := filter _ (parseCSV content)).
  set (entries := List.map _ _).
  destruct (groupByAgent _ filtered [] 0%nat entries) as [e|[agentData log]] eqn:G;
    [discriminate|].
  destruct (agentLoop scheme (loadHierarchy scheme uploadedFiles) runAsOfDate
              (enumerate agentData) (initialState scheme log)) as [final|] eqn:EL;
    [|discriminate].
  intros H. injection H as <-. cbn [resultOf agentPayouts ruleHitLogs].
  intros Hp.
  destruct (groupByAgent_result _ _ _ _ _ _ _ G) as [_ Hres].
  destruct (groupByAgent_keys _ _ _ _ _ _ _ G) as [Hnd _].
  { constructor. }
  { intros k recs Hk. discriminate Hk. }
  destruct (Hres a) as [(copies & Hrec & Hcopies) Hnone].
  destruct (get agentData a) as [recs|] eqn:Eg.
  - unfold recordsOf in Hrec. rewrite Eg in Hrec. simpl in Hrec. subst recs.
    assert (Hin : In (a, copies) (enumerate agentData)).
    { apply (Permutation_in _ (Permutation_sym (enumerate_perm agentData))).
      apply get_In. exact Eg. }
    assert (Hnd' : NoDup (keys (enumerate agentData))).
    { unfold keys. apply (Permutation_NoDup (l := List.map fst agentData)); [|exact Hnd].
      apply Permutation_map, Permutation_sym, enumerate_perm. }
    destruct (agentLoop_local scheme (loadHierarchy scheme uploadedFiles) runAsOfDate
                (enumerate agentData) (initialState scheme log) final a copies
                Hlvl Hnd' Hin eq_refl EL) as (outcome & Eo & P & L).
    cbn [initialState st_rules st_fields] in Eo.
    exists copies, outcome. split; [exact Hcopies|]. split.
    + intros ->. inversion Hcopies as [E1 E2|].
      destruct Hnone as [_ Hnone].
      assert (E : @None (list RecordObj) = Some []).
      { symmetry. apply Hnone. split; [reflexivity|]. symmetry. exact E2. }
      discriminate E.
    + split; [exact Eo|]. split; [|exact L].
      rewrite P in Hp. injection Hp as <-. reflexivity.
  - exfalso.
    destruct (agentLoop_other scheme (loadHierarchy scheme uploadedFiles) runAsOfDate
                (enumerate agentData) (initialState scheme log) final a) as [P _].
    + intros Hin. apply (proj1 (get_None agentData a) Eg).
      unfold keys in Hin.
      apply (Permutation_in _ (Permutation_map fst (enumerate_perm agentData))).
      exact Hin.
    + exact EL.
    + rewrite P in Hp. discriminate Hp.
Qed.

End LocalityProperties.

(** ** Further properties: the stages of an agent *)

Module RecordFacts.
Import Js Engine JsDate Helpers Run Extra Spec.
Import CsvFacts ObjFacts EngineFacts StageFacts.

Local Open Scope string_scope.

Section WithHost.
Context {host : Host}.

(** *** The record loop *)

Lemma adjustmentLoop_entries fields agentId record : forall rules c m entries,
  exists added,
    snd (adjustmentLoop fields agentId record rules c m entries)
    = (entries ++ added)%list
    /\ filter isDropEntry added = [].
Proof.
  induction rules as [|rule rest IH]; intros c m entries.
  - exists []. split; [simpl; rewrite app_nil_r; reflexivity|reflexivity].
  - cbn [adjustmentLoop].
    destruct (findField fields (cond_field (condition rule))) as [fieldDef|];
      [|apply IH].
    destruct (evaluateRule _ _ _ _); [|apply IH].
    destruct (applyAdjustment _ _ _) as [[c' m'] effect].
    destruct (IH c' m'
                (entries ++
                 [LogAdjustment (adj_id rule) (prop record "recordInternalId") agentId
                    (cond_field (condition rule))
                    (prop record (kpi_sourceField fieldDef))
                    (cond_operator (condition rule)) (cond_value (condition rule))
                    effect])%list) as (added & E & F).
    eexists. split.
    + rewrite E, <- app_assoc. reflexivity.
    + simpl. exact F.
Qed.

Lemma filter_drop_app l1 l2 :
  filter isDropEntry (l1 ++ l2)
  = (filter isDropEntry l1 ++ filter isDropEntry l2)%list.
Proof. apply filter_app. Qed.

(** What one record adds to the state of the record loop. *)
Lemma processRecord_adds scheme agentId st record :
  let st' := processRecord scheme agentId st record in
  exists added newEntries,
    processedRecords st' = (processedRecords st ++ added)%list
    /\ recordEntries st' = (recordEntries st ++ newEntries)%list
    /\ (List.length added + List.length (filter isDropEntry newEntries) = 1)%nat
    /\ adjustedTotal st' = fold_left addAdjusted added (adjustedTotal st)
    /\ Forall (fun r => prop r "adjustedAmount" = VDec (adjustedAmountOf r)) added.
Proof.
  cbn zeta. unfold processRecord.
  destruct (initialAmount scheme record) as [amount|].
  - destruct (exclusionLoop _ _ _ _) as [entry|] eqn:Ex.
    + exists [], [entry]. cbn [processedRecords recordEntries adjustedTotal].
      rewrite app_nil_r. repeat split; [|constructor].
      assert (Hd : isDropEntry entry = true).
      { clear -Ex. revert Ex.
        induction (exclusionRules scheme) as [|rule rest IH]; [discriminate|].
        cbn [exclusionLoop].
        destruct (findField _ _) as [fieldDef|]; [|exact IH].
        destruct (evaluateRule _ _ _ _); [|exact IH].
        intros H. injection H as <-. reflexivity. }
      simpl. rewrite Hd. reflexivity.
    + destruct (adjustmentLoop_entries (adjustmentFields (kpiConfig scheme)) agentId
                  record (adjustmentRules scheme) amount Dec.one (recordEntries st))
        as (added & E & F).
      destruct (adjustmentLoop _ _ _ _ _ _ _) as [[c m] entries].
      simpl in E. subst entries.
      exists [set record "adjustedAmount" (VDec (Dec.times c m))].
      assert (Hp : prop (set record "adjustedAmount" (VDec (Dec.times c m)))
                     "adjustedAmount" = VDec (Dec.times c m)).
      { unfold prop. rewrite get_set_same. reflexivity. }
      assert (Ha : adjustedAmountOf
                     (set record "adjustedAmount" (VDec (Dec.times c m)))
                   = Dec.times c m).
      { unfold adjustedAmountOf. rewrite Hp. reflexivity. }
      destruct (customRules scheme) as [|custom customs].
      * exists added. cbn [processedRecords recordEntries adjustedTotal].
        rewrite F. simpl. unfold addAdjusted. rewrite Ha.
        repeat split. constructor; [|constructor]. rewrite Hp, Ha. reflexivity.
      * exists (added ++ [LogCustom (prop record "recordInternalId") agentId])%list.
        cbn [processedRecords recordEntries adjustedTotal].
        rewrite filter_drop_app, F. simpl. unfold addAdjusted. rewrite Ha.
        rewrite app_assoc.
        repeat split. constructor; [|constructor]. rewrite Hp, Ha. reflexivity.
  - exists [], [LogDataError (prop record "recordInternalId") agentId
                  (prop record (amountField (baseMapping scheme)))].
    cbn [processedRecords recordEntries adjustedTotal].
    rewrite app_nil_r. repeat split. constructor.
Qed.

Lemma recordFold_adds scheme agentId : forall recs st,
  let st' := fold_left (processRecord scheme agentId) recs st in
  exists added newEntries,
    processedRecords st' = (processedRecords st ++ added)%list
    /\ recordEntries st' = (recordEntries st ++ newEntries)%list
    /\ (List.length added + List.length (filter isDropEntry newEntries)
        = List.length recs)%nat
    /\ adjustedTotal st' = fold_left addAdjusted added (adjustedTotal st)
    /\ Forall (fun r => prop r "adjustedAmount" = VDec (adjustedAmountOf r)) added.
Proof.
  induction recs as [|record rest IH]; intros st; cbn zeta.
  - exists [], []. simpl. rewrite !app_nil_r. repeat split. constructor.
  - cbn [fold_left].
    destruct (processRecord_adds scheme agentId st record)
      as (a1 & e1 & P1 & E1 & L1 & T1 & F1).
    destruct (IH (processRecord scheme agentId st record))
      as (a2 & e2 & P2 & E2 & L2 & T2 & F2).
    cbn zeta in *.
    exists (a1 ++ a2)%list, (e1 ++ e2)%list.
    rewrite P2, P1, E2, E1, T2, T1, <- !app_assoc.
    rewrite filter_drop_app, fold_left_app, !length_app.
    repeat split.
    + simpl List.length. lia.
    + apply Forall_app. split; assumption.
Qed.

(** *** The Sum aggregate over the amount field *)

Lemma sumFold_adjusted scheme rule fieldDef :
  kpi_sourceField fieldDef = amountField (baseMapping scheme) ->
  forall recs sum entries,
    Forall (fun r => prop r "adjustedAmount" = VDec (adjustedAmountOf r)) recs ->
    fold_left (sumStep scheme rule fieldDef) recs (sum, entries)
    = (fold_left addAdjusted recs sum, entries).
Proof.
  intros Hs. induction recs as [|r rest IH]; intros sum entries F; [reflexivity|].
  inversion F as [|? ? Hr Hrest]; subst.
  cbn [fold_left]. unfold sumStep at 2. rewrite Hs, String.eqb_refl, Hr.
  cbn [strict_eq negb andb toDecimal fst snd].
  apply IH. exact Hrest.
Qed.

Lemma recordLoop_accounts scheme agentId agentRecords :
  let loop := recordLoop scheme agentId agentRecords in
  (List.length (processedRecords loop)
   + List.length (filter isDropEntry (recordEntries loop))
   = List.length agentRecords)%nat
  /\ Forall (fun r => prop r "adjustedAmount" = VDec (adjustedAmountOf r))
       (processedRecords loop)
  /\ adjustedTotal loop = fold_left addAdjusted (processedRecords loop) Dec.zero.
Proof.
  cbn zeta. unfold recordLoop.
  destruct (recordFold_adds scheme agentId agentRecords
              {| processedRecords := []; baseTotal := Dec.zero;
                 adjustedTotal := Dec.zero; recordEntries := [] |})
    as (added & newEntries & P & E & L & T & F).
  cbn zeta in *. cbn [processedRecords recordEntries adjustedTotal app] in *.
  rewrite P, E, T. repeat split; assumption.
Qed.

End WithHost.
End RecordFacts.

Section StageProperties.
Import Js Engine JsDate Helpers Run Extra Spec.
Import CsvFacts ObjFacts EngineFacts StageFacts RecordFacts.
Context {host : Host}.

Local Open Scope string_scope.

(** X13: the record loop accounts for every record of an agent: a record
    is either kept as a processed record or dropped with exactly one
    entry, a data error or an exclusion.  Every processed record carries
    its adjusted amount, and the agent's total adjusted amount is the sum
    of these amounts in record order. *)
Theorem X13_every_record_is_processed_or_dropped_with_one_entry
    (scheme : Scheme) (agentId : string) (agentRecords : list RecordObj) :
  let loop := recordLoop scheme agentId agentRecords in
  (List.length (processedRecords loop)
   + List.length (filter isDropEntry (recordEntries loop))
   = List.length agentRecords)%nat
  /\ Forall (fun r => prop r "adjustedAmount" = VDec (adjustedAmountOf r))
       (processedRecords loop)
  /\ adjustedTotal loop = fold_left addAdjusted (processedRecords loop) Dec.zero.
Proof. exact (recordLoop_accounts scheme agentId agentRecords). Qed.

(** X14: a qualification rule on an agent-level field aggregated by Sum
    whose source is the amount field is evaluated on the agent's total
    adjusted amount (exclusions and adjustments applied), and the sum logs
    no warning. *)
Theorem X14_sum_of_the_amount_field_is_the_total_adjusted_amount
    (scheme : Scheme) (agentId : string) (agentRecords : list RecordObj)
    (rule : Rule) (fields : list KpiField) (fieldDef : KpiField)
    (entries : list LogEntry) :
  findField fields (rule_field rule) = Some fieldDef ->
  evaluationLevel fieldDef = "Agent" ->
  aggregation fieldDef = "Sum" ->
  kpi_sourceField fieldDef = amountField (baseMapping scheme) ->
  let loop := recordLoop scheme agentId agentRecords in
  qualificationStep scheme agentId (processedRecords loop) rule fields entries
  = concludeRule agentId rule fields (dataType fieldDef)
      (VDec (adjustedTotal loop)) entries.
Proof.
  intros Hf Hl Ha Hs. cbn zeta.
  destruct (recordLoop_accounts scheme agentId agentRecords) as (_ & F & T).
  unfold qualificationStep. rewrite Hf, Hl, Ha. cbn [String.eqb Ascii.eqb Bool.eqb].
  rewrite (sumFold_adjusted scheme rule fieldDef Hs _ _ _ F), <- T. reflexivity.
Qed.

(** X15: the log of an agent tells whether and by which rule the agent
    was disqualified.  The log of a qualified agent has no failed
    evaluation and no disqualification entry.  A disqualified agent has
    payout zero, and the log ends with the failed evaluation of a rule
    followed by the disqualification entry that names this rule; nothing
    before them is a failed evaluation, and no quota or tier entry
    follows. *)
Theorem X15_agent_log_ends_with_the_disqualifying_rule
    (scheme : Scheme) (rules : list Rule) (fields : list KpiField)
    (agentId : string) (agentRecords : list RecordObj) (outcome : AgentOutcome) :
  agentOutcome scheme rules fields agentId agentRecords = Some outcome ->
  if qualified (info outcome)
  then Forall passes (logs (info outcome))
  else payout (info outcome) = Dec.of_Z 0
       /\ exists before ruleId field operator value evaluated,
            logs (info outcome)
            = (before ++
               [LogQualification ruleId agentId false field operator value
                  evaluated;
                LogDisqualified agentId ruleId])%list
            /\ Forall passes before.
Proof.
  intros Eo.
  pose proof (agentOutcome_spec scheme rules fields agentId agentRecords) as A.
  cbv zeta in A. rewrite Eo in A. destruct A as (Hs & Hq & _).
  rewrite Hq. unfold qualifiedByRules in *.
  pose proof (qualificationLoop_shape scheme agentId
                (processedRecords (recordLoop scheme agentId agentRecords))
                rules fields []) as S.
  destruct (qualificationLoop _ _ _ rules fields []) as [[[q rules'] fields'] entries].
  destruct S as (added & F & S). cbn [fst snd] in *. destruct q.
  - simpl in S. subst entries. unfold payoutStage in Hs.
    destruct (Dec.gt (quotaOf scheme) (Dec.of_Z 0)).
    + destruct (Dec.lt _ _).
      * injection Hs as _ <-.
        apply Forall_app. split; [exact F|]. constructor; [exact I|constructor].
      * destruct (calculateTieredPayout _ _) as [p|]; [|discriminate Hs].
        injection Hs as _ <-. apply Forall_app. split.
        -- apply Forall_app. split; [exact F|]. constructor; [exact I|constructor].
        -- constructor; [exact I|constructor].
    + destruct (calculateTieredPayout _ _) as [p|]; [|discriminate Hs].
      injection Hs as _ <-. apply Forall_app. split; [exact F|].
      constructor; [exact I|constructor].
  - destruct S as (rid & fld & op & v & ev & S). simpl in S.
    unfold payoutStage in Hs. injection Hs as <- <-.
    split; [reflexivity|].
    exists added, rid, fld, op, v, ev. split; [exact S|exact F].
Qed.

(** X16: a quota of zero or below is no gate: the outcome of every agent
    that the rules qualify is that of the tiers on its full total adjusted
    amount (the same payout when the tier calculation returns, no outcome
    when it throws). *)
Theorem X16_quota_of_zero_or_below_is_no_gate
    (scheme : Scheme) (rules : list Rule) (fields : list KpiField)
    (agentId : string) (agentRecords : list RecordObj) :
  (quotaAmount scheme <= 0)%Q ->
  qualifiedByRules scheme rules fields agentId agentRecords = true ->
  option_map (fun outcome => payout (info outcome))
    (agentOutcome scheme rules fields agentId agentRecords)
  = calculateTieredPayout (totalOf scheme agentId agentRecords) (payoutTiers scheme).
Proof.
  intros Hquota Hq.
  pose proof (agentOutcome_spec scheme rules fields agentId agentRecords) as A.
  cbv zeta in A. rewrite Hq in A. unfold payoutStage in A.
  assert (G : Dec.gt (quotaOf scheme) (Dec.of_Z 0) = false).
  { unfold quotaOf. destruct (Qeq_bool (quotaAmount scheme) 0); [reflexivity|].
    unfold Dec.gt, Dec.of_number, Dec.of_Z, Dec.cmp.
    destruct (Qred (quotaAmount scheme) ?= inject_Z 0)%Q eqn:C; try reflexivity.
    apply Qgt_alt in C. rewrite Qred_correct in C.
    change (inject_Z 0) with 0%Q in C. lra. }
  rewrite G in A.
  destruct (agentOutcome scheme rules fields agentId agentRecords) as [out|].
  - destruct A as (Hs & _).
    destruct (calculateTieredPayout _ _) as [p|]; [|discriminate Hs].
    injection Hs as Hp _. simpl. rewrite Hp. reflexivity.
  - destruct (calculateTieredPayout _ _) as [p|]; [discriminate A|reflexivity].
Qed.

End StageProperties.

(** ** Further properties: the credit split *)

Module SplitFacts.
Import Js Engine JsDate Helpers Run Extra Spec.
Import CsvFacts ObjFacts EngineFacts.

Local Open Scope string_scope.

Section WithHost.
Context {host : Host}.

Lemma findManager_null hier run : findManager hier VNull run = None.
Proof. reflexivity. Qed.

Lemma climb_onChain scheme hier run agentId splitRole : forall steps st md,
  onChain hier run agentId st ->
  let st' := fst (climb scheme hier run agentId splitRole steps st md) in
  onChain hier run agentId st'
  /\ (currentAgentForLookup st' = VNull
      \/ level st' = (level st + Z.of_nat steps)%Z)
  /\ exists warnings,
       splitEntries st' = (splitEntries st ++ warnings)%list
       /\ forall bp, Forall (backedBySplit scheme hier run agentId bp) warnings.
Proof.
  induction steps as [|n IH]; intros st md Hst; cbn zeta.
  - simpl. split; [exact Hst|]. split; [right; lia|].
    exists []. rewrite app_nil_r. split; [reflexivity|]. intros bp. constructor.
  - cbn [climb].
    destruct (findManager hier (currentAgentForLookup st) run) as [details|] eqn:F.
    + set (st1 := {| currentAgentForLookup := managerId details;
                     level := (level st + 1)%Z;
                     splitEntries := splitEntries st |}).
      assert (H1 : onChain hier run agentId st1).
      { destruct Hst as [Hl Hc]. split; [simpl; lia|].
        destruct Hc as [Hc | Hc].
        - rewrite Hc in F. discriminate F.
        - right. simpl.
          replace (Z.to_nat (level st + 1 - 1)) with (S (Z.to_nat (level st - 1)))
            by lia.
          cbn [managerAt]. rewrite Hc, F. reflexivity. }
      destruct (IH st1 (Some details) H1) as (I1 & I2 & I3). cbn zeta in *.
      split; [exact I1|]. split; [|exact I3].
      destruct I2 as [I2 | I2]; [left; exact I2|right].
      rewrite I2. simpl. lia.
    + cbn [fst]. split.
      * split; [exact (proj1 Hst)|left; reflexivity].
      * split; [left; reflexivity|].
        eexists. split; [reflexivity|].
        intros bp. constructor; [exact I|constructor].
Qed.

(** What resolving the target of a split rule yields. *)
Lemma resolveTarget_onChain scheme hier run agentId st splitRule :
  onChain hier run agentId st ->
  let res := resolveTarget scheme hier run agentId st splitRule in
  onChain hier run agentId (afterLookup res)
  /\ (exists warnings,
        splitEntries (afterLookup res) = (splitEntries st ++ warnings)%list
        /\ forall bp, Forall (backedBySplit scheme hier run agentId bp) warnings)
  /\ (truthy (targetAgentId res) = true ->
      exists n,
        parseInt (substring1 (role splitRule)) = Some n
        /\ (1 <= n)%Z
        /\ managerAt hier run agentId (Z.to_nat (n - 1)) = Some (targetAgentId res)).
Proof.
  intros Hst. cbn zeta. unfold resolveTarget.
  assert (Hsame : exists warnings,
             splitEntries st = (splitEntries st ++ warnings)%list
             /\ forall bp, Forall (backedBySplit scheme hier run agentId bp) warnings).
  { exists []. rewrite app_nil_r. split; [reflexivity|]. intros bp. constructor. }
  destruct (String.eqb (role splitRule) "L1") eqn:E1.
  - cbn [afterLookup targetAgentId]. split; [exact Hst|]. split; [exact Hsame|].
    intros _. apply String.eqb_eq in E1. rewrite E1. exists 1%Z.
    split; [reflexivity|]. split; [lia|reflexivity].
  - destruct (parseInt (substring1 (role splitRule))) as [targetLevel|].
    + destruct (level st <? targetLevel)%Z eqn:Elt.
      * apply Z.ltb_lt in Elt.
        pose proof (climb_onChain scheme hier run agentId (role splitRule)
                      (Z.to_nat (targetLevel - level st)) st None Hst) as C.
        cbn zeta in C.
        destruct (climb _ _ _ _ _ _ st None) as [st' details].
        cbn [fst] in C. destruct C as (C1 & C2 & (warnings & C3 & C4)).
        destruct (truthy (currentAgentForLookup st') && (level st' =? targetLevel)%Z)
          eqn:Et; cbn [afterLookup targetAgentId].
        -- split; [exact C1|]. split; [exists warnings; split; assumption|].
           intros Htr. exists targetLevel. split; [reflexivity|].
           apply andb_true_iff in Et. destruct Et as [_ El]. apply Z.eqb_eq in El.
           destruct C1 as [Hl Hc]. split; [lia|].
           destruct Hc as [Hc | Hc]; [rewrite Hc in Htr; discriminate Htr|].
           rewrite <- El. exact Hc.
        -- split; [exact C1|]. split; [exists warnings; split; assumption|].
           intros Htr. discriminate Htr.
      * destruct (targetLevel =? level st)%Z eqn:Eeq; cbn [afterLookup targetAgentId].
        -- split; [exact Hst|]. split; [exact Hsame|].
           intros Htr. exists targetLevel. split; [reflexivity|].
           apply Z.eqb_eq in Eeq. destruct Hst as [Hl Hc]. split; [lia|].
           destruct Hc as [Hc | Hc]; [rewrite Hc in Htr; discriminate Htr|].
           rewrite Eeq. exact Hc.
        -- split; [exact Hst|]. split; [exact Hsame|]. intros Htr. discriminate Htr.
    + cbn [afterLookup targetAgentId]. split; [exact Hst|]. split; [exact Hsame|].
      intros Htr. discriminate Htr.
Qed.

Lemma splitStep_onChain scheme hier run agentId bp st splitRule :
  In splitRule (creditSplits scheme) ->
  onChain hier run agentId st ->
  let st' := splitStep scheme hier run agentId bp st splitRule in
  onChain hier run agentId st'
  /\ exists added,
       splitEntries st' = (splitEntries st ++ added)%list
       /\ Forall (backedBySplit scheme hier run agentId bp) added.
Proof.
  intros Hin Hst. cbn zeta.
  destruct (resolveTarget_onChain scheme hier run agentId st splitRule Hst)
    as (R1 & (warnings & R2 & R3) & R4).
  cbn zeta in *. unfold splitStep.
  destruct (truthy (targetAgentId _)) eqn:Et.
  - destruct (Dec.gt (creditAmount bp splitRule) (Dec.of_Z 0)) eqn:Eg.
    + split; [exact R1|]. unfold appendEntry. cbn [splitEntries].
      eexists. split; [rewrite R2, <- app_assoc; reflexivity|].
      apply Forall_app. split; [apply R3|].
      constructor; [|constructor].
      unfold distributionRecord. split; [reflexivity|].
      destruct (R4 eq_refl) as (n & Hn & H1 & Hm).
      exists splitRule, n. repeat split; assumption.
    + split; [exact R1|]. exists warnings. split; [exact R2|apply R3].
  - destruct (negb (String.eqb (role splitRule) "L1")).
    + split; [exact R1|]. unfold appendEntry. cbn [splitEntries].
      eexists. split; [rewrite R2, <- app_assoc; reflexivity|].
      apply Forall_app. split; [apply R3|]. constructor; [exact I|constructor].
    + split; [exact R1|]. exists warnings. split; [exact R2|apply R3].
Qed.

Lemma splitFold_onChain scheme hier run agentId bp : forall splits st,
  (forall s, In s splits -> In s (creditSplits scheme)) ->
  onChain hier run agentId st ->
  exists added,
    splitEntries (fold_left (splitStep scheme hier run agentId bp) splits st)
    = (splitEntries st ++ added)%list
    /\ Forall (backedBySplit scheme hier run agentId bp) added.
Proof.
  induction splits as [|s rest IH]; intros st Hsub Hst.
  - exists []. simpl. rewrite app_nil_r. split; [reflexivity|constructor].
  - cbn [fold_left].
    destruct (splitStep_onChain scheme hier run agentId bp st s
                (Hsub s (or_introl eq_refl)) Hst) as (S1 & a1 & E1 & F1).
    cbn zeta in *.
    destruct (IH (splitStep scheme hier run agentId bp st s)) as (a2 & E2 & F2).
    + intros x Hx. apply Hsub. right. exact Hx.
    + exact S1.
    + exists (a1 ++ a2)%list. split.
      * rewrite E2, E1, <- app_assoc. reflexivity.
      * apply Forall_app. split; assumption.
Qed.

End WithHost.
End SplitFacts.

Section SplitProperties.
Import Js Engine JsDate Helpers Run Extra Spec.
Import CsvFacts ObjFacts EngineFacts SplitFacts.
Context {host : Host}.

Local Open Scope string_scope.

(** X17: every distribution that the split loop records for an agent is
    backed by a declared split rule: it comes from the agent, carries the
    role and percentage of the rule and the amount
    [basePayout * percentage / 100] (which is above zero) to two decimals,
    and for role [Ln] it goes to the person [n - 1] manager lookups up the
    reporting chain of the agent on the run date (the agent itself for
    [L1]).  No credit goes to anybody else. *)
Theorem X17_every_distribution_is_backed_by_a_split_rule_and_the_chain
    (scheme : Scheme) (hierarchyData : list CsvRow) (runAsOfDate : Z)
    (agentId : string) (basePayout : Decimal) (entry : LogEntry) :
  In entry (creditSplitLoop scheme hierarchyData runAsOfDate agentId basePayout []) ->
  backedBySplit scheme hierarchyData runAsOfDate agentId basePayout entry.
Proof.
  unfold creditSplitLoop. intros Hin.
  destruct (splitFold_onChain scheme hierarchyData runAsOfDate agentId basePayout
              (creditSplits scheme)
              {| currentAgentForLookup := VStr agentId; level := 1;
                 splitEntries := [] |}) as (added & E & F).
  - intros s Hs. exact Hs.
  - split; [simpl; lia|]. right. reflexivity.
  - rewrite E in Hin. simpl in Hin. rewrite Forall_forall in F. apply F. exact Hin.
Qed.

End SplitProperties.

(** ** Further properties: [evaluateRule] *)

Module RuleFacts.
Import Js Engine JsDate Helpers Run Extra.

Local Open Scope string_scope.

Lemma leb_ltb (s1 s2 : string) : String.leb s1 s2 = negb (String.ltb s2 s1).
Proof.
  unfold String.leb, String.ltb. rewrite (String.compare_antisym s2 s1).
  destruct (String.compare s1 s2); reflexivity.
Qed.

Lemma leb_ltb_eqb (s1 s2 : string) :
  String.leb s1 s2 = String.ltb s1 s2 || String.eqb s1 s2.
Proof.
  unfold String.leb, String.ltb.
  destruct (String.compare s1 s2) eqn:C.
  - apply String.compare_eq_iff in C. subst s2. rewrite String.eqb_refl. reflexivity.
  - reflexivity.
  - destruct (String.eqb s1 s2) eqn:E; [|reflexivity].
    apply String.eqb_eq in E. subst s2.
    pose proof (String.compare_antisym s1 s1) as A. rewrite C in A.
    discriminate A.
Qed.

Lemma cmp_number x y : x <> DNaN -> y <> DNaN -> exists c, Dec.cmp x y = Some c.
Proof.
  intros Hx Hy. destruct x as [|s|a], y as [|t|b]; try congruence;
    eexists; reflexivity.
Qed.

End RuleFacts.

Section RuleProperties.
Import Js Engine JsDate Helpers Run Extra RuleFacts.
Context {host : Host}.

Local Open Scope string_scope.

(** X19: how the operators of [evaluateRule] hang together.  On a field
    of a data type other than Number and Date (values compared as
    strings), and on a Number field when both sides are numbers, [>=]
    holds exactly when [<] fails, [<=] exactly when [>] fails, [!=]
    exactly when [=] fails, and [>=] exactly when [>] or [=] holds.  On a
    Number field a side that is no number at all (the constructor rejects
    it) makes every operator fail, [!=] included; on a Date field every
    operator fails. *)
Theorem X19_comparison_operators_are_coherent
    (recordValue ruleValue : JsVal) (dataType : string) :
  let holds op := evaluateRule recordValue op ruleValue dataType in
  (dataType = "Date" -> forall op, holds op = false)
  /\ (dataType = "Number" ->
      toDecimal recordValue = None \/ toDecimal ruleValue = None ->
      forall op, holds op = false)
  /\ ((dataType <> "Number" /\ dataType <> "Date")
      \/ (dataType = "Number"
          /\ exists x y, toDecimal recordValue = Some x
                         /\ toDecimal ruleValue = Some y
                         /\ x <> DNaN /\ y <> DNaN) ->
      holds ">=" = negb (holds "<")
      /\ holds "<=" = negb (holds ">")
      /\ holds "!=" = negb (holds "=")
      /\ holds ">=" = holds ">" || holds "=").
Proof.
  cbn zeta. split; [|split].
  - intros ->. intros op. reflexivity.
  - intros -> H op. unfold evaluateRule. cbn [String.eqb Ascii.eqb Bool.eqb].
    destruct H as [-> | H]; [reflexivity|].
    destruct (toDecimal recordValue); [|reflexivity]. rewrite H. reflexivity.
  - intros [[Hn Hd] | (-> & x & y & Hx & Hy & Nx & Ny)].
    + unfold evaluateRule.
      apply String.eqb_neq in Hn, Hd. rewrite Hn, Hd.
      cbn [String.eqb Ascii.eqb Bool.eqb].
      repeat split.
      * apply leb_ltb.
      * apply leb_ltb.
      * rewrite leb_ltb_eqb. rewrite (String.eqb_sym (toStr ruleValue)). reflexivity.
    + unfold evaluateRule. cbn [String.eqb Ascii.eqb Bool.eqb]. rewrite Hx, Hy.
      destruct (cmp_number x y Nx Ny) as [c Hc].
      unfold Dec.gte, Dec.lt, Dec.lte, Dec.gt, Dec.equals. rewrite Hc.
      destruct c; repeat split.
Qed.

End RuleProperties.

(** ** The engine on concrete inputs

    Runs of the engine with the concrete host [IsoHost.host]. *)

Import IsoHost.

Local Open Scope string_scope.

(** C3, as stated, fails on both counts.  A record of agent "a1" valid all
    of 2024 is not selected for agent "A1" (the match is case-sensitive);
    and a record of "A1" valid from 2024-01-01 to 2024-03-31 is not
    selected for the run date 2024-06-15 although its window overlaps the
    interval from the scheme start 2024-01-01 to the run date (the window
    must contain the run date). *)
Lemma C3_counterexample :
  exists runAsOfDate schemeEffectiveFrom reportsFrom reportsToEnd,
    Helpers.parseDate (Js.VStr "2024-06-15") = Some runAsOfDate /\
    Helpers.parseDate (Js.VStr "2024-01-01") = Some schemeEffectiveFrom /\
    Helpers.parseDate (Js.VStr "2024-01-01") = Some reportsFrom /\
    Helpers.parseDate (Js.VStr "2024-03-31") = Some reportsToEnd /\
    (reportsFrom <= runAsOfDate /\ schemeEffectiveFrom <= reportsToEnd) /\
    Helpers.findManager
      [Examples.hierarchyRow "A1" "M" "2024-01-01" "2024-03-31"]
      (Js.VStr "A1") runAsOfDate = None /\
    Helpers.findManager
      [Examples.hierarchyRow "a1" "M" "2024-01-01" "2024-12-31"]
      (Js.VStr "A1") runAsOfDate = None.
Proof.
  do 4 eexists. repeat split; try (vm_compute; reflexivity); vm_compute; discriminate.
Qed.

(** C5, as stated, fails for a record whose amount does not parse: the
    record below is of status Cancelled, so the rule e1 is the first
    exclusion rule that matches it, yet the record gets no exclusion
    entry: it is dropped with a data error, and no exclusion rule is
    evaluated. *)
Lemma C5_counterexample :
  Engine.exclusionRules Examples.rulesScheme
  = [ {| Engine.rule_id := "e0"; Engine.rule_field := "Status";
         Engine.rule_operator := "="; Engine.rule_value := Js.VStr "Open" |};
      {| Engine.rule_id := "e1"; Engine.rule_field := "Status";
         Engine.rule_operator := "="; Engine.rule_value := Js.VStr "Cancelled" |};
      {| Engine.rule_id := "e2"; Engine.rule_field := "Status";
         Engine.rule_operator := "CONTAINS"; Engine.rule_value := Js.VStr "Cancel" |} ]
  /\ Spec.exclusionRuleMatches Examples.rulesScheme Examples.unpricedRecord
       {| Engine.rule_id := "e0"; Engine.rule_field := "Status";
          Engine.rule_operator := "="; Engine.rule_value := Js.VStr "Open" |}
     = false
  /\ Spec.exclusionRuleMatches Examples.rulesScheme Examples.unpricedRecord
       {| Engine.rule_id := "e1"; Engine.rule_field := "Status";
          Engine.rule_operator := "="; Engine.rule_value := Js.VStr "Cancelled" |}
     = true
  /\ Run.recordEntries
       (Run.processRecord Examples.rulesScheme "A" Examples.emptyLoop
          Examples.unpricedRecord)
     = [Engine.LogDataError (Js.VStr "rec_0") "A" (Js.VStr "abc")].
Proof.
  repeat split; vm_compute; reflexivity.
Qed.

Lemma C5_witness :
  (exists recordValue,
      Run.recordEntries
        (Run.processRecord Examples.rulesScheme "A" Examples.emptyLoop
           Examples.cancelledRecord)
      = [Engine.LogExclusion "e1" (Js.VStr "rec_0") "A" "Status" recordValue "="
           (Js.VStr "Cancelled")])
  /\ Run.adjustedTotal
       (Run.processRecord Examples.rulesScheme "A" Examples.emptyLoop
          Examples.cancelledRecord) = Dec.zero
  /\ Run.processedRecords
       (Run.processRecord Examples.rulesScheme "A" Examples.emptyLoop
          Examples.cancelledRecord) = [].
Proof.
  apply (C5_first_matching_exclusion_rule_excludes
           Examples.rulesScheme "A" Examples.emptyLoop Examples.cancelledRecord
           (DFin 1000)
           [ {| Engine.rule_id := "e0"; Engine.rule_field := "Status";
                Engine.rule_operator := "="; Engine.rule_value := Js.VStr "Open" |} ]
           [ {| Engine.rule_id := "e2"; Engine.rule_field := "Status";
                Engine.rule_operator := "CONTAINS";
                Engine.rule_value := Js.VStr "Cancel" |} ]
           {| Engine.rule_id := "e1"; Engine.rule_field := "Status";
              Engine.rule_operator := "="; Engine.rule_value := Js.VStr "Cancelled" |}).
  - vm_compute. reflexivity.
  - reflexivity.
  - intros r [<- | []]. vm_compute. reflexivity.
  - vm_compute. reflexivity.
Defined.

Lemma C6_witness :
  Run.adjustedTotal
    (Run.processRecord Examples.rulesScheme "A" Examples.emptyLoop
       Examples.deliveredRecord)
  = Dec.add Dec.zero
      (Spec.adjustedAmountSpec Examples.rulesScheme Examples.deliveredRecord (DFin 1000))
  /\ Run.processedRecords
       (Run.processRecord Examples.rulesScheme "A" Examples.emptyLoop
          Examples.deliveredRecord)
     = [Js.set Examples.deliveredRecord "adjustedAmount"
          (Js.VDec (Spec.adjustedAmountSpec Examples.rulesScheme
                      Examples.deliveredRecord (DFin 1000)))].
Proof.
  apply (C6_adjustments_compose_in_declared_order
           Examples.rulesScheme "A" Examples.emptyLoop Examples.deliveredRecord
           (DFin 1000)).
  - vm_compute. reflexivity.
  - intros r [<- | [<- | [<- | []]]]; vm_compute; reflexivity.
Defined.

(** C1, as stated, fails: with the split L2 = 20 percent, the hierarchy
    record A -> M valid on the run date and a base payout of 300, the
    result has no entry under M; the one record, with amount "60.00" and
    [toAgent] M, is under A. *)
Lemma C1_counterexample :
  exists result,
    Run.runScheme Examples.splitScheme Examples.splitFiles "2024-12-31" = inr result
    /\ Js.get (Engine.agentPayouts result) "A" = Some "300.00"
    /\ Js.get (Engine.creditDistributions result) "M" = None
    /\ Js.get (Engine.creditDistributions result) "A"
       = Some [Engine.LogDistribution "A" (Js.VStr "M") "L2" 20 "60.00"
                 "MH_DEC24.csv"
                 (Some (Js.VStr "2024-01-01", Js.VStr "2024-12-31"))].
Proof.
  eexists. split; [vm_compute; reflexivity|].
  repeat split; vm_compute; reflexivity.
Qed.

Lemma C1_witness :
  exists st',
    Run.processAgent Examples.splitScheme
      [Examples.hierarchyRow "A" "M" "2024-01-01" "2024-12-31"]
      Examples.endOf2024 (Examples.emptyState Examples.splitScheme)
      ("A", Examples.recordsOfA) = Some st'
    /\ (exists entries,
          Js.get (Run.st_credit st') "A" = Some entries
          /\ In (Engine.LogDistribution "A" (Js.VStr "M") "L2" 20 "60.00"
                   "MH_DEC24.csv"
                   (Some (Js.VStr "2024-01-01", Js.VStr "2024-12-31"))) entries)
    /\ (forall other, other <> "A" ->
          Js.get (Run.st_credit st') other
          = Js.get (Run.st_credit (Examples.emptyState Examples.splitScheme)) other).
Proof.
  destruct (Run.agentOutcome Examples.splitScheme
              (Run.st_rules (Examples.emptyState Examples.splitScheme))
              (Run.st_fields (Examples.emptyState Examples.splitScheme))
              "A" Examples.recordsOfA) as [out|] eqn:E.
  - pose proof (C1_distribution_recorded_under_originating_agent
                  Examples.splitScheme
                  [Examples.hierarchyRow "A" "M" "2024-01-01" "2024-12-31"]
                  Examples.endOf2024 (Examples.emptyState Examples.splitScheme)
                  "A" Examples.recordsOfA out [] [] Examples.l2Split) as H.
    cbv zeta in H. specialize (H E).
    vm_compute in E. injection E as <-.
    assert (H1 := H ltac:(vm_compute; reflexivity) ltac:(vm_compute; reflexivity)
                    ltac:(discriminate) ltac:(reflexivity)
                    ltac:(vm_compute; reflexivity) ltac:(vm_compute; reflexivity)).
    destruct H1 as (st' & Hst & Hin & Hother).
    exists st'. split; [exact Hst|]. split; [|exact Hother].
    destruct Hin as (entries & Hget & Hin). exists entries.
    split; [exact Hget|]. vm_compute in Hin. vm_compute. exact Hin.
  - vm_compute in E. discriminate E.
Defined.

(** C2, as stated, fails: an agent whose only record has amount 0 has a
    total adjusted amount of zero and stays qualified, and its log holds a
    tier calculation, not a zero-credit skip; and with a tier that starts
    at -100, a total of -50 is paid "5.00". *)
Lemma C2_counterexample :
  (exists out,
      Run.agentOutcome (Examples.plainScheme [Examples.tier 0 (Some 1000000%Q) 10])
        [] [] "A" [Examples.agentRecord "A" "0" "2024-12-05" "rec_0"] = Some out
      /\ Dec.lte (Engine.totalAdjustedAmount (Run.info out)) (Dec.of_Z 0) = true
      /\ Engine.qualified (Run.info out) = true
      /\ Engine.logs (Run.info out)
         = [Engine.LogPayoutCalculation "A" "0.00" "0.00"
              [Examples.tier 0 (Some 1000000%Q) 10]])
  /\ (exists result,
        Run.runScheme (Examples.plainScheme Examples.belowZeroTiers)
          (Examples.salesFile ["A,-50,2024-12-05"]) "2024-12-31" = inr result
        /\ Js.get (Engine.agentPayouts result) "A" = Some "5.00").
Proof.
  split.
  - eexists. split; [vm_compute; reflexivity|]. vm_compute. repeat split.
  - eexists. split; vm_compute; reflexivity.
Qed.

Lemma C2_witness :
  exists out st',
    Run.agentOutcome (Examples.plainScheme [Examples.tier 0 (Some 1000000%Q) 10])
      [] [] "A" [Examples.agentRecord "A" "-5" "2024-12-05" "rec_0"] = Some out
    /\ Run.processAgent (Examples.plainScheme [Examples.tier 0 (Some 1000000%Q) 10])
         [] Examples.endOf2024
         (Examples.emptyState
            (Examples.plainScheme [Examples.tier 0 (Some 1000000%Q) 10]))
         ("A", [Examples.agentRecord "A" "-5" "2024-12-05" "rec_0"]) = Some st'
    /\ Js.get (Run.st_payouts st') "A" = Some "0.00"
    /\ Engine.qualified (Run.info out) = true
    /\ (exists earlier,
          Engine.logs (Run.info out)
          = (earlier ++
             [Engine.LogPayoutCalculation "A" "-5.00" "0.00"
                [Examples.tier 0 (Some 1000000%Q) 10]])%list).
Proof.
  destruct (C2_nonpositive_total_pays_zero
              (Examples.plainScheme [Examples.tier 0 (Some 1000000%Q) 10]) []
              Examples.endOf2024
              (Examples.emptyState
                 (Examples.plainScheme [Examples.tier 0 (Some 1000000%Q) 10]))
              "A" [Examples.agentRecord "A" "-5" "2024-12-05" "rec_0"])
    as (out & st' & Hout & Hst & Hpay & Hq & _ & _ & Hrules & Hlog).
  - vm_compute. reflexivity.
  - intros t [<- | []]. discriminate.
  - intros t [<- | []]. vm_compute. discriminate.
  - exists out, st'. split; [exact Hout|]. split; [exact Hst|].
    split; [exact Hpay|].
    assert (Hq' : Engine.qualified (Run.info out) = true)
      by (rewrite Hq; apply Hrules; reflexivity).
    split; [exact Hq'|].
    rewrite Hq in Hq'.
    destruct (Hlog Hq' ltac:(vm_compute; discriminate)) as [earlier Hl].
    exists earlier. rewrite Hl. vm_compute. reflexivity.
Defined.

(** C4 fails on the code: with a per-record qualification rule
    [Region = EU] and one EU record for each of the agents A and B, B is
    paid "0.00" when A is processed before it, and "100.00" when A's
    record is removed from the input.  The qualification stage of A
    overwrites the rule (operator "=", value true) and the data type of
    its field in the scheme object, and B is evaluated against the
    overwritten rule. *)
Theorem C4_payout_depends_on_agents_processed_before :
  (exists result,
      Run.runScheme Examples.regionScheme Examples.regionFileBoth "2024-12-31"
      = inr result
      /\ Js.get (Engine.agentPayouts result) "A" = Some "100.00"
      /\ Js.get (Engine.agentPayouts result) "B" = Some "0.00")
  /\ (exists result,
        Run.runScheme Examples.regionScheme Examples.regionFileOnlyB "2024-12-31"
        = inr result
        /\ Js.get (Engine.agentPayouts result) "B" = Some "100.00").
Proof.
  split; eexists; (split; [vm_compute; reflexivity|]); repeat split.
Qed.



Lemma C10_witness :
  (exists st',
      Run.processAgent Examples.rulesScheme [] Examples.endOf2024
        (Examples.emptyState Examples.rulesScheme)
        ("A", [Examples.agentRecord "A" "100" "2024-12-05" "rec_0"]) = Some st'
      /\ Js.get (Run.st_payouts st') "A" = Some "0.00")
  /\ option_map (fun out => Engine.payout (Run.info out))
       (Run.agentOutcome Examples.rulesScheme
          (Run.st_rules (Examples.emptyState Examples.rulesScheme))
          (Run.st_fields (Examples.emptyState Examples.rulesScheme))
          "A" [Examples.agentRecord "A" "1000" "2024-12-05" "rec_0"])
     = Helpers.calculateTieredPayout
         (Run.totalOf Examples.rulesScheme "A"
            [Examples.agentRecord "A" "1000" "2024-12-05" "rec_0"])
         (Engine.payoutTiers Examples.rulesScheme).
Proof.
  split.
  - destruct (proj1 (C10_quota_is_a_gate_on_the_full_amount
                       Examples.rulesScheme [] Examples.endOf2024
                       (Examples.emptyState Examples.rulesScheme) "A"
                       [Examples.agentRecord "A" "100" "2024-12-05" "rec_0"]
                       ltac:(reflexivity) ltac:(vm_compute; reflexivity))
                ltac:(vm_compute; reflexivity))
      as (out & st' & _ & _ & _ & Hst & Hpay & _).
    exists st'. split; [exact Hst|exact Hpay].
  - apply (proj2 (C10_quota_is_a_gate_on_the_full_amount
                    Examples.rulesScheme [] Examples.endOf2024
                    (Examples.emptyState Examples.rulesScheme) "A"
                    [Examples.agentRecord "A" "1000" "2024-12-05" "rec_0"]
                    ltac:(reflexivity) ltac:(vm_compute; reflexivity))
             ltac:(vm_compute; reflexivity)).
Defined.

(** The end-to-end scenario of the specification, tiers 0-1000 at
    5 percent and 1000 upwards at 10 percent, cannot be run: the second
    tier has no [to], [calculateTieredPayout] throws on reaching it for
    the amount 1500, and the run is aborted. *)
Lemma open_tier_aborts_the_run :
  Helpers.calculateTieredPayout (Dec.of_Z 1500) Examples.openTiers = None
  /\ Helpers.calculateTieredPayout (Dec.of_Z 500) Examples.openTiers
     = Some (DFin 25)
  /\ Run.runScheme (Examples.plainScheme Examples.openTiers)
       (Examples.salesFile ["A,1500,2024-12-05"]) "2024-12-31"
     = inl Engine.DecimalInvalidArgument.
Proof.
  repeat split; vm_compute; reflexivity.
Qed.

(** ** The further properties on concrete inputs *)

Import Js Engine Helpers Run Extra Examples ExtraExamples.

Lemma X1_witness :
  In "Net Value" (headerCells salesText)
  <-> exists v, get firstSale "Net Value" = Some v.
Proof.
  apply (X1_parseCSV_rows_have_exactly_the_header_keys salesText firstSale
           "Net Value").
  - discriminate.
  - vm_compute. left. reflexivity.
Defined.

Lemma X2_witness :
  exists line,
    In line (dataLines salesText) /\
    forall (i : nat) (header : string),
      header <> "__proto__" ->
      nth_error (headerCells salesText) i = Some header ->
      (forall j, (i < j)%nat -> nth_error (headerCells salesText) j <> Some header) ->
      exists cell,
        nth_error (cells line) i = Some cell /\ get firstSale header = Some cell.
Proof.
  apply (X2_parseCSV_row_holds_the_cells_of_its_line salesText firstSale).
  vm_compute. left. reflexivity.
Defined.


Lemma X6_witness :
  (forall a,
      In a (keys (agentPayouts sumRun))
      <-> exists record,
            In record (parseCSV salesText)
            /\ inWindow sumScheme (parseDate (VStr (effectiveFrom sumScheme)))
                 endOf2024 record = true
            /\ agentOf (agentField (baseMapping sumScheme)) record = Some a)
  /\ NoDup (keys (agentPayouts sumRun))
  /\ incl (keys (ruleHitLogs sumRun)) (keys (agentPayouts sumRun))
  /\ incl (keys (creditDistributions sumRun)) (keys (agentPayouts sumRun)).
Proof.
  apply (X6_payouts_are_reported_for_the_agents_of_the_selected_records
           sumScheme salesFiles "2024-12-31" endOf2024 salesText sumRun).
  - vm_compute. reflexivity.
  - discriminate.
  - reflexivity.
  - vm_compute. discriminate.
  - vm_compute. reflexivity.
Defined.

Lemma X8_witness : creditDistributions sumRun = [].
Proof.
  apply (X8_no_distribution_without_hierarchy_rows_or_split_rules
           sumScheme salesFiles "2024-12-31" sumRun).
  - right. reflexivity.
  - vm_compute. reflexivity.
Defined.

Lemma X9_witness :
  exists copies outcome,
    Forall2 isCopyOf copies
      (filter (isAgent (agentField (baseMapping sumScheme)) "A")
         (filter (inWindow sumScheme (parseDate (VStr (effectiveFrom sumScheme)))
                    endOf2024) (parseCSV salesText)))
    /\ copies <> []
    /\ agentOutcome sumScheme (qualificationRules sumScheme)
         (qualificationFields (kpiConfig sumScheme)) "A" copies = Some outcome
    /\ "250.00" = DecFormat.toFixed2 (payout (info outcome))
    /\ get (ruleHitLogs sumRun) "A"
       = match logs (info outcome) with
         | [] => None
         | entry :: entries => Some (entry :: entries)
         end.
Proof.
  apply (X9_agent_level_rules_pay_each_agent_on_its_own_records
           sumScheme salesFiles "2024-12-31" endOf2024 salesText sumRun "A" "250.00").
  - vm_compute. reflexivity.
  - discriminate.
  - reflexivity.
  - vm_compute. discriminate.
  - intros rule fieldDef [<- | []] H. vm_compute in H. injection H as <-.
    reflexivity.
  - vm_compute. reflexivity.
  - reflexivity.
Defined.

Lemma X10_witness :
  calculateTieredPayout (Dec.of_Z 1500) twoTiers
  = calculateTieredPayout (Dec.of_Z 1500)
      [ tier 1000 (Some 1000000%Q) 10; tier 0 (Some 1000%Q) 5 ].
Proof.
  apply (X10_payout_does_not_depend_on_the_order_of_the_tiers
           (Dec.of_Z 1500) twoTiers
           [ tier 1000 (Some 1000000%Q) 10; tier 0 (Some 1000%Q) 5 ]).
  - apply perm_swap.
  - intros x y [<- | [<- | []]] [<- | [<- | []]] H; try reflexivity;
      vm_compute in H; discriminate H.
Defined.

Lemma X11_witness :
  exists p,
    calculateTieredPayout (DFin 800) overlappingTiers = Some (DFin p) /\ (0 <= p)%Q.
Proof.
  apply (X11_payout_is_not_negative_for_rates_that_are_not_negative
           800 overlappingTiers).
  - intros t [<- | [<- | []]]; discriminate.
  - intros t [<- | [<- | []]]; vm_compute; discriminate.
Defined.

Lemma X12_witness :
  calculateTieredPayout (Dec.of_Z 1000) [ tier 1000 (Some 1000000%Q) 10 ]
  = Some Dec.zero.
Proof.
  apply (X12_amount_up_to_the_lowest_tier_start_pays_zero
           (Dec.of_Z 1000) 1000 [ tier 1000 (Some 1000000%Q) 10 ]).
  - intros t [<- | []]. discriminate.
  - vm_compute. reflexivity.
  - intros t [<- | []]. vm_compute. discriminate.
Defined.

Lemma X14_witness :
  qualificationStep sumScheme "A"
    (processedRecords (recordLoop sumScheme "A" recordsOfA))
    salesRule [ salesField ] []
  = concludeRule "A" salesRule [ salesField ] (dataType salesField)
      (VDec (adjustedTotal (recordLoop sumScheme "A" recordsOfA))) [].
Proof.
  apply (X14_sum_of_the_amount_field_is_the_total_adjusted_amount
           sumScheme "A" recordsOfA salesRule [ salesField ] salesField []);
    reflexivity.
Defined.

Lemma X15_witness :
  exists outcome,
    agentOutcome sumScheme [ salesRule ] [ salesField ] "A" recordsOfA = Some outcome
    /\ Forall Spec.passes (logs (info outcome)).
Proof.
  destruct (agentOutcome sumScheme [ salesRule ] [ salesField ] "A" recordsOfA)
    as [outcome|] eqn:E; [|vm_compute in E; discriminate E].
  exists outcome. split; [reflexivity|].
  pose proof (X15_agent_log_ends_with_the_disqualifying_rule
                sumScheme [ salesRule ] [ salesField ] "A" recordsOfA outcome E) as H.
  assert (Q : qualified (info outcome) = true)
    by (vm_compute in E; injection E as <-; reflexivity).
  rewrite Q in H. exact H.
Defined.

Lemma X16_witness :
  option_map (fun outcome => payout (info outcome))
    (agentOutcome sumScheme [ salesRule ] [ salesField ] "A" recordsOfA)
  = calculateTieredPayout (totalOf sumScheme "A" recordsOfA) (payoutTiers sumScheme).
Proof.
  apply (X16_quota_of_zero_or_below_is_no_gate
           sumScheme [ salesRule ] [ salesField ] "A" recordsOfA).
  - vm_compute. discriminate.
  - vm_compute. reflexivity.
Defined.

Lemma X17_witness :
  backedBySplit splitScheme [ hierarchyRow "A" "M" "2024-01-01" "2024-12-31" ]
    endOf2024 "A" (DFin 300) shareOfM.
Proof.
  apply (X17_every_distribution_is_backed_by_a_split_rule_and_the_chain
           splitScheme [ hierarchyRow "A" "M" "2024-01-01" "2024-12-31" ]
           endOf2024 "A" (DFin 300) shareOfM).
  vm_compute. left. reflexivity.
Defined.

Lemma X18_witness :
  (forall a,
      Forall2 isCopyOf (recordsOf (fst groupedSales) a)
        (filter (isAgent "Sales Employee" a) (parseCSV salesText))
      /\ (get (fst groupedSales) a = None
          <-> filter (isAgent "Sales Employee" a) (parseCSV salesText) = []))
  /\ snd groupedSales
     = ([] ++ List.map (agentWarning "Sales Employee")
                (filter (hasNoAgent "Sales Employee") (parseCSV salesText)))%list.
Proof.
  apply (X18_grouping_files_each_record_under_its_agent
           "Sales Employee" (parseCSV salesText) [] (fst groupedSales)
           (snd groupedSales)).
  vm_compute. reflexivity.
Defined.

Ltac plain_cell :=
  split; [discriminate|split; [vm_compute; reflexivity|]];
  let c := fresh "c" in
  let H := fresh "H" in
  intros c H; vm_compute in H;
  repeat (destruct H as [<- | H]; [split; discriminate|]);
  destruct H.

Lemma X20_witness :
  parseCSV (renderCSV tableHeader tableRows)
  = List.map (combine tableHeader) tableRows.
Proof.
  apply (X20_parseCSV_reads_back_a_written_table tableHeader tableRows).
  - discriminate.
  - constructor; [intros [H | []]; discriminate H|].
    constructor; [intros []|constructor].
  - intros [H | [H | []]]; discriminate H.
  - repeat (constructor; [plain_cell|]). constructor.
  - discriminate.
  - repeat (constructor;
            [split; [reflexivity|repeat (constructor; [plain_cell|]); constructor]|]).
    constructor.
Defined.
